(** * toolbartender-mcp: the planner (src/planner.py)

    A shallow embedding of the rule-based planning pipeline: the intent
    classifier, the slot extractors (date, time, route, e-mail, title) and the
    plan compiler [create_plan], with the properties stated of them.

    Python strings are sequences of Unicode code points, so a string is a
    list of code points here; the regular expressions of the source are
    values of a small regex syntax, run by a backtracking matcher with the
    priorities of Python's [re] (leftmost start, greedy or lazy repetition,
    left alternative first). *)

From Stdlib Require Import List NArith Arith Bool Lia String Ascii.
Import ListNotations.

Set Implicit Arguments.

(** ** Strings as code points *)

Definition char := N.
Definition str := list char.

Module Utf8.

(** Source literals are written in this file as UTF-8 text; [decode] reads
    the bytes of such a literal as the code points Python sees. *)

Definition cont (b : N) : N := N.land b 63.

Fixpoint decode_bytes (bs : list N) : str :=
  match bs with
  | [] => []
  | b :: rest =>
      if (b <? 128)%N then b :: decode_bytes rest
      else if (b <? 224)%N then
        match rest with
        | b2 :: rest' =>
            (N.land b 31 * 64 + cont b2)%N :: decode_bytes rest'
        | _ => [b]
        end
      else if (b <? 240)%N then
        match rest with
        | b2 :: b3 :: rest' =>
            (N.land b 15 * 4096 + cont b2 * 64 + cont b3)%N
              :: decode_bytes rest'
        | _ => [b]
        end
      else
        match rest with
        | b2 :: b3 :: b4 :: rest' =>
            (N.land b 7 * 262144 + cont b2 * 4096 + cont b3 * 64 + cont b4)%N
              :: decode_bytes rest'
        | _ => [b]
        end
  end.

Fixpoint bytes_of (s : string) : list N :=
  match s with
  | EmptyString => []
  | String a s' => N_of_ascii a :: bytes_of s'
  end.

Definition decode (s : string) : str := decode_bytes (bytes_of s).

End Utf8.

Abbreviation u := Utf8.decode.

(** Characters the source names. *)
Definition ch_nl : char := 10%N.
Definition ch_tab : char := 9%N.
Definition ch_cr : char := 13%N.
Definition ch_dquote : char := 34%N.
Definition ch_zero : char := 48%N.
Definition ch_underscore : char := 95%N.

(** ** The interpreter's character classes

    [str.strip], [\s], [\d], [\b] and [int] read Unicode properties of a
    character.  White space is a short, fixed list and is written out; the
    decimal digits (category Nd) and the alphanumeric characters are tables
    of the interpreter's Unicode database, taken as a parameter. *)

Definition isspace (c : char) : bool :=
  ((9 <=? c) && (c <=? 13) || (28 <=? c) && (c <=? 32)
   || (c =? 133) || (c =? 160) || (c =? 5760)
   || (8192 <=? c) && (c <=? 8202)
   || (c =? 8232) || (c =? 8233) || (c =? 8239) || (c =? 8287)
   || (c =? 12288))%N.

Record UnicodeData : Type := {
  decimal : char -> option nat;   (* the digit value of a decimal digit *)
  isalnum : char -> bool
}.

(** The tables restricted to ASCII and the Hangul syllables (all of them
    letters), enough to run the examples. *)
Definition ascii_hangul : UnicodeData := {|
  decimal := fun c =>
    if ((48 <=? c) && (c <=? 57))%N then Some (N.to_nat (c - 48)) else None;
  isalnum := fun c =>
    ((48 <=? c) && (c <=? 57) || (65 <=? c) && (c <=? 90)
     || (97 <=? c) && (c <=? 122) || (44032 <=? c) && (c <=? 55203))%N
|}.

(** ** String operations of the source *)

Fixpoint str_eqb (a b : str) : bool :=
  match a, b with
  | [], [] => true
  | x :: a', y :: b' => (x =? y)%N && str_eqb a' b'
  | _, _ => false
  end.

(** [s.startswith(p)] *)
Fixpoint startswith (p s : str) : bool :=
  match p, s with
  | [], _ => true
  | x :: p', y :: s' => (x =? y)%N && startswith p' s'
  | _ :: _, [] => false
  end.

(** [k in s] *)
Fixpoint contains (k s : str) : bool :=
  startswith k s ||
  match s with
  | [] => false
  | _ :: s' => contains k s'
  end.

(** [s.endswith(suf)] *)
Definition endswith (suf s : str) : bool := startswith (rev suf) (rev s).

Fixpoint dropwhile (f : char -> bool) (s : str) : str :=
  match s with
  | [] => []
  | c :: s' => if f c then dropwhile f s' else s
  end.

Definition lstrip (s : str) : str := dropwhile isspace s.
Definition rstrip (s : str) : str := rev (dropwhile isspace (rev s)).
(** [s.strip()] *)
Definition strip (s : str) : str := rstrip (lstrip s).

(** [any(k in g for k in ks)] *)
Definition any_in (ks : list str) (g : str) : bool :=
  existsb (fun k => contains k g) ks.

(** Decimal printing of a non-negative integer, and the format [:02d]. *)
Fixpoint uint_chars (d : Decimal.uint) : str :=
  match d with
  | Decimal.Nil => []
  | Decimal.D0 d => 48%N :: uint_chars d
  | Decimal.D1 d => 49%N :: uint_chars d
  | Decimal.D2 d => 50%N :: uint_chars d
  | Decimal.D3 d => 51%N :: uint_chars d
  | Decimal.D4 d => 52%N :: uint_chars d
  | Decimal.D5 d => 53%N :: uint_chars d
  | Decimal.D6 d => 54%N :: uint_chars d
  | Decimal.D7 d => 55%N :: uint_chars d
  | Decimal.D8 d => 56%N :: uint_chars d
  | Decimal.D9 d => 57%N :: uint_chars d
  end.

Definition str_of_nat (n : nat) : str := uint_chars (Nat.to_uint n).

Definition format_02d (n : nat) : str :=
  let s := str_of_nat n in
  if List.length s <? 2 then ch_zero :: s else s.

(** ** Errors

    A Python call either returns or raises. *)

Inductive pyerr : Type := ValueError | TypeError | AttributeError.

Inductive exc (A : Type) : Type :=
| Ret (a : A)
| Raise (e : pyerr).
Arguments Ret {A} a.
Arguments Raise {A} e.

Definition bind {A B} (m : exc A) (f : A -> exc B) : exc B :=
  match m with
  | Ret a => f a
  | Raise e => Raise e
  end.

Notation "x <- m ;; k" := (bind m (fun x => k))
  (at level 61, m at next level, right associativity).
Notation "' pat <- m ;; k" := (bind m (fun x => match x with pat => k end))
  (at level 61, pat pattern, m at next level, right associativity).

(** ** Regular expressions

    The constructs the patterns of the source use, and Python's backtracking
    search for them. *)

Module Re.

(** What matches one character. *)
Inductive cset : Type :=
| Lit (c : char)
| Among (cs : str)           (* [[...]] over listed characters *)
| Dot                        (* [.]: anything but a newline *)
| Digit                      (* [\d] *)
| Space                      (* [\s] *)
| Range (lo hi : char)       (* [lo-hi] inside a class *)
| Union (a b : cset)
| Compl (a : cset).          (* [[^...]] *)

Inductive regex : Type :=
| Eps
| One (cs : cset)
| Cat (r1 r2 : regex)
| Alt (r1 r2 : regex)
| Grp (n : nat) (r : regex)                 (* the n-th capturing group *)
| Opt (r : regex)                           (* [(?:r)?] *)
| Rep (lazy : bool) (lo : nat) (hi : option nat) (cs : cset)
                                            (* [cs{lo,hi}], [cs{lo,hi}?] *)
| Bnd.                                      (* [\b] *)

(** A literal string. *)
Definition lit (s : str) : regex :=
  fold_right (fun c r => Cat (One (Lit c)) r) Eps s.

Definition star (cs : cset) : regex := Rep false 0 None cs.
Definition plus (cs : cset) : regex := Rep false 1 None cs.
Definition plus_lazy (cs : cset) : regex := Rep true 1 None cs.

(** Where the matcher stands: the character before, and the text ahead. *)
Record cursor : Type := { prev : option char; rest : str }.

Definition caps : Type := list (nat * str).

Fixpoint lookup (n : nat) (g : caps) : option str :=
  match g with
  | [] => None
  | (m, w) :: g' => if Nat.eqb n m then Some w else lookup n g'
  end.

(** The text read between two cursors of one scan. *)
Definition consumed (cu cu' : cursor) : str :=
  firstn (List.length (rest cu) - List.length (rest cu')) (rest cu).

Record mobj : Type := { m_text : str; m_groups : caps; m_end : cursor }.

(** [m.group(n)]: [None] for a group that took no part in the match. *)
Definition group (n : nat) (m : mobj) : option str :=
  match n with
  | 0 => Some (m_text m)
  | _ => lookup n (m_groups m)
  end.

Section Matcher.

Variable ucd : UnicodeData.

Fixpoint cset_mem (cs : cset) (c : char) : bool :=
  match cs with
  | Lit x => (c =? x)%N
  | Among xs => existsb (N.eqb c) xs
  | Dot => negb (c =? ch_nl)%N
  | Digit => match decimal ucd c with Some _ => true | None => false end
  | Space => isspace c
  | Range lo hi => ((lo <=? c) && (c <=? hi))%N
  | Union a b => cset_mem a c || cset_mem b c
  | Compl a => negb (cset_mem a c)
  end.

(** [\w] *)
Definition isword (c : char) : bool :=
  isalnum ucd c || (c =? ch_underscore)%N.

Definition isword_opt (o : option char) : bool :=
  match o with
  | Some c => isword c
  | None => false
  end.

Definition at_boundary (cu : cursor) : bool :=
  xorb (isword_opt (prev cu)) (isword_opt (hd_error (rest cu))).

(** [cs{lo,hi}]: the greedy form takes a further character before it
    tries the rest of the pattern, the lazy form after. *)
Fixpoint rep_match {A : Type} (lazy : bool) (cs : cset) (lo : nat)
    (hi : option nat) (p : option char) (s : str)
    (k : cursor -> option A) : option A :=
  let stop := fun _ : unit =>
    match lo with
    | 0 => k {| prev := p; rest := s |}
    | S _ => None
    end in
  let more := fun _ : unit =>
    match hi, s with
    | Some 0, _ => None
    | _, [] => None
    | _, c :: s' =>
        if cset_mem cs c
        then rep_match lazy cs (pred lo) (option_map pred hi) (Some c) s' k
        else None
    end in
  if lazy
  then match stop tt with Some x => Some x | None => more tt end
  else match more tt with Some x => Some x | None => stop tt end.

(** The matcher, in continuation-passing style: [k] is the rest of the
    pattern; an alternative is tried only when the earlier one, with all
    that follows it, fails. *)
Fixpoint rmatch {A : Type} (r : regex) (cu : cursor) (g : caps)
    (k : cursor -> caps -> option A) : option A :=
  match r with
  | Eps => k cu g
  | One cs =>
      match rest cu with
      | c :: s' =>
          if cset_mem cs c then k {| prev := Some c; rest := s' |} g
          else None
      | [] => None
      end
  | Cat r1 r2 => rmatch r1 cu g (fun cu' g' => rmatch r2 cu' g' k)
  | Alt r1 r2 =>
      match rmatch r1 cu g k with
      | Some x => Some x
      | None => rmatch r2 cu g k
      end
  | Grp n r1 =>
      rmatch r1 cu g (fun cu' g' => k cu' ((n, consumed cu cu') :: g'))
  | Opt r1 =>
      match rmatch r1 cu g k with
      | Some x => Some x
      | None => k cu g
      end
  | Rep lazy lo hi cs =>
      rep_match lazy cs lo hi (prev cu) (rest cu) (fun cu' => k cu' g)
  | Bnd => if at_boundary cu then k cu g else None
  end.

Definition match_here (r : regex) (cu : cursor) : option mobj :=
  rmatch r cu []
    (fun cu' g =>
       Some {| m_text := consumed cu cu'; m_groups := g; m_end := cu' |}).

(** [re.search]: the match at the leftmost position that has one. *)
Fixpoint search_from (r : regex) (p : option char) (s : str)
    : option mobj :=
  match match_here r {| prev := p; rest := s |} with
  | Some m => Some m
  | None =>
      match s with
      | [] => None
      | c :: s' => search_from r (Some c) s'
      end
  end.

Definition search (r : regex) (s : str) : option mobj :=
  search_from r None s.

(** The scan of [re.findall]: successive matches, each sought from the
    end of the one before; [skip] counts the characters the last match
    still covers.  (After an empty match the scan moves on by one
    character; the pattern scanned in this program matches no empty
    text.) *)
Fixpoint scan (r : regex) (p : option char) (s : str) (skip : nat)
    : list mobj :=
  match skip with
  | S n =>
      match s with
      | [] => []
      | c :: s' => scan r (Some c) s' n
      end
  | 0 =>
      match match_here r {| prev := p; rest := s |} with
      | Some m =>
          m :: match s with
               | [] => []
               | c :: s' =>
                   scan r (Some c) s' (pred (List.length (m_text m)))
               end
      | None =>
          match s with
          | [] => []
          | c :: s' => scan r (Some c) s' 0
          end
      end
  end.

(** [re.findall] for a pattern with two groups: the pairs of their
    texts, the empty string for a group that took no part. *)
Definition group_or_empty (n : nat) (m : mobj) : str :=
  match group n m with
  | Some w => w
  | None => []
  end.

Definition findall2 (r : regex) (s : str) : list (str * str) :=
  map (fun m => (group_or_empty 1 m, group_or_empty 2 m))
      (scan r None s 0).

End Matcher.

(** *** What a match is

    The matcher above is an algorithm; [Matches r cu g cu' g'] says,
    without an order of search, that [r] can read the text between the
    cursors [cu] and [cu'], taking the groups from [g] to [g']. *)

(** The cursor after reading [w] with [s'] left, from a cursor whose last
    character was [p]. *)
Definition after (p : option char) (w s' : str) : cursor :=
  {| prev := fold_left (fun _ c => Some c) w p; rest := s' |}.

Section Declarative.

Variable ucd : UnicodeData.

Inductive Matches : regex -> cursor -> caps -> cursor -> caps -> Prop :=
| M_Eps cu g : Matches Eps cu g cu g
| M_One cs p c s' g :
    cset_mem ucd cs c = true ->
    Matches (One cs) {| prev := p; rest := c :: s' |} g
            {| prev := Some c; rest := s' |} g
| M_Cat r1 r2 cu g cu1 g1 cu2 g2 :
    Matches r1 cu g cu1 g1 -> Matches r2 cu1 g1 cu2 g2 ->
    Matches (Cat r1 r2) cu g cu2 g2
| M_AltL r1 r2 cu g cu' g' :
    Matches r1 cu g cu' g' -> Matches (Alt r1 r2) cu g cu' g'
| M_AltR r1 r2 cu g cu' g' :
    Matches r2 cu g cu' g' -> Matches (Alt r1 r2) cu g cu' g'
| M_Grp n r cu g cu' g' :
    Matches r cu g cu' g' ->
    Matches (Grp n r) cu g cu' ((n, consumed cu cu') :: g')
| M_OptSome r cu g cu' g' :
    Matches r cu g cu' g' -> Matches (Opt r) cu g cu' g'
| M_OptNone r cu g : Matches (Opt r) cu g cu g
| M_Rep lazy lo hi cs p w s' g :
    forallb (cset_mem ucd cs) w = true ->
    lo <= List.length w ->
    (forall h, hi = Some h -> List.length w <= h) ->
    Matches (Rep lazy lo hi cs) {| prev := p; rest := w ++ s' |} g
            (after p w s') g
| M_Bnd cu g : at_boundary ucd cu = true -> Matches Bnd cu g cu g.

Definition all_digits (w : str) : Prop :=
  forallb (cset_mem ucd Digit) w = true.

End Declarative.

End Re.

Import Re.

Definition seq (rs : list regex) : regex := fold_right Cat Eps rs.

Definition digits (lo hi : nat) : regex := Rep false lo (Some hi) Digit.

(** ** The patterns of the source *)

(** [\b(20\d{2})-(\d{2})-(\d{2})\b] *)
Definition date_re : regex := Eval vm_compute in
  seq [Bnd; Grp 1 (seq [lit (u "20"); digits 2 2]); lit (u "-");
       Grp 2 (digits 2 2); lit (u "-"); Grp 3 (digits 2 2); Bnd].

(** [\b(\d{1,2}):(\d{2})\b] *)
Definition clock_re : regex := Eval vm_compute in
  seq [Bnd; Grp 1 (digits 1 2); lit (u ":"); Grp 2 (digits 2 2); Bnd].

(** [(오전|오후)\s*(\d{1,2})시(?:\s*(\d{1,2})분)?] *)
Definition ampm_re : regex := Eval vm_compute in
  seq [Grp 1 (Alt (lit (u "오전")) (lit (u "오후"))); star Space;
       Grp 2 (digits 1 2); lit (u "시");
       Opt (seq [star Space; Grp 3 (digits 1 2); lit (u "분")])].

(** [(저녁|밤)\s*(\d{1,2})시(?:\s*(\d{1,2})분)?] *)
Definition evening_re : regex := Eval vm_compute in
  seq [Grp 1 (Alt (lit (u "저녁")) (lit (u "밤"))); star Space;
       Grp 2 (digits 1 2); lit (u "시");
       Opt (seq [star Space; Grp 3 (digits 1 2); lit (u "분")])].

(** [(.+?)에서\s*(.+?)(?:으로|까지)] *)
Definition from_to_re : regex := Eval vm_compute in
  seq [Grp 1 (plus_lazy Dot); lit (u "에서"); star Space;
       Grp 2 (plus_lazy Dot); Alt (lit (u "으로")) (lit (u "까지"))].

(** [(.+?)\s*(?:->|→)\s*(.+)] *)
Definition arrow_re : regex := Eval vm_compute in
  seq [Grp 1 (plus_lazy Dot); star Space; Alt (lit (u "->")) (lit (u "→"));
       star Space; Grp 2 (plus Dot)].

(** [[A-Za-z0-9._%+-]+@[A-Za-z0-9.-]+\.[A-Za-z]{2,}] *)
Definition email_re : regex := Eval vm_compute in
  let alpha := Union (Range 65%N 90%N) (Range 97%N 122%N) in
  let alnum := Union alpha (Range 48%N 57%N) in
  seq [plus (Union alnum (Among (u "._%+-"))); lit (u "@");
       plus (Union alnum (Among (u ".-"))); lit (u ".");
       Rep false 2 None alpha].

(** [제목\s*[:=]\s*([^,\n]+)] *)
Definition title_re : regex := Eval vm_compute in
  seq [lit (u "제목"); star Space; One (Among (u ":=")); star Space;
       Grp 1 (plus (Compl (Among (ch_nl :: u ","))))].

(** [[\"“”']([^\n\r\t]{2,50})[\"“”']] *)
Definition quoted_re : regex := Eval vm_compute in
  let quote := Among (ch_dquote :: u "“”'") in
  seq [One quote;
       Grp 1 (Rep false 2 (Some 50) (Compl (Among [ch_nl; ch_cr; ch_tab])));
       One quote].

(** ** 1) intent heuristics *)

Inductive intent : Type :=
| route
| schedule_create
| schedule_update
| schedule_cancel
| paper_search_summarize_email
| news_analyze_kakao_send
| unknown.

(** The string the source returns for each tag. *)
Definition intent_tag (i : intent) : str :=
  match i with
  | route => u "route"
  | schedule_create => u "schedule_create"
  | schedule_update => u "schedule_update"
  | schedule_cancel => u "schedule_cancel"
  | paper_search_summarize_email => u "paper_search_summarize_email"
  | news_analyze_kakao_send => u "news_analyze_kakao_send"
  | unknown => u "unknown"
  end.

Definition kw_cancel : list str := Eval vm_compute in [u "취소"; u "삭제"].
Definition kw_update : list str :=
  Eval vm_compute in [u "변경"; u "수정"; u "옮겨"; u "재조정"].
Definition kw_create : list str :=
  Eval vm_compute in [u "잡아"; u "등록"; u "추가"; u "생성"].
Definition kw_schedule : list str :=
  Eval vm_compute in [u "일정"; u "스케줄"; u "미팅"; u "회의"].
Definition kw_route : list str := Eval vm_compute in
  [u "에서"; u "까지"; u "으로"; u "→"; u "->"; u "이동"; u "가는"; u "가야"].
Definition kw_paper : str := Eval vm_compute in u "논문".
Definition kw_paper_action : list str :=
  Eval vm_compute in [u "검색"; u "서치"; u "찾아"; u "요약"].
Definition kw_news : str := Eval vm_compute in u "뉴스".
Definition kw_news_action : list str :=
  Eval vm_compute in [u "분석"; u "요약"; u "정리"].
Definition kw_news_send : list str :=
  Eval vm_compute in [u "카톡"; u "카카오"; u "보내"].

Definition _classify_intent (goal : str) : intent :=
  let g := strip goal in
  if any_in kw_cancel g && any_in kw_schedule g then schedule_cancel
  else if any_in kw_update g && any_in kw_schedule g then schedule_update
  else if any_in kw_create g && any_in kw_schedule g then schedule_create
  else if any_in kw_route g then route
  else if contains kw_paper g && any_in kw_paper_action g
    then paper_search_summarize_email
  else if contains kw_news g && any_in kw_news_action g
          && any_in kw_news_send g
    then news_analyze_kakao_send
  else unknown.

(** ** The plan (models.py) *)

(** Modelled from the spec: the records [PlanStep] and [Plan] of models.py,
    which is not among the sources; the fields are those the spec lists and
    [create_plan] fills.  [args] keeps the insertion order of the dict. *)
Record PlanStep : Type := {
  step_id : str;
  tool_name : str;
  args : list (str * str);
  on_fail : option str
}.

Record Plan : Type := {
  plan_id : str;
  plan_intent : str;
  steps : list PlanStep;
  assumptions : list str;
  required_confirmations : list str;
  execution_hint : str
}.

(** ** 2) slot extractors and 3) the plan builder *)

(** A value Python takes as true in [if x] / [not x]. *)
Definition truthy (o : option str) : bool :=
  match o with
  | Some (_ :: _) => true
  | _ => false
  end.

Definition kw_today : str := Eval vm_compute in u "오늘".
Definition kw_tomorrow : str := Eval vm_compute in u "내일".
Definition kw_pm : str := Eval vm_compute in u "오후".
Definition kw_am : str := Eval vm_compute in u "오전".

Definition opt_eqb (o : option str) (s : str) : bool :=
  match o with
  | Some w => str_eqb w s
  | None => false
  end.

Section Planner.

Variable ucd : UnicodeData.

Definition _infer_date_token (goal : str) : str :=
  match search ucd date_re goal with
  | Some m => m_text m
  | None =>
      if contains kw_today goal then u "today"
      else if contains kw_tomorrow goal then u "tomorrow"
      else u "unknown"
  end.

(** [int(w)] for a string of decimal digits.  [int] reads more (signs,
    blanks, underscores); on those this model raises, so no error here
    means no error in the source. *)
Fixpoint digits_value (acc : nat) (w : str) : exc nat :=
  match w with
  | [] => Ret acc
  | c :: w' =>
      match decimal ucd c with
      | Some d => digits_value (10 * acc + d) w'
      | None => Raise ValueError
      end
  end.

Definition py_int (o : option str) : exc nat :=
  match o with
  | None => Raise TypeError
  | Some [] => Raise ValueError
  | Some w => digits_value 0 w
  end.

(** [int(x or 0)] *)
Definition py_int_or_0 (o : option str) : exc nat :=
  if truthy o then py_int o else Ret 0.

Definition in_range (hh mm : nat) : bool := (hh <=? 23) && (mm <=? 59).

(** [if 0 <= hh <= 23 and 0 <= mm <= 59: return f"{hh:02d}:{mm:02d}"],
    the check each of the three families ends with. *)
Definition validated (hh mm : nat) : option str :=
  if in_range hh mm
  then Some (format_02d hh ++ u ":" ++ format_02d mm)
  else None.

(** 1) 20:30 / 8:30 *)
Definition clock_time (g : str) : exc (option str) :=
  match search ucd clock_re g with
  | Some m =>
      hh <- py_int (group 1 m) ;;
      mm <- py_int (group 2 m) ;;
      Ret (validated hh mm)
  | None => Ret None
  end.

(** 2) the hour marked [오전] or [오후] *)
Definition ampm_time (g : str) : exc (option str) :=
  match search ucd ampm_re g with
  | Some m =>
      let ampm := group 1 m in
      hh <- py_int (group 2 m) ;;
      mm <- py_int_or_0 (group 3 m) ;;
      let hh := if opt_eqb ampm kw_pm && (hh <? 12) then hh + 12 else hh in
      let hh := if opt_eqb ampm kw_am && (hh =? 12) then 0 else hh in
      Ret (validated hh mm)
  | None => Ret None
  end.

(** 3) the hour marked [저녁] or [밤], taken as afternoon *)
Definition evening_time (g : str) : exc (option str) :=
  match search ucd evening_re g with
  | Some m =>
      hh <- py_int (group 2 m) ;;
      mm <- py_int_or_0 (group 3 m) ;;
      let hh := if hh <? 12 then hh + 12 else hh in
      Ret (validated hh mm)
  | None => Ret None
  end.

Definition _infer_hhmm (goal : str) : exc (option str) :=
  let g := strip goal in
  t1 <- clock_time g ;;
  match t1 with
  | Some t => Ret (Some t)
  | None =>
      t2 <- ampm_time g ;;
      match t2 with
      | Some t => Ret (Some t)
      | None => evening_time g
      end
  end.

(** [x.strip()] on what [m.group(n)] gave. *)
Definition strip_group (o : option str) : exc str :=
  match o with
  | Some w => Ret (strip w)
  | None => Raise AttributeError
  end.

Definition _infer_route (goal : str) : exc (option str * option str) :=
  let g := strip goal in
  let m_list := findall2 ucd from_to_re g in
  match m_list with
  | _ :: _ =>
      let '(frm, to) := last m_list ([], []) in
      Ret (Some (strip frm), Some (strip to))
  | [] =>
      match search ucd arrow_re g with
      | Some m =>
          frm <- strip_group (group 1 m) ;;
          to <- strip_group (group 2 m) ;;
          Ret (Some frm, Some to)
      | None => Ret (None, None)
      end
  end.

Definition _infer_email (goal : str) : option str :=
  match search ucd email_re goal with
  | Some m => Some (m_text m)
  | None => None
  end.

Definition _infer_title (goal : str) : exc (option str) :=
  match search ucd title_re goal with
  | Some m => t <- strip_group (group 1 m) ;; Ret (Some t)
  | None =>
      match search ucd quoted_re goal with
      | Some m => t <- strip_group (group 1 m) ;; Ret (Some t)
      | None => Ret None
      end
  end.

End Planner.

(** The notes [create_plan] records, and its fixed strings. *)
Definition note_policy : str := Eval vm_compute in
  u "create/update/delete/send 류는 사용자 확인(required_confirmations) 후 실행합니다.".
Definition note_no_tools : str := Eval vm_compute in
  u "available_tools가 제공되지 않았습니다. steps는 '가정된 도구'를 포함할 수 있으며, tb_plan_validate로 누락 도구를 확인하세요.".
Definition note_no_route : str := Eval vm_compute in
  u "출발/도착을 파싱하지 못했습니다. 예: '판교에서 강남으로' 또는 '판교 -> 강남'".
Definition note_no_title : str := Eval vm_compute in
  u "일정 제목(title)을 파싱하지 못했습니다. 예: " ++ [ch_dquote]
    ++ u "제목: 미팅" ++ [ch_dquote] ++ u " 또는 " ++ [ch_dquote]
    ++ u "'미팅' 일정 잡아줘" ++ [ch_dquote].
Definition note_no_time : str := Eval vm_compute in
  u "시간(hh:mm)을 파싱하지 못했습니다. 예: '오늘 20:00' 또는 '오후 8시'".
Definition note_update : str := Eval vm_compute in
  u "schedule_update는 event 식별자(event_ref)와 변경사항(changes)이 필요합니다.".
Definition note_cancel : str := Eval vm_compute in
  u "schedule_cancel은 취소할 일정 식별자(event_ref) 또는 제목이 필요합니다.".
Definition note_no_email : str := Eval vm_compute in
  u "받을 이메일(to_email)을 찾지 못했습니다. 예: user@example.com".
Definition note_paper_query : str := Eval vm_compute in
  u "논문 검색 키워드(query)는 goal에 명확히 포함하는 것을 권장합니다. 예: '논문 검색: retrieval augmented generation'".
Definition note_news_topic : str := Eval vm_compute in
  u "뉴스 주제(topic)와 카톡 대상(target)을 goal에 명확히 포함하는 것을 권장합니다.".
Definition note_unknown : str := Eval vm_compute in
  u "의도를 분류하지 못했습니다. goal을 더 구체적으로 작성하세요.".
Definition hint_text : str := Eval vm_compute in
  u "Execute steps sequentially using tool_name and args as-is. Summarize each step result.".
Definition confirmation_suffix : str := Eval vm_compute in
  u " requires user confirmation".

Definition write_suffixes : list str := Eval vm_compute in
  [u ".create"; u ".write"; u ".update"; u ".delete"; u ".send"].

Definition _is_write_like (tool_name : str) : bool :=
  existsb (fun suf => endswith suf tool_name) write_suffixes.

Definition t_calendar_read : str := Eval vm_compute in u "calendar.read".
Definition t_map_route : str := Eval vm_compute in u "map.route".
Definition t_calendar_create : str := Eval vm_compute in u "calendar.create".
Definition t_paper_search : str := Eval vm_compute in u "paper.search".
Definition t_paper_summarize : str := Eval vm_compute in u "paper.summarize".
Definition t_email_send : str := Eval vm_compute in u "email.send".
Definition t_news_search : str := Eval vm_compute in u "news.search".
Definition t_news_summarize : str := Eval vm_compute in u "news.summarize".
Definition t_kakao_send : str := Eval vm_compute in u "kakao.send".

Definition step_prefix : str := Eval vm_compute in u "step-".

(** [PlanStep(step_id=..., tool_name=..., args=...)] *)
Definition mk_step (id tool : str) (a : list (str * str)) : PlanStep :=
  {| step_id := id; tool_name := tool; args := a; on_fail := None |}.

(** [f"step-{n}"] *)
Definition step_n (n : nat) : str := step_prefix ++ str_of_nat n.

(** The inner function [allow] of [create_plan]: strict mode applies only
    when the list of available tools is not empty. *)
Definition allow (strict_available_tools : bool) (avail_list : list str)
    (tool_name : str) : bool :=
  match strict_available_tools, avail_list with
  | true, _ :: _ => existsb (str_eqb tool_name) avail_list
  | _, _ => true
  end.

(** The loop over [steps] that collects the confirmations. *)
Definition confirmations (ss : list PlanStep) : list str :=
  fold_left
    (fun acc s =>
       if _is_write_like (tool_name s)
       then acc ++ [tool_name s ++ confirmation_suffix]
       else acc)
    ss [].

Section PlanBuilder.

Variable ucd : UnicodeData.

(** [create_plan].  [uuid_hex] is [uuid.uuid4().hex], the one input the
    caller does not choose.  The lists [steps] and [assumptions], which
    the source appends to in place, are passed along. *)
Definition create_plan (uuid_hex : str) (goal : str)
    (available_tools : option (list str)) (strict_available_tools : bool)
    : exc Plan :=
  let plan_id := u "plan-" ++ firstn 8 uuid_hex in
  let intent_type := _classify_intent goal in
  let assumptions := [note_policy] in
  let avail_list :=
    match available_tools with
    | Some l => l
    | None => []
    end in
  let allow := allow strict_available_tools avail_list in
  let steps : list PlanStep := [] in
  let assumptions :=
    match avail_list with
    | [] => assumptions ++ [note_no_tools]
    | _ :: _ => assumptions
    end in
  '(steps, assumptions) <-
      match intent_type with
      | route =>
          '(frm, to) <- _infer_route ucd goal ;;
          let date_token := _infer_date_token ucd goal in
          hhmm <- _infer_hhmm ucd goal ;;
          match frm, to with
          | Some ((_ :: _) as frm), Some ((_ :: _) as to) =>
              let steps :=
                if allow t_calendar_read
                then steps ++ [mk_step (u "step-1") t_calendar_read
                                       [(u "date", date_token)]]
                else steps in
              let steps :=
                if allow t_map_route
                then
                  let args := [(u "from", frm); (u "to", to)] in
                  let args :=
                    match hhmm with
                    | Some ((_ :: _) as t) => args ++ [(u "depart_time", t)]
                    | _ => args
                    end in
                  steps ++ [mk_step (step_n (List.length steps + 1))
                                    t_map_route args]
                else steps in
              Ret (steps, assumptions)
          | _, _ => Ret (steps, assumptions ++ [note_no_route])
          end
      | schedule_create =>
          title <- _infer_title ucd goal ;;
          let date_token := _infer_date_token ucd goal in
          hhmm <- _infer_hhmm ucd goal ;;
          let assumptions :=
            if truthy title then assumptions
            else assumptions ++ [note_no_title] in
          let assumptions :=
            if truthy hhmm then assumptions
            else assumptions ++ [note_no_time] in
          match title, hhmm with
          | Some ((_ :: _) as title), Some ((_ :: _) as hhmm) =>
              let steps :=
                if allow t_calendar_read
                then steps ++ [mk_step (u "step-1") t_calendar_read
                                       [(u "date", date_token)]]
                else steps in
              let steps :=
                if allow t_calendar_create
                then steps ++ [mk_step (step_n (List.length steps + 1))
                                       t_calendar_create
                                       [(u "title", title);
                                        (u "date", date_token);
                                        (u "time", hhmm)]]
                else steps in
              Ret (steps, assumptions)
          | _, _ => Ret (steps, assumptions)
          end
      | schedule_update => Ret (steps, assumptions ++ [note_update])
      | schedule_cancel => Ret (steps, assumptions ++ [note_cancel])
      | paper_search_summarize_email =>
          let to_email := _infer_email ucd goal in
          let assumptions :=
            if truthy to_email then assumptions
            else assumptions ++ [note_no_email] in
          let assumptions := assumptions ++ [note_paper_query] in
          match to_email with
          | Some ((_ :: _) as to_email) =>
              if allow t_paper_search && allow t_paper_summarize && allow t_email_send
              then Ret (steps ++
                        [mk_step (u "step-1") t_paper_search
                                 [(u "query", goal)];
                         mk_step (u "step-2") t_paper_summarize
                                 [(u "query", goal)];
                         mk_step (u "step-3") t_email_send
                                 [(u "to", to_email)]],
                        assumptions)
              else Ret (steps, assumptions)
          | _ => Ret (steps, assumptions)
          end
      | news_analyze_kakao_send =>
          let assumptions := assumptions ++ [note_news_topic] in
          if allow t_news_search && allow t_news_summarize && allow t_kakao_send
          then Ret (steps ++
                    [mk_step (u "step-1") t_news_search [(u "topic", goal)];
                     mk_step (u "step-2") t_news_summarize [(u "topic", goal)];
                     mk_step (u "step-3") t_kakao_send [(u "target", u "me")]],
                    assumptions)
          else Ret (steps, assumptions)
      | unknown => Ret (steps, assumptions ++ [note_unknown])
      end ;;
  Ret {| plan_id := plan_id;
         plan_intent := goal;
         steps := steps;
         assumptions := assumptions;
         required_confirmations := confirmations steps;
         execution_hint := hint_text |}.

End PlanBuilder.

(** [available_tools or []] *)
Definition avail_of (available_tools : option (list str)) : list str :=
  match available_tools with
  | Some l => l
  | None => []
  end.

(** ** 2.5) Parse API *)

(** The dict [parse_goal] returns, a field for each key. *)
Record ParsedGoal : Type := {
  intent_type : intent;
  date_token : str;
  time_hhmm : option str;
  origin : option str;
  destination : option str;
  title : option str;
  email : option str;
  notes : list str
}.

Section ParseGoal.

Variable ucd : UnicodeData.

Definition parse_goal (goal : str) : exc ParsedGoal :=
  let intent_type := _classify_intent goal in
  let date_token := _infer_date_token ucd goal in
  time_hhmm <- _infer_hhmm ucd goal ;;
  '(origin, destination) <- _infer_route ucd goal ;;
  title <- _infer_title ucd goal ;;
  let email := _infer_email ucd goal in
  let notes : list str := [] in
  let notes :=
    match intent_type with
    | route =>
        if negb (truthy origin) || negb (truthy destination)
        then notes ++ [note_no_route] else notes
    | _ => notes
    end in
  let notes :=
    if startswith (u "schedule_") (intent_tag intent_type)
       && negb (truthy time_hhmm)
    then notes ++ [note_no_time] else notes in
  Ret {| intent_type := intent_type;
         date_token := date_token;
         time_hhmm := time_hhmm;
         origin := origin;
         destination := destination;
         title := title;
         email := email;
         notes := notes |}.

End ParseGoal.

(** ** The tool layer (main.py) *)

(** [sep.join(l)] *)
Fixpoint join (sep : str) (l : list str) : str :=
  match l with
  | [] => []
  | [x] => x
  | x :: l' => x ++ sep ++ join sep l'
  end.

(** The order of Python on strings: by code point, a proper prefix first. *)
Fixpoint str_ltb (a b : str) : bool :=
  match a, b with
  | [], [] => false
  | [], _ :: _ => true
  | _ :: _, [] => false
  | x :: a', y :: b' =>
      if (x <? y)%N then true
      else if (y <? x)%N then false
      else str_ltb a' b'
  end.

(** [sorted(set(l))]: the distinct elements of [l] in increasing order. *)
Fixpoint insert_sorted (x : str) (l : list str) : list str :=
  match l with
  | [] => [x]
  | y :: l' =>
      if str_ltb x y then x :: l
      else if str_eqb x y then l
      else y :: insert_sorted x l'
  end.

Definition sorted_set (l : list str) : list str :=
  fold_right insert_sorted [] l.

(** [t in available], [available] a set built from a list. *)
Definition in_set (t : str) (available : list str) : bool :=
  existsb (str_eqb t) available.

(** [d.get(k)] on the pairs of a dict, each key standing once. *)
Fixpoint dict_get (k : str) (d : list (str * str)) : option str :=
  match d with
  | [] => None
  | (k', v) :: d' => if str_eqb k k' then Some v else dict_get k d'
  end.

(** [str(x)] for a value that is a string or [None]. *)
Definition str_of_opt (o : option str) : str :=
  match o with
  | Some w => w
  | None => u "None"
  end.

Definition rationale_calendar : str := Eval vm_compute in
  u "캘린더 관련 작업을 처리하기 위해 사용합니다.".
Definition rationale_map : str := Eval vm_compute in
  u "이동 경로/시간을 조회하기 위해 사용합니다.".
Definition rationale_paper : str := Eval vm_compute in
  u "논문 검색/요약을 수행하기 위해 사용합니다.".
Definition rationale_news : str := Eval vm_compute in
  u "뉴스 검색/요약을 수행하기 위해 사용합니다.".
Definition rationale_email : str := Eval vm_compute in
  u "이메일 전송을 위해 사용합니다.".
Definition rationale_kakao : str := Eval vm_compute in
  u "카카오 채널/카톡 전송을 위해 사용합니다.".
Definition rationale_calendar_read : str := Eval vm_compute in
  u "목표 날짜의 일정/가용 여부를 확인하기 위해 사용합니다.".
Definition rationale_map_route : str := Eval vm_compute in
  u "출발지→도착지 이동 경로/소요시간을 조회하기 위해 사용합니다.".
Definition rationale_default : str := Eval vm_compute in
  u "이 작업을 수행하기 위해 사용합니다.".

(** The two tables, in the order the source writes them. *)
Definition _TOOL_RATIONALE_PREFIX : list (str * str) := Eval vm_compute in
  [(u "calendar.", rationale_calendar);
   (u "map.", rationale_map);
   (u "paper.", rationale_paper);
   (u "news.", rationale_news);
   (u "email.", rationale_email);
   (u "kakao.", rationale_kakao)].

Definition _TOOL_RATIONALE_EXACT : list (str * str) := Eval vm_compute in
  [(u "calendar.read", rationale_calendar_read);
   (u "map.route", rationale_map_route)].

(** The loop over the prefix table: the message of the first prefix the
    tool name starts with. *)
Fixpoint first_prefix (table : list (str * str)) (tool_name : str)
    : option str :=
  match table with
  | [] => None
  | (pfx, msg) :: table' =>
      if startswith pfx tool_name then Some msg
      else first_prefix table' tool_name
  end.

Definition _rationale (tool_name : str) : str :=
  match dict_get tool_name _TOOL_RATIONALE_EXACT with
  | Some msg => msg
  | None =>
      match first_prefix _TOOL_RATIONALE_PREFIX tool_name with
      | Some msg => msg
      | None => rationale_default
      end
  end.

Definition _is_write_tool (tool_name : str) : bool :=
  existsb (fun suf => endswith suf tool_name)
          [u ".create"; u ".write"; u ".update"; u ".delete"; u ".send"].

Record PlanValidateOutput : Type := {
  ok : bool;
  issues : list str;
  missing_tools : list str
}.

Record PlanRenderPromptOutput : Type := {
  prompt_ok : bool;
  prompt_missing_tools : list str;
  prompt : str
}.

Definition issue_no_tools : str := Eval vm_compute in
  u "available_tools가 비어 있습니다: 실행 환경에서 활성화된 도구 목록을 전달하지 못해 missing 판단을 보수적으로 처리했습니다.".
Definition issue_missing_prefix : str := Eval vm_compute in
  u "누락된 도구(또는 미확인): ".
Definition issue_no_steps : str := Eval vm_compute in
  u "plan.steps가 비어 있습니다: 실행할 단계가 없습니다 (goal 해석 실패 또는 도구 제한 때문일 수 있습니다).".

Definition nonempty {A : Type} (l : list A) : bool :=
  match l with
  | [] => false
  | _ :: _ => true
  end.

Definition tb_plan_validate (plan : Plan)
    (available_tools : option (list str)) : PlanValidateOutput :=
  let available := avail_of available_tools in
  let used := map tool_name (steps plan) in
  let missing :=
    sorted_set
      (filter (fun t => negb (nonempty available) || negb (in_set t available))
              used) in
  let issues : list str := [] in
  let issues :=
    if nonempty available then issues else issues ++ [issue_no_tools] in
  let issues :=
    if nonempty missing
    then issues ++ [issue_missing_prefix ++ join (u ", ") missing]
    else issues in
  let issues :=
    if nonempty (steps plan) then issues else issues ++ [issue_no_steps] in
  {| ok := (List.length missing =? 0) && nonempty (steps plan)
           && nonempty available;
     issues := issues;
     missing_tools := missing |}.

(** [enumerate(l, i)] *)
Fixpoint enumerate {A : Type} (i : nat) (l : list A) : list (nat * A) :=
  match l with
  | [] => []
  | x :: l' => (i, x) :: enumerate (S i) l'
  end.

(** The fixed parts of the prompt of [tb_plan_render_prompt], in order. *)
Definition prompt_head : str := Eval vm_compute in
  u "You are an execution agent that follows a provided MCP plan.

## Goal
".
Definition prompt_tools : str := Eval vm_compute in
  u "

## Available Tools (enabled)
".
Definition prompt_steps : str := Eval vm_compute in
  u "

## Plan Steps (execute sequentially)
".
Definition prompt_gates : str := Eval vm_compute in
  u "

## Safety / Confirmation Gates
- Before calling any step that can modify data (create/write/update/delete/send) OR appears in required_confirmations:
  1) STOP and ask the user for explicit confirmation.
  2) Only proceed if the user confirms.
required_confirmations:
".
Definition prompt_rules : str := Eval vm_compute in
  u "

## Execution Rules
1) Do NOT invent tools. Only call the exact tool_name listed in each step.
2) Use args exactly as provided. Do not add new required fields unless the tool returns a schema error.
3) Execute steps in order. After each tool call, summarize the result in 1-3 bullets.
4) If a tool call fails:
   - If on_fail is provided, execute on_fail as the fallback.
   - Otherwise, stop and report the error + what you need from the user.
5) If any step tool is missing from available tools:
   - Stop. Tell the user which tools to enable: ".
Definition prompt_final : str := Eval vm_compute in
  u ".
6) Final output:
   - Provide a concise summary of all step results
   - Provide next action suggestions

Execution hint (from plan):
".

Definition explain_goal : str := Eval vm_compute in u "목표: ".
Definition explain_no_steps : str := Eval vm_compute in
  u "실행할 단계가 없습니다. (goal 해석 실패 또는 도구 제한/미제공 때문일 수 있습니다.)".
Definition explain_steps : str := Eval vm_compute in u "실행 단계:".
Definition explain_confirm : str := Eval vm_compute in u "확인 필요:".
Definition explain_assumptions : str := Eval vm_compute in u "가정/전제:".

Section Rendering.

(** [str(d)] of a dict, a function of the interpreter taken as given. *)
Variable repr_dict : list (str * str) -> str.

Definition _step_to_text (tool_name : str) (args : list (str * str)) : str :=
  if str_eqb tool_name (u "calendar.read")
  then u "- calendar.read: date=" ++ str_of_opt (dict_get (u "date") args)
  else if str_eqb tool_name (u "map.route")
  then
    let frm := dict_get (u "from") args in
    let to := dict_get (u "to") args in
    let depart_time := dict_get (u "depart_time") args in
    if truthy depart_time
    then u "- map.route: " ++ str_of_opt frm ++ u " → " ++ str_of_opt to
         ++ u " (depart_time=" ++ str_of_opt depart_time ++ u ")"
    else u "- map.route: " ++ str_of_opt frm ++ u " → " ++ str_of_opt to
  else u "- " ++ tool_name ++ u ": args=" ++ repr_dict args.

Definition tb_plan_render_prompt (plan : Plan)
    (available_tools : option (list str)) : PlanRenderPromptOutput :=
  let available := avail_of available_tools in
  let used_tools := map tool_name (steps plan) in
  let used_unique := sorted_set used_tools in
  let missing :=
    if nonempty available
    then sorted_set (filter (fun t => negb (in_set t available)) used_unique)
    else used_unique in
  let ok := (List.length missing =? 0) && nonempty (steps plan)
            && nonempty available in
  let steps_text :=
    if nonempty (steps plan)
    then join (u "
")
           (map (fun '(i, s) =>
                   str_of_nat (i + 1) ++ u ". " ++ tool_name s
                   ++ u "  args=" ++ repr_dict (args s)
                   ++ (if truthy (on_fail s)
                       then u "  on_fail=" ++ str_of_opt (on_fail s)
                       else []))
                (enumerate 0 (steps plan)))
    else u "(no steps)" in
  let confirm_set := required_confirmations plan in
  let write_tools := filter _is_write_tool used_unique in
  let confirm_set :=
    if nonempty write_tools
    then confirm_set
         ++ [u "Write-like tools detected: " ++ join (u ", ") write_tools]
    else confirm_set in
  let confirm_text :=
    if nonempty confirm_set
    then join (u "
") (map (fun c => u "- " ++ c) (sorted_set confirm_set))
    else u "(none)" in
  let prompt :=
    prompt_head ++ plan_intent plan
    ++ prompt_tools
    ++ (if nonempty available then join (u ", ") (sorted_set available)
        else u "(unknown/empty)")
    ++ prompt_steps ++ steps_text
    ++ prompt_gates ++ confirm_text
    ++ prompt_rules
    ++ (if nonempty missing then join (u ", ") missing else u "(none)")
    ++ prompt_final
    ++ (if nonempty (execution_hint plan) then execution_hint plan
        else u "(none)")
    ++ u "
" in
  {| prompt_ok := ok; prompt_missing_tools := missing; prompt := prompt |}.

(** The lines of [tb_plan_explain], joined by newlines in [summary]. *)
Definition explain_lines (plan : Plan) : list str :=
  let lines := [explain_goal ++ plan_intent plan] in
  let lines :=
    if nonempty (steps plan)
    then lines ++ [explain_steps]
         ++ flat_map
              (fun '(i, s) =>
                 [str_of_nat i ++ u ") " ++ tool_name s ++ u " — "
                  ++ _rationale (tool_name s);
                  _step_to_text (tool_name s) (args s)])
              (enumerate 1 (steps plan))
    else lines ++ [explain_no_steps] in
  let lines :=
    if nonempty (required_confirmations plan)
    then lines ++ [explain_confirm]
         ++ map (fun c => u "- " ++ c) (required_confirmations plan)
    else lines in
  let lines :=
    if nonempty (assumptions plan)
    then lines ++ [explain_assumptions]
         ++ map (fun a => u "- " ++ a) (assumptions plan)
    else lines in
  lines.

(** [tb_plan_explain]: the [summary] of its output. *)
Definition tb_plan_explain (plan : Plan) : str :=
  join (u "
") (explain_lines plan).

End Rendering.

Section ToolLayer.

Variable ucd : UnicodeData.

(** [tb_plan_create]: strict exactly when a non-empty list is given. *)
Definition tb_plan_create (uuid_hex goal : str)
    (available_tools : option (list str)) : exc Plan :=
  let strict := nonempty (avail_of available_tools) in
  create_plan ucd uuid_hex goal available_tools strict.

(** [tb_parse_goal] *)
Definition tb_parse_goal (goal : str) : exc ParsedGoal := parse_goal ucd goal.

End ToolLayer.

(** ** Definitions the statements below compare the source with *)

(** The classifier as the spec words it: a fixed, ordered list of rules
    (predicate on the goal as given, tag), the first satisfied rule wins,
    [unknown] when none is. *)
Definition intent_rules : list ((str -> bool) * intent) :=
  [ (fun g => any_in kw_cancel g && any_in kw_schedule g, schedule_cancel);
    (fun g => any_in kw_update g && any_in kw_schedule g, schedule_update);
    (fun g => any_in kw_create g && any_in kw_schedule g, schedule_create);
    (fun g => any_in kw_route g, route);
    (fun g => contains kw_paper g && any_in kw_paper_action g,
     paper_search_summarize_email);
    (fun g => contains kw_news g && any_in kw_news_action g
              && any_in kw_news_send g,
     news_analyze_kakao_send) ].

Fixpoint first_rule (rs : list ((str -> bool) * intent)) (g : str) : intent :=
  match rs with
  | [] => unknown
  | (holds, tag) :: rs' => if holds g then tag else first_rule rs' g
  end.

(** The date of the amended reading: ten characters [20YY-MM-DD], each
    [Y], [M], [D] a decimal digit, standing between two word boundaries;
    [first_date] is the leftmost one in the text. *)
Section DateWindow.

Variable ucd : UnicodeData.

Definition is_digit (c : char) : bool := cset_mem ucd Digit c.

Definition date_window (p : option char) (s : str) : option str :=
  match s with
  | c1 :: c2 :: y3 :: y4 :: h1 :: m1 :: m2 :: h2 :: d1 :: d2 :: tail =>
      if xorb (isword_opt ucd p) (isword ucd c1)
         && (c1 =? 50)%N && (c2 =? 48)%N && is_digit y3 && is_digit y4
         && (h1 =? 45)%N && is_digit m1 && is_digit m2
         && (h2 =? 45)%N && is_digit d1 && is_digit d2
         && xorb (isword ucd d2) (isword_opt ucd (hd_error tail))
      then Some [c1; c2; y3; y4; h1; m1; m2; h2; d1; d2]
      else None
  | _ => None
  end.

Fixpoint first_date (p : option char) (s : str) : option str :=
  match date_window p s with
  | Some d => Some d
  | None =>
      match s with
      | [] => None
      | c :: s' => first_date (Some c) s'
      end
  end.

(** The form the claim names: four digits, a hyphen, two digits, a
    hyphen, two digits. *)
Definition yyyy_mm_dd (d : str) : bool :=
  match d with
  | [y1; y2; y3; y4; h1; m1; m2; h2; d1; d2] =>
      is_digit y1 && is_digit y2 && is_digit y3 && is_digit y4
      && (h1 =? 45)%N && is_digit m1 && is_digit m2
      && (h2 =? 45)%N && is_digit d1 && is_digit d2
  | _ => false
  end.

(** The form the pattern of the source reads: [20], two digits, a hyphen,
    two digits, a hyphen, two digits. *)
Definition date_20yy (d : str) : bool :=
  match d with
  | [c1; c2; y3; y4; h1; m1; m2; h2; d1; d2] =>
      (c1 =? 50)%N && (c2 =? 48)%N && is_digit y3 && is_digit y4
      && (h1 =? 45)%N && is_digit m1 && is_digit m2
      && (h2 =? 45)%N && is_digit d1 && is_digit d2
  | _ => false
  end.

End DateWindow.

(** A time as the spec writes it: [HH:MM], two digits each. *)
Definition two_digits (n : nat) : str :=
  [(48 + N.of_nat (n / 10))%N; (48 + N.of_nat (n mod 10))%N].

Definition hh_mm (hh mm : nat) : str := two_digits hh ++ [58%N] ++ two_digits mm.

(** The steps that need a confirmation. *)
Definition write_like_steps (ss : list PlanStep) : list PlanStep :=
  filter (fun s => _is_write_like (tool_name s)) ss.

(** The groups of the two patterns [(..|..)\s*(\d{1,2})시(?:\s*(\d{1,2})분)?]:
    the hour is there; the minute is there or took no part. *)
Definition hour_minute_groups (ucd : UnicodeData) (m : mobj) : Prop :=
  (exists w2, group 2 m = Some w2 /\ all_digits ucd w2 /\
              1 <= List.length w2) /\
  (forall w3, group 3 m = Some w3 -> all_digits ucd w3).

(** What a family of [_infer_hhmm] does with the candidate its pattern
    found: the hour and the minute are read without error; a candidate with
    hour above 23 or minute above 59 gives nothing, any other gives [HH:MM]
    with the minute as read and an hour within range. *)
Definition candidate_checked (hour minute : exc nat)
    (result : exc (option str)) : Prop :=
  exists hh mm, hour = Ret hh /\ minute = Ret mm /\
    if (hh <=? 23) && (mm <=? 59)
    then exists hh', hh' <= 23 /\ result = Ret (Some (hh_mm hh' mm))
    else result = Ret None.

(** A value of the time slot: absent, or [HH:MM] within range. *)
Definition time_slot (r : option str) : Prop :=
  match r with
  | Some t => exists hh mm, hh <= 23 /\ mm <= 59 /\ t = hh_mm hh mm
  | None => True
  end.

(** [a or b or c] over the three families. *)
Definition first_some (r1 r2 r3 : option str) : option str :=
  match r1 with
  | Some t => Some t
  | None => match r2 with
            | Some t => Some t
            | None => r3
            end
  end.

(** Step identifiers count from 1 in the order of the list. *)
Definition numbered (ss : list PlanStep) : Prop :=
  forall i s, nth_error ss i = Some s -> step_id s = step_n (S i).

(** ** The two route patterns, read as text

    What the claim about the route calls a match, said without the
    matcher: a text that begins with a reading of the pattern (the texts
    [Matches] relates the pattern to: [has_from_to_iff_Matches],
    [has_arrow_iff_Matches]), the reading the pattern prefers among
    several, and the readings found one after the other from left to
    right. *)

(** [.]: any character but a line feed. *)
Definition one_line (w : str) : bool :=
  forallb (fun c => negb (c =? ch_nl)%N) w.

Definition kw_from : str := Eval vm_compute in u "에서".
Definition kw_to : str := Eval vm_compute in u "으로".
Definition kw_until : str := Eval vm_compute in u "까지".
Definition kw_arrow_ascii : str := Eval vm_compute in u "->".
Definition kw_arrow : str := Eval vm_compute in u "→".

(** [s] begins with [A에서], white space, [B], then [으로] or [까지]:
    [a] and [b] are not empty and hold no line feed. *)
Definition from_to_reading (s a ws b sep post : str) : Prop :=
  s = a ++ kw_from ++ ws ++ b ++ sep ++ post
  /\ a <> [] /\ one_line a = true
  /\ forallb isspace ws = true
  /\ b <> [] /\ one_line b = true
  /\ (sep = kw_to \/ sep = kw_until).

(** The reading [(.+?)에서\s*(.+?)(?:으로|까지)] takes where several are
    possible: the lazy [A] as short as a reading allows, then the greedy
    white space as long, then the lazy [B] as short. *)
Definition from_to_preferred (s a ws b sep post : str) : Prop :=
  from_to_reading s a ws b sep post
  /\ (forall a' ws' b' sep' post',
        from_to_reading s a' ws' b' sep' post' ->
        List.length a <= List.length a')
  /\ (forall ws' b' sep' post',
        from_to_reading s a ws' b' sep' post' ->
        List.length ws' <= List.length ws)
  /\ (forall b' sep' post',
        from_to_reading s a ws b' sep' post' ->
        List.length b <= List.length b').

Definition has_from_to (s : str) : Prop :=
  exists a ws b sep post, from_to_reading s a ws b sep post.

(** The matches of the pattern in a text, as [findall] lists them: the
    preferred reading at the leftmost position that has one, then the
    matches of what follows it. *)
Inductive from_to_matches : str -> list (str * str) -> Prop :=
| ftm_none s :
    (forall pre post, s = pre ++ post -> ~ has_from_to post) ->
    from_to_matches s []
| ftm_next pre a ws b sep post l :
    (forall pre' post',
        pre ++ a ++ kw_from ++ ws ++ b ++ sep ++ post = pre' ++ post' ->
        List.length pre' < List.length pre -> ~ has_from_to post') ->
    from_to_preferred (a ++ kw_from ++ ws ++ b ++ sep ++ post)
                      a ws b sep post ->
    from_to_matches post l ->
    from_to_matches (pre ++ a ++ kw_from ++ ws ++ b ++ sep ++ post)
                    ((a, b) :: l).

(** [s] begins with [A], white space, an arrow, white space, [B]. *)
Definition arrow_reading (s a ws1 arr ws2 b post : str) : Prop :=
  s = a ++ ws1 ++ arr ++ ws2 ++ b ++ post
  /\ a <> [] /\ one_line a = true
  /\ forallb isspace ws1 = true
  /\ (arr = kw_arrow_ascii \/ arr = kw_arrow)
  /\ forallb isspace ws2 = true
  /\ b <> [] /\ one_line b = true.

(** The reading [(.+?)\s*(?:->|→)\s*(.+)] takes: the lazy [A] as short as
    a reading allows, then each greedy part as long, in their order. *)
Definition arrow_preferred (s a ws1 arr ws2 b post : str) : Prop :=
  arrow_reading s a ws1 arr ws2 b post
  /\ (forall a' ws1' arr' ws2' b' post',
        arrow_reading s a' ws1' arr' ws2' b' post' ->
        List.length a <= List.length a')
  /\ (forall ws1' arr' ws2' b' post',
        arrow_reading s a ws1' arr' ws2' b' post' ->
        List.length ws1' <= List.length ws1)
  /\ (forall ws2' b' post',
        arrow_reading s a ws1 arr ws2' b' post' ->
        List.length ws2' <= List.length ws2)
  /\ (forall b' post',
        arrow_reading s a ws1 arr ws2 b' post' ->
        List.length b' <= List.length b).

Definition has_arrow (s : str) : Prop :=
  exists a ws1 arr ws2 b post, arrow_reading s a ws1 arr ws2 b post.

(** The arrow route of a text: the preferred reading at the leftmost
    position that has one. *)
Definition first_arrow (g a b : str) : Prop :=
  exists pre ws1 arr ws2 post,
    g = pre ++ a ++ ws1 ++ arr ++ ws2 ++ b ++ post
    /\ (forall pre' post', g = pre' ++ post' ->
          List.length pre' < List.length pre -> ~ has_arrow post')
    /\ arrow_preferred (a ++ ws1 ++ arr ++ ws2 ++ b ++ post)
                       a ws1 arr ws2 b post.

Definition no_arrow (g : str) : Prop :=
  forall pre post, g = pre ++ post -> ~ has_arrow post.

(** The route of a trimmed goal, as the claim words it: the last of the
    matches of the from-to pattern, when there is one; else the first
    match of the arrow pattern; else neither field; the fields trimmed. *)
Definition route_of (g : str) (r : option str * option str) : Prop :=
  exists l, from_to_matches g l /\
    match l with
    | _ :: _ =>
        r = (Some (strip (fst (last l ([], [])))),
             Some (strip (snd (last l ([], [])))))
    | [] =>
        (exists a b, first_arrow g a b
                     /\ r = (Some (strip a), Some (strip b)))
        \/ (no_arrow g /\ r = (None, None))
    end.

(** The two patterns, part by part. *)
Definition from_to_tail : regex :=
  Cat (Alt (lit kw_to) (lit kw_until)) Eps.
Definition from_to_dest : regex :=
  Cat (Grp 2 (Rep true 1 None Dot)) from_to_tail.
Definition from_to_gap : regex := Cat (Rep false 0 None Space) from_to_dest.
Definition from_to_rest : regex := Cat (lit kw_from) from_to_gap.

Definition arrow_dest : regex := Cat (Grp 2 (Rep false 1 None Dot)) Eps.
Definition arrow_gap : regex := Cat (Rep false 0 None Space) arrow_dest.
Definition arrow_sign : regex :=
  Cat (Alt (lit kw_arrow_ascii) (lit kw_arrow)) arrow_gap.
Definition arrow_rest : regex := Cat (Rep false 0 None Space) arrow_sign.

(** ** Definitions the further properties are stated with *)

(** The tools [create_plan] writes steps for. *)
Definition plan_tools : list str :=
  [t_calendar_read; t_map_route; t_calendar_create; t_paper_search;
   t_paper_summarize; t_email_send; t_news_search; t_news_summarize;
   t_kakao_send].

(** What [_step_to_text] reads from the arguments of a step is there. *)
Definition args_present (s : PlanStep) : Prop :=
  (tool_name s = t_calendar_read ->
   exists d, dict_get (u "date") (args s) = Some d)
  /\ (tool_name s = t_map_route ->
      exists f t, dict_get (u "from") (args s) = Some f
                  /\ dict_get (u "to") (args s) = Some t
                  /\ f <> [] /\ t <> []).

(** The classes of the e-mail pattern: [A-Za-z], [A-Za-z0-9._%+-] and
    [A-Za-z0-9.-]. *)
Definition ascii_letter (c : char) : bool :=
  ((65 <=? c) && (c <=? 90) || (97 <=? c) && (c <=? 122))%N.

Definition email_local_char (c : char) : bool :=
  (ascii_letter c || (48 <=? c) && (c <=? 57))%N
  || existsb (N.eqb c) (u "._%+-").

Definition email_domain_char (c : char) : bool :=
  (ascii_letter c || (48 <=? c) && (c <=? 57))%N
  || existsb (N.eqb c) (u ".-").

(** Whether the tag begins with [schedule_]. *)
Definition is_schedule (i : intent) : bool :=
  match i with
  | schedule_create | schedule_update | schedule_cancel => true
  | _ => false
  end.

(** Strictly increasing in the order of [sorted]. *)
Fixpoint increasing (l : list str) : bool :=
  match l with
  | x :: ((y :: _) as l') => str_ltb x y && increasing l'
  | _ => true
  end.

(** Proof steps used more than once. *)
Ltac break_match H :=
  repeat match type of H with
         | context [match ?e with _ => _ end] =>
             lazymatch e with
             | context [match _ with _ => _ end] => fail
             | _ => let E := fresh "E" in destruct e eqn:E; try discriminate
             end
         end.

Ltac inv_matches :=
  repeat match goal with
         | H : Matches _ (Cat _ _) _ _ _ _ |- _ => inversion H; subst; clear H
         | H : Matches _ Eps _ _ _ _ |- _ => inversion H; subst; clear H
         | H : Matches _ (One _) _ _ _ _ |- _ => inversion H; subst; clear H
         | H : Matches _ (Grp _ _) _ _ _ _ |- _ => inversion H; subst; clear H
         | H : Matches _ (Alt _ _) _ _ _ _ |- _ => inversion H; subst; clear H
         | H : Matches _ (Opt _) _ _ _ _ |- _ => inversion H; subst; clear H
         | H : Matches _ (Rep _ _ _ _) _ _ _ _ |- _ =>
             inversion H; subst; clear H
         | H : Matches _ Bnd _ _ _ _ |- _ => inversion H; subst; clear H
         | H : after _ _ _ = _ |- _ => unfold after in H; injection H as ? ?
         | H : _ = after _ _ _ |- _ => unfold after in H; injection H as ? ?
         end.

Ltac in_cases H :=
  repeat (destruct H as [H | H]; [subst | ]); try solve [inversion H].

Ltac no_steps :=
  eexists; split; [reflexivity|];
  cbn [steps required_confirmations confirmations fold_left map List.length];
  split; [intros s []|]; split; [intros s []|]; split; [intros s []|];
  split; [constructor|]; split; [lia|]; split; [lia|];
  intros Hc; exfalso; apply Hc; reflexivity.

Ltac some_steps :=
  eexists; split; [reflexivity|];
  cbn [steps app];
  split; [intros s Hs; in_cases Hs; assumption|];
  split; [intros s Hs; in_cases Hs; cbn [tool_name mk_step]; unfold plan_tools;
          cbn [In]; repeat (first [left; reflexivity | right])|];
  split; [intros s Hs; in_cases Hs; split; intros Ht;
          try discriminate Ht; cbn [args mk_step];
          try (eexists; reflexivity);
          (do 2 eexists; repeat split; try reflexivity; discriminate)|];
  split; [cbn [map tool_name mk_step]; repeat constructor; cbn [In];
          intuition discriminate|];
  split; [cbn [List.length]; lia|];
  split; [vm_compute; lia|];
  first [ intros Hc; exfalso; apply Hc; reflexivity | intros _; auto ].

(** * Properties *)

Unset Implicit Arguments.

(** ** Strings *)

Lemma startswith_app_space k a ws :
  forallb (fun c => negb (isspace c)) k = true ->
  forallb isspace ws = true ->
  startswith k (a ++ ws) = startswith k a.
Proof.
  revert k. induction a as [|x a IH]; intros k Hk Hws.
  - destruct k as [|c k]; [destruct ws; reflexivity|].
    destruct ws as [|w ws]; [reflexivity|]. simpl in *.
    apply andb_prop in Hk. destruct Hk as [Hc _].
    apply andb_prop in Hws. destruct Hws as [Hw _].
    destruct (N.eqb_spec c w) as [->|]; [|reflexivity].
    rewrite Hw in Hc. discriminate.
  - destruct k as [|c k]; [reflexivity|]. simpl in *.
    apply andb_prop in Hk. destruct Hk as [_ Hk]. rewrite IH; auto.
Qed.

Lemma contains_app_space k a ws :
  k <> [] ->
  forallb (fun c => negb (isspace c)) k = true ->
  forallb isspace ws = true ->
  contains k (a ++ ws) = contains k a.
Proof.
  intros Hne Hk Hws. induction a as [|x a IH].
  - simpl. assert (Hno : contains k ws = false).
    { clear -Hne Hk Hws. induction ws as [|w ws IH].
      - destruct k; [congruence|reflexivity].
      - simpl in Hws. apply andb_prop in Hws. destruct Hws as [Hw Hws].
        simpl. rewrite (IH Hws). destruct k as [|c k]; [congruence|].
        simpl in *. apply andb_prop in Hk. destruct Hk as [Hc _].
        destruct (N.eqb_spec c w) as [->|]; [|reflexivity].
        rewrite Hw in Hc. discriminate. }
    rewrite Hno. destruct k; [congruence|reflexivity].
  - change ((x :: a) ++ ws) with (x :: (a ++ ws)).
    change (contains k (x :: a ++ ws))
      with (startswith k ((x :: a) ++ ws) || contains k (a ++ ws)).
    rewrite startswith_app_space, IH by assumption. reflexivity.
Qed.

Lemma dropwhile_split f s :
  exists ws, s = ws ++ dropwhile f s /\ forallb f ws = true.
Proof.
  induction s as [|c s (ws & Hs & Hws)]; simpl.
  - exists []. auto.
  - destruct (f c) eqn:Hc.
    + exists (c :: ws). simpl. rewrite Hc, Hws. split; [congruence|reflexivity].
    + exists []. auto.
Qed.

Lemma contains_space_head k ws a :
  k <> [] ->
  forallb (fun c => negb (isspace c)) k = true ->
  forallb isspace ws = true ->
  contains k (ws ++ a) = contains k a.
Proof.
  intros Hne Hk. induction ws as [|w ws IH]; intros Hws; [reflexivity|].
  simpl in Hws. apply andb_prop in Hws. destruct Hws as [Hw Hws].
  change (contains k ((w :: ws) ++ a))
    with (startswith k (w :: ws ++ a) || contains k (ws ++ a)).
  rewrite (IH Hws). destruct k as [|c k]; [congruence|].
  simpl in *. apply andb_prop in Hk. destruct Hk as [Hc _].
  destruct (N.eqb_spec c w) as [->|]; [|reflexivity].
  rewrite Hw in Hc. discriminate.
Qed.

(** A keyword without white space is in the stripped goal exactly when it
    is in the goal. *)
Lemma contains_strip k g :
  k <> [] ->
  forallb (fun c => negb (isspace c)) k = true ->
  contains k (strip g) = contains k g.
Proof.
  intros Hne Hk. unfold strip, rstrip, lstrip.
  destruct (dropwhile_split isspace g) as (ws1 & H1 & Hws1).
  remember (dropwhile isspace g) as l eqn:El. clear El.
  destruct (dropwhile_split isspace (rev l)) as (ws2 & H2 & Hws2).
  remember (dropwhile isspace (rev l)) as r eqn:Er. clear Er.
  assert (Hl : l = rev r ++ rev ws2).
  { rewrite <- rev_app_distr, <- H2, rev_involutive. reflexivity. }
  subst g. rewrite contains_space_head by assumption.
  rewrite Hl. rewrite contains_app_space; auto.
  rewrite forallb_forall in *. intros x Hx. apply Hws2.
  apply in_rev. assumption.
Qed.

Lemma any_in_strip ks g :
  forallb (fun k => negb (str_eqb k []) &&
                    forallb (fun c => negb (isspace c)) k) ks = true ->
  any_in ks (strip g) = any_in ks g.
Proof.
  unfold any_in. induction ks as [|k ks IH]; intros H; [reflexivity|].
  simpl in H. apply andb_prop in H. destruct H as [Hk Hks].
  apply andb_prop in Hk. destruct Hk as [Hne Hk].
  simpl. rewrite IH by assumption. rewrite contains_strip; auto.
  intros ->. discriminate.
Qed.

(** ** The intent classifier *)

(** The tests of [_classify_intent], made on the stripped goal, are the
    tests of the rule list on the goal as given: no keyword has white
    space in it. *)
Lemma classify_intent_rules goal :
  _classify_intent goal = first_rule intent_rules goal.
Proof.
  unfold _classify_intent. cbv zeta.
  rewrite !any_in_strip by reflexivity.
  rewrite !contains_strip by (reflexivity || discriminate).
  reflexivity.
Qed.

(** C3: the classifier is a total function that returns the tag of the
    first satisfied rule of a fixed list, in the order schedule_cancel,
    schedule_update, schedule_create, route, paper_search_summarize_email,
    news_analyze_kakao_send, and "unknown" when no rule is satisfied; a
    schedule tag is returned only for a goal that contains an action keyword
    and a schedule noun. *)
Theorem classify_intent_first_rule (goal : str) :
  _classify_intent goal = first_rule intent_rules goal
  /\ map snd intent_rules =
       [schedule_cancel; schedule_update; schedule_create; route;
        paper_search_summarize_email; news_analyze_kakao_send]
  /\ intent_tag (first_rule [] goal) = u "unknown"
  /\ match _classify_intent goal with
     | schedule_cancel =>
         any_in kw_cancel goal = true /\ any_in kw_schedule goal = true
     | schedule_update =>
         any_in kw_update goal = true /\ any_in kw_schedule goal = true
     | schedule_create =>
         any_in kw_create goal = true /\ any_in kw_schedule goal = true
     | _ => True
     end.
Proof.
  split; [apply classify_intent_rules|].
  split; [reflexivity|]. split; [reflexivity|].
  rewrite classify_intent_rules. unfold intent_rules, first_rule.
  destruct (any_in kw_cancel goal) eqn:Hc, (any_in kw_schedule goal) eqn:Hs,
    (any_in kw_update goal) eqn:Hu, (any_in kw_create goal) eqn:Hk;
    simpl; auto;
    repeat match goal with
           | |- context [if ?b then _ else _] => destruct b; simpl; auto
           end.
Qed.

(** ** The matcher finds exactly the matches

    [rmatch] with the rest of the pattern [k] succeeds with a result of [k]
    at some match of [r], and fails only when [k] fails at every match. *)

Section MatcherFacts.

Variable ucd : UnicodeData.

Lemma rep_match_eq A lazy cs lo hi p s (k : cursor -> option A) :
  rep_match ucd lazy cs lo hi p s k =
  let stop :=
    match lo with
    | 0 => k {| prev := p; rest := s |}
    | S _ => None
    end in
  let more :=
    match hi, s with
    | Some 0, _ => None
    | _, [] => None
    | _, c :: s' =>
        if cset_mem ucd cs c
        then rep_match ucd lazy cs (pred lo) (option_map pred hi) (Some c) s' k
        else None
    end in
  if lazy
  then match stop with Some x => Some x | None => more end
  else match more with Some x => Some x | None => stop end.
Proof. destruct s; reflexivity. Qed.

Lemma after_nil p s : after p [] s = {| prev := p; rest := s |}.
Proof. reflexivity. Qed.

Lemma after_cons p c w s : after p (c :: w) s = after (Some c) w s.
Proof. reflexivity. Qed.

Lemma rep_match_some A lazy cs s :
  forall lo hi p (k : cursor -> option A) x,
    rep_match ucd lazy cs lo hi p s k = Some x ->
    exists w s', s = w ++ s' /\ forallb (cset_mem ucd cs) w = true /\
      lo <= List.length w /\ (forall h, hi = Some h -> List.length w <= h) /\
      k (after p w s') = Some x.
Proof.
  induction s as [|c s IH]; intros lo hi p k x H; rewrite rep_match_eq in H;
    cbv zeta in H.
  - assert (Hk : lo = 0 /\ k {| prev := p; rest := [] |} = Some x).
    { break_match H; subst; split; congruence. }
    destruct Hk as [-> Hk]. exists [], []. repeat split; auto.
    intros; simpl; lia.
  - assert (Hcases :
      (lo = 0 /\ k {| prev := p; rest := c :: s |} = Some x) \/
      (hi <> Some 0 /\ cset_mem ucd cs c = true /\
       rep_match ucd lazy cs (pred lo) (option_map pred hi) (Some c) s k
         = Some x)).
    { break_match H; subst;
        solve [ left; split; congruence
              | right; repeat split; congruence ]. }
    destruct Hcases as [[-> Hk] | (Hhi & Hc & Hr)].
    + exists [], (c :: s). repeat split; auto. intros; simpl; lia.
    + apply IH in Hr. destruct Hr as (w & s' & -> & Hw & Hlo & Hh & Hk).
      exists (c :: w), s'. rewrite after_cons. simpl. rewrite Hc, Hw.
      repeat split; auto; [lia|].
      intros h ->. destruct h as [|h]; [congruence|].
      specialize (Hh h eq_refl). lia.
Qed.

Lemma rep_match_none A lazy cs s :
  forall lo hi p (k : cursor -> option A),
    rep_match ucd lazy cs lo hi p s k = None ->
    forall w s', s = w ++ s' -> forallb (cset_mem ucd cs) w = true ->
      lo <= List.length w -> (forall h, hi = Some h -> List.length w <= h) ->
      k (after p w s') = None.
Proof.
  induction s as [|c s IH]; intros lo hi p k H w s' Hs Hw Hlo Hhi;
    rewrite rep_match_eq in H; cbv zeta in H.
  - destruct w; [|discriminate]. simpl in Hs; subst s'.
    simpl in Hlo. assert (lo = 0) by lia; subst lo.
    rewrite after_nil. break_match H; congruence.
  - destruct w as [|d w].
    + simpl in Hs; subst s'. simpl in Hlo. assert (lo = 0) by lia; subst lo.
      rewrite after_nil. break_match H; congruence.
    + simpl in Hs. injection Hs as <- ->. simpl in Hw.
      apply andb_prop in Hw. destruct Hw as [Hc Hw]. rewrite after_cons.
      assert (Hr : rep_match ucd lazy cs (pred lo) (option_map pred hi)
                     (Some c) (w ++ s') k = None).
      { rewrite Hc in H. destruct hi as [[|h]|].
        - specialize (Hhi 0 eq_refl). simpl in Hhi. lia.
        - break_match H; congruence.
        - break_match H; congruence. }
      eapply IH; eauto.
      * simpl in Hlo. lia.
      * intros h Hh. destruct hi as [[|h']|]; simpl in Hh; try discriminate.
        -- specialize (Hhi 0 eq_refl). simpl in Hhi. lia.
        -- injection Hh as <-. specialize (Hhi (S h') eq_refl).
           simpl in *. lia.
Qed.

Lemma rmatch_some A r :
  forall cu g (k : cursor -> caps -> option A) x,
    rmatch ucd r cu g k = Some x ->
    exists cu' g', Matches ucd r cu g cu' g' /\ k cu' g' = Some x.
Proof.
  induction r as [|cs|r1 IH1 r2 IH2|r1 IH1 r2 IH2|n r IH|r IH|lz lo hi cs|];
    intros cu g k x H; simpl in H.
  - eauto using Matches.
  - destruct cu as [p [|c s']]; simpl in H; [discriminate|].
    destruct (cset_mem ucd cs c) eqn:Hc; [|discriminate].
    eauto using Matches.
  - apply IH1 in H. destruct H as (cu1 & g1 & M1 & H).
    apply IH2 in H. destruct H as (cu2 & g2 & M2 & H).
    eauto using Matches.
  - destruct (rmatch ucd r1 cu g k) eqn:E.
    + injection H as ->. apply IH1 in E. destruct E as (cu' & g' & M & E').
      eauto using Matches.
    + apply IH2 in H. destruct H as (cu' & g' & M & H'). eauto using Matches.
  - apply IH in H. destruct H as (cu' & g' & M & H). eauto using Matches.
  - destruct (rmatch ucd r cu g k) eqn:E.
    + injection H as ->. apply IH in E. destruct E as (cu' & g' & M & E').
      eauto using Matches.
    + eauto using Matches.
  - destruct cu as [p s]. simpl in H. apply rep_match_some in H.
    destruct H as (w & s' & -> & Hw & Hlo & Hhi & H).
    eauto using Matches.
  - destruct (at_boundary ucd cu) eqn:E; [|discriminate]. eauto using Matches.
Qed.

Lemma rmatch_none A r :
  forall cu g (k : cursor -> caps -> option A),
    rmatch ucd r cu g k = None ->
    forall cu' g', Matches ucd r cu g cu' g' -> k cu' g' = None.
Proof.
  induction r as [|cs|r1 IH1 r2 IH2|r1 IH1 r2 IH2|n r IH|r IH|lz lo hi cs|];
    intros cu g k H cu' g' M; simpl in H; inversion M; subst; clear M.
  - assumption.
  - simpl in H. match goal with Hc : cset_mem _ _ _ = true |- _ =>
      rewrite Hc in H end. assumption.
  - eapply IH2; [|eassumption].
    eapply (IH1 _ _ _ H); eassumption.
  - destruct (rmatch ucd r1 cu g k) eqn:E; [discriminate|]. eauto.
  - destruct (rmatch ucd r1 cu g k) eqn:E; [discriminate|]. eauto.
  - eapply (IH _ _ _ H); eassumption.
  - destruct (rmatch ucd r cu g k) eqn:E; [discriminate|]. eauto.
  - destruct (rmatch ucd r cu' g' k) eqn:E; [discriminate|]. assumption.
  - simpl in H. eapply rep_match_none in H; eauto.
  - match goal with Hb : at_boundary _ _ = true |- _ => rewrite Hb in H end.
    assumption.
Qed.

Lemma match_here_some r cu m :
  match_here ucd r cu = Some m ->
  exists cu' g', Matches ucd r cu [] cu' g' /\
    m = {| m_text := consumed cu cu'; m_groups := g'; m_end := cu' |}.
Proof.
  unfold match_here. intros H. apply rmatch_some in H.
  destruct H as (cu' & g' & M & H). injection H as <-. eauto.
Qed.

Lemma match_here_none r cu :
  match_here ucd r cu = None -> forall cu' g', ~ Matches ucd r cu [] cu' g'.
Proof.
  unfold match_here. intros H cu' g' M.
  eapply rmatch_none in H; [|eassumption]. discriminate.
Qed.

Lemma search_from_some r s :
  forall p m, search_from ucd r p s = Some m ->
    exists cu, match_here ucd r cu = Some m.
Proof.
  induction s as [|c s IH]; intros p m H; simpl in H.
  - destruct (match_here ucd r {| prev := p; rest := [] |}) eqn:E;
      [injection H as ->; eauto | discriminate].
  - destruct (match_here ucd r {| prev := p; rest := c :: s |}) eqn:E;
      [injection H as ->; eauto | eauto].
Qed.

Lemma search_some r s m :
  search ucd r s = Some m ->
  exists cu cu' g', Matches ucd r cu [] cu' g' /\
    m = {| m_text := consumed cu cu'; m_groups := g'; m_end := cu' |}.
Proof.
  intros H. apply search_from_some in H. destruct H as (cu & H).
  apply match_here_some in H. destruct H as (cu' & g' & M & ->). eauto.
Qed.

Lemma consumed_prefix p q w s s' :
  s = w ++ s' ->
  consumed {| prev := p; rest := s |} {| prev := q; rest := s' |} = w.
Proof.
  intros ->. unfold consumed. simpl. rewrite length_app.
  replace (List.length w + List.length s' - List.length s')
    with (List.length w) by lia.
  rewrite firstn_app, Nat.sub_diag, firstn_all. simpl. apply app_nil_r.
Qed.

Lemma consumed_after p w s' :
  consumed {| prev := p; rest := w ++ s' |} (after p w s') = w.
Proof. apply consumed_prefix. reflexivity. Qed.

(** A match reads a prefix of the text ahead. *)
Lemma Matches_reads r cu g cu' g' :
  Matches ucd r cu g cu' g' ->
  exists w, rest cu = w ++ rest cu' /\ cu' = after (prev cu) w (rest cu').
Proof.
  induction 1 as [cu g|cs p c s' g Hc|r1 r2 cu g cu1 g1 cu2 g2 _ IH1 _ IH2
                 |r1 r2 cu g cu' g' _ IH|r1 r2 cu g cu' g' _ IH
                 |n r cu g cu' g' _ IH|r cu g cu' g' _ IH|r cu g
                 |lz lo hi cs p w s' g Hw Hlo Hhi|cu g Hb].
  - exists []. destruct cu; auto.
  - exists [c]. auto.
  - destruct IH1 as (w1 & E1 & A1), IH2 as (w2 & E2 & A2).
    exists (w1 ++ w2). rewrite E1, E2, app_assoc. split; [reflexivity|].
    rewrite A2 at 1. rewrite A1. unfold after. simpl.
    rewrite fold_left_app. reflexivity.
  - assumption.
  - assumption.
  - assumption.
  - assumption.
  - exists []. destruct cu; auto.
  - exists w. auto.
  - exists []. destruct cu; auto.
Qed.

Lemma match_here_reads r cu m :
  match_here ucd r cu = Some m ->
  rest cu = m_text m ++ rest (m_end m) /\
  m_end m = after (prev cu) (m_text m) (rest (m_end m)).
Proof.
  intros H. apply match_here_some in H. destruct H as (cu' & g & M & ->).
  apply Matches_reads in M. destruct M as (w & E & A). simpl.
  assert (consumed cu cu' = w) as ->.
  { destruct cu as [p s], cu' as [q s']. simpl in E. subst s.
    apply consumed_prefix. reflexivity. }
  auto.
Qed.

(** [search] finds the match at the leftmost position that has one. *)
Lemma search_from_leftmost r s :
  forall p,
    match search_from ucd r p s with
    | Some m =>
        exists pre post, s = pre ++ post /\
          match_here ucd r (after p pre post) = Some m /\
          forall pre' post', s = pre' ++ post' ->
            List.length pre' < List.length pre ->
            match_here ucd r (after p pre' post') = None
    | None =>
        forall pre post, s = pre ++ post ->
          match_here ucd r (after p pre post) = None
    end.
Proof.
  induction s as [|c s IH]; intros p; cbn [search_from].
  - destruct (match_here ucd r {| prev := p; rest := [] |}) as [m|] eqn:E.
    + exists [], []. repeat split; auto. intros pre' post' _ Hl.
      simpl in Hl. lia.
    + intros pre post H. symmetry in H. apply app_eq_nil in H.
      destruct H as [-> ->]. exact E.
  - destruct (match_here ucd r {| prev := p; rest := c :: s |}) as [m|] eqn:E.
    + exists [], (c :: s). repeat split; auto. intros pre' post' _ Hl.
      simpl in Hl. lia.
    + specialize (IH (Some c)).
      destruct (search_from ucd r (Some c) s) as [m|].
      * destruct IH as (pre & post & -> & Hm & Hleft).
        exists (c :: pre), post. repeat split; auto.
        intros [|x pre'] post' Hs Hl.
        -- simpl in Hs. subst post'. exact E.
        -- simpl in Hs. injection Hs as -> Hs. apply Hleft; auto.
           simpl in Hl. lia.
      * intros [|x pre] post Hs.
        -- simpl in Hs. subst post. exact E.
        -- simpl in Hs. injection Hs as -> Hs. apply IH. assumption.
Qed.

(** [search] fails exactly on a text no position of which has a match. *)
Lemma search_none_iff r s :
  search ucd r s = None <->
  forall pre post cu' g, s = pre ++ post ->
    ~ Matches ucd r (after None pre post) [] cu' g.
Proof.
  unfold search. pose proof (search_from_leftmost r s None) as H. split.
  - intros E. rewrite E in H. intros pre post cu' g Hs.
    apply match_here_none. apply H. assumption.
  - intros Hno. destruct (search_from ucd r None s) as [m|]; [|reflexivity].
    destruct H as (pre & post & Hs & Hm & _).
    apply match_here_some in Hm. destruct Hm as (cu' & g & M & _).
    exfalso. exact (Hno pre post cu' g Hs M).
Qed.

Lemma scan_skip r w :
  forall p s, scan ucd r p (w ++ s) (List.length w)
              = scan ucd r (prev (after p w s)) s 0.
Proof.
  induction w as [|c w IH]; intros p s.
  - reflexivity.
  - simpl List.length. cbn [app scan]. rewrite IH. reflexivity.
Qed.

(** For a pattern that matches no empty text, [findall] is [search]
    repeated, each time from the end of the match before. *)
Lemma scan_repeats_search r :
  (forall cu m, match_here ucd r cu = Some m -> m_text m <> []) ->
  forall s p,
    scan ucd r p s 0 =
    match search_from ucd r p s with
    | Some m => m :: scan ucd r (prev (m_end m)) (rest (m_end m)) 0
    | None => []
    end.
Proof.
  intros Hne. induction s as [|c s IH]; intros p; cbn [scan search_from].
  - destruct (match_here ucd r {| prev := p; rest := [] |}) as [m|] eqn:E;
      [|reflexivity].
    destruct (match_here_reads _ _ _ E) as (Hr & _). simpl in Hr.
    symmetry in Hr. apply app_eq_nil in Hr. destruct Hr as [Hr _].
    apply Hne in E. contradiction.
  - destruct (match_here ucd r {| prev := p; rest := c :: s |}) as [m|] eqn:E.
    + f_equal. destruct (match_here_reads _ _ _ E) as (Hr & He).
      simpl in Hr, He. destruct (m_text m) as [|x w] eqn:Et.
      * apply Hne in E. contradiction.
      * simpl in Hr. injection Hr as <- ->. simpl List.length. simpl pred.
        rewrite scan_skip. rewrite He. reflexivity.
    + apply IH.
Qed.

End MatcherFacts.

(** ** What the patterns of the source capture *)

Section PatternFacts.

Variable ucd : UnicodeData.

Lemma digits_value_ok w :
  all_digits ucd w -> forall acc, exists n, digits_value ucd acc w = Ret n.
Proof.
  unfold all_digits. induction w as [|c w IH]; intros Hw acc; simpl.
  - eauto.
  - simpl in Hw. apply andb_prop in Hw. destruct Hw as [Hc Hw].
    destruct (decimal ucd c); [|discriminate]. apply IH; assumption.
Qed.

(** [int] reads a non-empty string of decimal digits. *)
Lemma py_int_ok w :
  all_digits ucd w -> 1 <= List.length w ->
  exists n, py_int ucd (Some w) = Ret n.
Proof.
  intros Hw Hl. destruct w as [|c w]; [simpl in Hl; lia|].
  apply digits_value_ok; assumption.
Qed.

Lemma py_int_or_0_ok o :
  (forall w, o = Some w -> all_digits ucd w) ->
  exists n, py_int_or_0 ucd o = Ret n.
Proof.
  intros H. unfold py_int_or_0. destruct o as [[|c w]|]; cbn [truthy]; eauto.
  apply py_int_ok; [apply H; reflexivity | simpl; lia].
Qed.

(** The groups of [\b(\d{1,2}):(\d{2})\b]. *)
Lemma clock_groups s m :
  search ucd clock_re s = Some m ->
  exists w1 w2, group 1 m = Some w1 /\ group 2 m = Some w2 /\
    all_digits ucd w1 /\ 1 <= List.length w1 /\
    all_digits ucd w2 /\ 1 <= List.length w2.
Proof.
  intros H. apply search_some in H. destruct H as (cu & cu' & g & M & ->).
  unfold clock_re in M. inv_matches. unfold group, m_groups, lookup.
  simpl Nat.eqb. cbv iota. rewrite !consumed_after.
  do 2 eexists. split; [reflexivity|]. split; [reflexivity|].
  unfold all_digits. repeat split; auto; lia.
Qed.

Lemma ampm_groups s m :
  search ucd ampm_re s = Some m -> hour_minute_groups ucd m.
Proof.
  intros H. apply search_some in H. destruct H as (cu & cu' & g & M & ->).
  unfold ampm_re in M. inv_matches;
    unfold hour_minute_groups, group, m_groups, lookup; simpl Nat.eqb;
    cbv iota; rewrite ?consumed_after;
    (split; [eexists; split; [reflexivity|]; split; [assumption|lia]
            | intros w3 Hw3; try discriminate;
              injection Hw3 as <-; assumption]).
Qed.

Lemma evening_groups s m :
  search ucd evening_re s = Some m -> hour_minute_groups ucd m.
Proof.
  intros H. apply search_some in H. destruct H as (cu & cu' & g & M & ->).
  unfold evening_re in M. inv_matches;
    unfold hour_minute_groups, group, m_groups, lookup; simpl Nat.eqb;
    cbv iota; rewrite ?consumed_after;
    (split; [eexists; split; [reflexivity|]; split; [assumption|lia]
            | intros w3 Hw3; try discriminate;
              injection Hw3 as <-; assumption]).
Qed.

(** Both groups of [(.+?)\s*(?:->|→)\s*(.+)] take part in every match. *)
Lemma arrow_groups s m :
  search ucd arrow_re s = Some m ->
  exists a b, group 1 m = Some a /\ group 2 m = Some b.
Proof.
  intros H. apply search_some in H. destruct H as (cu & cu' & g & M & ->).
  unfold arrow_re in M. inv_matches;
    unfold group, m_groups, lookup; simpl Nat.eqb; cbv iota; eauto.
Qed.

Lemma title_groups s m :
  search ucd title_re s = Some m -> exists t, group 1 m = Some t.
Proof.
  intros H. apply search_some in H. destruct H as (cu & cu' & g & M & ->).
  unfold title_re in M. inv_matches;
    unfold group, m_groups, lookup; simpl Nat.eqb; cbv iota; eauto.
Qed.

Lemma quoted_groups s m :
  search ucd quoted_re s = Some m -> exists t, group 1 m = Some t.
Proof.
  intros H. apply search_some in H. destruct H as (cu & cu' & g & M & ->).
  unfold quoted_re in M. inv_matches;
    unfold group, m_groups, lookup; simpl Nat.eqb; cbv iota; eauto.
Qed.

End PatternFacts.

(** ** The time extractor *)

Lemma format_02d_two_digits n : n <= 59 -> format_02d n = two_digits n.
Proof.
  intros H. do 60 (destruct n as [|n]; [reflexivity|]). lia.
Qed.

(** The check the three families share: out of range is rejected, in range
    is printed as [HH:MM]. *)
Lemma validated_spec hh mm :
  validated hh mm =
  if (hh <=? 23) && (mm <=? 59) then Some (hh_mm hh mm) else None.
Proof.
  unfold validated, in_range.
  destruct (hh <=? 23) eqn:Hh; [|reflexivity].
  destruct (mm <=? 59) eqn:Hm; [|reflexivity].
  apply Nat.leb_le in Hh, Hm. simpl andb. cbv iota.
  rewrite !format_02d_two_digits by lia. reflexivity.
Qed.

Lemma validated_checked hh hh' mm :
  (hh' <=? 23) = (hh <=? 23) ->
  if (hh <=? 23) && (mm <=? 59)
  then exists h, h <= 23 /\ Ret (validated hh' mm) = Ret (Some (hh_mm h mm))
  else Ret (validated hh' mm) = Ret None.
Proof.
  intros E. rewrite validated_spec, E.
  destruct (hh <=? 23) eqn:Hh; simpl; [|reflexivity].
  destruct (mm <=? 59); [|reflexivity].
  exists hh'. split; [apply Nat.leb_le; assumption | reflexivity].
Qed.

Lemma candidate_checked_slot hour minute r :
  candidate_checked hour minute (Ret r) -> time_slot r.
Proof.
  intros (hh & mm & _ & _ & H).
  destruct (hh <=? 23) eqn:Hh; simpl in H.
  - destruct (mm <=? 59) eqn:Hm.
    + destruct H as (h & Hle & H). injection H as ->.
      apply Nat.leb_le in Hm. exists h, mm. auto.
    + injection H as ->. exact I.
  - injection H as ->. exact I.
Qed.

Section TimeFacts.

Variable ucd : UnicodeData.

Lemma clock_time_candidate g :
  match search ucd clock_re g with
  | Some m =>
      candidate_checked (py_int ucd (group 1 m)) (py_int ucd (group 2 m))
                        (clock_time ucd g)
  | None => clock_time ucd g = Ret None
  end.
Proof.
  unfold clock_time. destruct (search ucd clock_re g) as [m|] eqn:E;
    [|reflexivity].
  destruct (clock_groups ucd _ _ E) as (w1 & w2 & -> & -> & D1 & L1 & D2 & L2).
  destruct (py_int_ok ucd _ D1 L1) as (hh & Eh).
  destruct (py_int_ok ucd _ D2 L2) as (mm & Em).
  exists hh, mm. rewrite Eh, Em. split; [reflexivity|]. split; [reflexivity|].
  cbn [bind]. apply validated_checked. reflexivity.
Qed.

(** The afternoon and midnight adjustments keep an hour on its side of 23. *)
Lemma adjusted_hour_range (pm am : bool) hh :
  ((if am && ((if pm && (hh <? 12) then hh + 12 else hh) =? 12)
    then 0 else (if pm && (hh <? 12) then hh + 12 else hh)) <=? 23)
  = (hh <=? 23).
Proof.
  destruct pm, am; cbn [andb];
    repeat match goal with
           | |- context [?a <? ?b] => destruct (Nat.ltb_spec a b)
           | |- context [?a =? ?b] => destruct (Nat.eqb_spec a b)
           | |- context [?a <=? ?b] => destruct (Nat.leb_spec a b)
           end; try reflexivity; lia.
Qed.

Lemma ampm_time_candidate g :
  match search ucd ampm_re g with
  | Some m =>
      candidate_checked (py_int ucd (group 2 m))
                        (py_int_or_0 ucd (group 3 m)) (ampm_time ucd g)
  | None => ampm_time ucd g = Ret None
  end.
Proof.
  unfold ampm_time. destruct (search ucd ampm_re g) as [m|] eqn:E;
    [|reflexivity].
  destruct (ampm_groups ucd _ _ E) as ((w2 & -> & D2 & L2) & H3).
  destruct (py_int_ok ucd _ D2 L2) as (hh & Eh).
  destruct (py_int_or_0_ok ucd _ H3) as (mm & Em).
  exists hh, mm. rewrite Eh, Em. split; [reflexivity|]. split; [reflexivity|].
  cbn [bind]. cbv zeta. apply validated_checked. apply adjusted_hour_range.
Qed.

Lemma evening_time_candidate g :
  match search ucd evening_re g with
  | Some m =>
      candidate_checked (py_int ucd (group 2 m))
                        (py_int_or_0 ucd (group 3 m)) (evening_time ucd g)
  | None => evening_time ucd g = Ret None
  end.
Proof.
  unfold evening_time. destruct (search ucd evening_re g) as [m|] eqn:E;
    [|reflexivity].
  destruct (evening_groups ucd _ _ E) as ((w2 & -> & D2 & L2) & H3).
  destruct (py_int_ok ucd _ D2 L2) as (hh & Eh).
  destruct (py_int_or_0_ok ucd _ H3) as (mm & Em).
  exists hh, mm. rewrite Eh, Em. split; [reflexivity|]. split; [reflexivity|].
  cbn [bind]. cbv zeta. apply validated_checked.
  exact (adjusted_hour_range true false hh).
Qed.

(** Each family raises nothing and gives a value of the time slot. *)
Lemma clock_time_ok g : exists r, clock_time ucd g = Ret r /\ time_slot r.
Proof.
  pose proof (clock_time_candidate g) as H.
  destruct (search ucd clock_re g) as [m|].
  - pose proof H as (hh & mm & _ & _ & Hr).
    destruct ((hh <=? 23) && (mm <=? 59)); [destruct Hr as (h & _ & Hr)|];
      rewrite Hr in H |- *; eexists; (split; [reflexivity|]);
      apply (candidate_checked_slot _ _ _ H).
  - rewrite H. eexists. split; [reflexivity|exact I].
Qed.

Lemma ampm_time_ok g : exists r, ampm_time ucd g = Ret r /\ time_slot r.
Proof.
  pose proof (ampm_time_candidate g) as H.
  destruct (search ucd ampm_re g) as [m|].
  - pose proof H as (hh & mm & _ & _ & Hr).
    destruct ((hh <=? 23) && (mm <=? 59)); [destruct Hr as (h & _ & Hr)|];
      rewrite Hr in H |- *; eexists; (split; [reflexivity|]);
      apply (candidate_checked_slot _ _ _ H).
  - rewrite H. eexists. split; [reflexivity|exact I].
Qed.

Lemma evening_time_ok g : exists r, evening_time ucd g = Ret r /\ time_slot r.
Proof.
  pose proof (evening_time_candidate g) as H.
  destruct (search ucd evening_re g) as [m|].
  - pose proof H as (hh & mm & _ & _ & Hr).
    destruct ((hh <=? 23) && (mm <=? 59)); [destruct Hr as (h & _ & Hr)|];
      rewrite Hr in H |- *; eexists; (split; [reflexivity|]);
      apply (candidate_checked_slot _ _ _ H).
  - rewrite H. eexists. split; [reflexivity|exact I].
Qed.

(** [_infer_hhmm] raises nothing: it gives what the first family with a
    checked candidate gives. *)
Lemma infer_hhmm_families goal :
  exists r1 r2 r3,
    clock_time ucd (strip goal) = Ret r1 /\
    ampm_time ucd (strip goal) = Ret r2 /\
    evening_time ucd (strip goal) = Ret r3 /\
    time_slot (first_some r1 r2 r3) /\
    _infer_hhmm ucd goal = Ret (first_some r1 r2 r3).
Proof.
  destruct (clock_time_ok (strip goal)) as (r1 & E1 & C1).
  destruct (ampm_time_ok (strip goal)) as (r2 & E2 & C2).
  destruct (evening_time_ok (strip goal)) as (r3 & E3 & C3).
  exists r1, r2, r3. repeat (split; [assumption|]).
  unfold _infer_hhmm, first_some. cbv zeta. rewrite E1. cbn [bind].
  destruct r1; [auto|]. rewrite E2. cbn [bind].
  destruct r2; auto.
Qed.

Lemma infer_hhmm_ok goal :
  exists r, _infer_hhmm ucd goal = Ret r /\ time_slot r.
Proof.
  destruct (infer_hhmm_families goal) as (r1 & r2 & r3 & _ & _ & _ & C & ->).
  eauto.
Qed.

End TimeFacts.

(** C5: time extraction is range-safe.  [_infer_hhmm] never raises: an
    absent time is a value.  In each of its three families the candidate
    the pattern finds is read without error and, when its hour exceeds 23
    or its minute exceeds 59, treated as absent; the result is that of the
    first family that gives a value; a value returned is [HH:MM], two digits
    each, with HH <= 23 and MM <= 59. *)
Theorem infer_hhmm_range_safe (ucd : UnicodeData) (goal : str) :
  (match search ucd clock_re (strip goal) with
   | Some m =>
       candidate_checked (py_int ucd (group 1 m)) (py_int ucd (group 2 m))
                         (clock_time ucd (strip goal))
   | None => clock_time ucd (strip goal) = Ret None
   end)
  /\ (match search ucd ampm_re (strip goal) with
      | Some m =>
          candidate_checked (py_int ucd (group 2 m))
                            (py_int_or_0 ucd (group 3 m))
                            (ampm_time ucd (strip goal))
      | None => ampm_time ucd (strip goal) = Ret None
      end)
  /\ (match search ucd evening_re (strip goal) with
      | Some m =>
          candidate_checked (py_int ucd (group 2 m))
                            (py_int_or_0 ucd (group 3 m))
                            (evening_time ucd (strip goal))
      | None => evening_time ucd (strip goal) = Ret None
      end)
  /\ exists r1 r2 r3,
       clock_time ucd (strip goal) = Ret r1
       /\ ampm_time ucd (strip goal) = Ret r2
       /\ evening_time ucd (strip goal) = Ret r3
       /\ _infer_hhmm ucd goal = Ret (first_some r1 r2 r3)
       /\ match first_some r1 r2 r3 with
          | Some t => exists hh mm, hh <= 23 /\ mm <= 59 /\ t = hh_mm hh mm
          | None => True
          end.
Proof.
  split; [apply clock_time_candidate|].
  split; [apply ampm_time_candidate|].
  split; [apply evening_time_candidate|].
  destruct (infer_hhmm_families ucd goal)
    as (r1 & r2 & r3 & E1 & E2 & E3 & C & E).
  exists r1, r2, r3. repeat (split; [assumption|]). exact C.
Qed.

(** ** The route and title extractors *)

Section RouteFacts.

Variable ucd : UnicodeData.

(** A match of [(.+?)에서\s*(.+?)(?:으로|까지)] is never empty, so the scan of
    [findall] always moves on. *)
Lemma from_to_nonempty cu m :
  match_here ucd from_to_re cu = Some m -> m_text m <> [].
Proof.
  intros H. apply match_here_some in H. destruct H as (cu' & g & M & ->).
  unfold from_to_re in M. inv_matches; simpl m_text;
    match goal with
    | |- consumed {| prev := ?p; rest := ?w ++ ?c0 :: ?c :: ?w1 ++ ?w0
                                          ++ ?c2 :: ?c1 :: ?s |}
                  {| prev := ?q; rest := ?s |} <> [] =>
        rewrite (consumed_prefix p q
                   (w ++ c0 :: c :: w1 ++ w0 ++ [c2; c1]) _ s)
          by (repeat (rewrite <- ?app_assoc; simpl); reflexivity);
        intros Hnil; apply app_eq_nil in Hnil; destruct Hnil as [_ Hnil];
        discriminate Hnil
    end.
Qed.

(** So [findall] with this pattern is [search] repeated from the end of
    each match: its last pair is the rightmost of these matches. *)
Lemma findall_from_to_repeats_search s p :
  scan ucd from_to_re p s 0 =
  match search_from ucd from_to_re p s with
  | Some m => m :: scan ucd from_to_re (prev (m_end m)) (rest (m_end m)) 0
  | None => []
  end.
Proof. apply scan_repeats_search. apply from_to_nonempty. Qed.

Lemma infer_route_cases goal :
  match findall2 ucd from_to_re (strip goal) with
  | (_ :: _) as l =>
      _infer_route ucd goal =
      Ret (Some (strip (fst (last l ([], [])))),
           Some (strip (snd (last l ([], [])))))
  | [] =>
      match search ucd arrow_re (strip goal) with
      | Some m =>
          exists a b, group 1 m = Some a /\ group 2 m = Some b /\
            _infer_route ucd goal = Ret (Some (strip a), Some (strip b))
      | None => _infer_route ucd goal = Ret (None, None)
      end
  end.
Proof.
  unfold _infer_route. cbv zeta.
  destruct (findall2 ucd from_to_re (strip goal)) as [|x l] eqn:E.
  - destruct (search ucd arrow_re (strip goal)) as [m|] eqn:Em;
      [|reflexivity].
    destruct (arrow_groups ucd _ _ Em) as (a & b & Ha & Hb).
    exists a, b. rewrite Ha, Hb. auto.
  - destruct (last (x :: l) ([], [])) as [frm to]. reflexivity.
Qed.

(** Both fields or neither. *)
Lemma infer_route_ok goal :
  (exists a b, _infer_route ucd goal = Ret (Some a, Some b))
  \/ _infer_route ucd goal = Ret (None, None).
Proof.
  pose proof (infer_route_cases goal) as H.
  destruct (findall2 ucd from_to_re (strip goal)) as [|x l]; [|eauto].
  destruct (search ucd arrow_re (strip goal)) as [m|]; [|auto].
  destruct H as (a & b & _ & _ & H). eauto.
Qed.

Lemma infer_title_ok goal : exists r, _infer_title ucd goal = Ret r.
Proof.
  unfold _infer_title.
  destruct (search ucd title_re goal) as [m|] eqn:E.
  - destruct (title_groups ucd _ _ E) as (t & ->). simpl. eauto.
  - destruct (search ucd quoted_re goal) as [m|] eqn:E'; [|eauto].
    destruct (quoted_groups ucd _ _ E') as (t & ->). simpl. eauto.
Qed.

End RouteFacts.

(** ** The route, as the claim words it

    [findall] and [search] on the two route patterns find what
    [from_to_matches] and [first_arrow] describe. *)

Section Preference.

Variable ucd : UnicodeData.

(** A lazy repetition hands over to the rest of the pattern after the
    fewest characters with which the rest succeeds. *)
Lemma rep_match_lazy A cs s :
  forall lo p (k : cursor -> option A) x,
    rep_match ucd true cs lo None p s k = Some x ->
    exists w s', s = w ++ s' /\ forallb (cset_mem ucd cs) w = true /\
      lo <= List.length w /\ k (after p w s') = Some x /\
      forall w' s'', s = w' ++ s'' -> lo <= List.length w' ->
        List.length w' < List.length w -> k (after p w' s'') = None.
Proof.
  induction s as [|c s IH]; intros lo p k x H; rewrite rep_match_eq in H;
    cbv zeta in H.
  - destruct lo; [|discriminate].
    destruct (k {| prev := p; rest := [] |}) eqn:E; [|discriminate].
    injection H as ->. exists [], []. repeat split; auto.
    intros w' s'' _ _ Hl. simpl in Hl. lia.
  - assert (Hcases :
      (lo = 0 /\ k {| prev := p; rest := c :: s |} = Some x) \/
      ((lo = 0 -> k {| prev := p; rest := c :: s |} = None) /\
       cset_mem ucd cs c = true /\
       rep_match ucd true cs (pred lo) None (Some c) s k = Some x)).
    { destruct lo as [|lo].
      - destruct (k {| prev := p; rest := c :: s |}) eqn:E.
        + left. split; congruence.
        + right. destruct (cset_mem ucd cs c); [|discriminate]. auto.
      - right. destruct (cset_mem ucd cs c); [|discriminate].
        repeat split; auto. discriminate. }
    destruct Hcases as [[-> Hk] | (Hstop & Hc & Hr)].
    + exists [], (c :: s). repeat split; auto.
      intros w' s'' _ _ Hl. simpl in Hl. lia.
    + apply IH in Hr. destruct Hr as (w & s' & -> & Hw & Hlo & Hk & Hmin).
      exists (c :: w), s'. rewrite after_cons. simpl. rewrite Hc, Hw.
      repeat split; auto; [lia|].
      intros [|d w'] s'' Hs Hlo' Hl.
      * simpl in Hs. subst s''. simpl in Hlo'.
        rewrite after_nil. apply Hstop. lia.
      * simpl in Hs. injection Hs as <- Hs. rewrite after_cons.
        apply Hmin; auto; simpl in *; lia.
Qed.

(** A greedy repetition hands over after the most characters with which
    the rest succeeds. *)
Lemma rep_match_greedy A cs s :
  forall lo p (k : cursor -> option A) x,
    rep_match ucd false cs lo None p s k = Some x ->
    exists w s', s = w ++ s' /\ forallb (cset_mem ucd cs) w = true /\
      lo <= List.length w /\ k (after p w s') = Some x /\
      forall w' s'', s = w' ++ s'' -> forallb (cset_mem ucd cs) w' = true ->
        List.length w < List.length w' -> k (after p w' s'') = None.
Proof.
  induction s as [|c s IH]; intros lo p k x H; rewrite rep_match_eq in H;
    cbv zeta in H.
  - destruct lo; [|discriminate].
    exists [], []. repeat split; auto.
    intros [|d w'] s'' Hs _ Hl; [simpl in Hl; lia|discriminate].
  - cbn [option_map] in H. destruct (cset_mem ucd cs c) eqn:Hc.
    + destruct (rep_match ucd false cs (pred lo) None (Some c) s k)
        as [y|] eqn:Hr.
      * cbv iota in H. injection H as ->. apply IH in Hr.
        destruct Hr as (w & s' & -> & Hw & Hlo & Hk & Hmax).
        exists (c :: w), s'. rewrite after_cons. simpl. rewrite Hc, Hw.
        repeat split; auto; [lia|].
        intros [|d w'] s'' Hs Hw' Hl; [simpl in Hl; lia|].
        simpl in Hs. injection Hs as <- Hs. rewrite after_cons.
        simpl in Hw'. apply andb_prop in Hw'. destruct Hw' as [_ Hw'].
        apply Hmax; auto. simpl in Hl. lia.
      * cbv iota in H. destruct lo; [|discriminate].
        exists [], (c :: s). repeat split; auto.
        intros [|d w'] s'' Hs Hw' Hl; [simpl in Hl; lia|].
        simpl in Hs. injection Hs as <- Hs. rewrite after_cons.
        simpl in Hw'. apply andb_prop in Hw'. destruct Hw' as [_ Hw'].
        eapply rep_match_none in Hr; eauto; simpl; try lia.
        intros h Hh. discriminate.
    + cbv iota in H. destruct lo; [|discriminate].
      exists [], (c :: s). repeat split; auto.
      intros [|d w'] s'' Hs Hw' Hl; [simpl in Hl; lia|].
      simpl in Hs. injection Hs as <- Hs. simpl in Hw'.
      rewrite Hc in Hw'. discriminate.
Qed.

End Preference.

Section RouteReadings.

Variable ucd : UnicodeData.

Lemma rmatch_cat A r1 r2 cu g (k : cursor -> caps -> option A) :
  rmatch ucd (Cat r1 r2) cu g k
  = rmatch ucd r1 cu g (fun cu' g' => rmatch ucd r2 cu' g' k).
Proof. reflexivity. Qed.

Lemma after_app p w1 w2 s :
  after p (w1 ++ w2) s = after (prev (after p w1 (w2 ++ s))) w2 s.
Proof. unfold after. simpl. rewrite fold_left_app. reflexivity. Qed.

(** A literal reads itself and nothing else. *)
Lemma Matches_lit w :
  forall p s g,
    Matches ucd (lit w) {| prev := p; rest := w ++ s |} g (after p w s) g.
Proof.
  induction w as [|c w IH]; intros p s g.
  - apply M_Eps.
  - change (lit (c :: w)) with (Cat (One (Lit c)) (lit w)).
    eapply M_Cat; [|rewrite after_cons; apply IH].
    apply M_One. simpl. apply N.eqb_refl.
Qed.

Lemma Matches_lit_inv w :
  forall cu g cu' g',
    Matches ucd (lit w) cu g cu' g' ->
    rest cu = w ++ rest cu' /\ cu' = after (prev cu) w (rest cu') /\ g' = g.
Proof.
  induction w as [|c w IH]; intros cu g cu' g' M.
  - inversion M; subst. destruct cu'; auto.
  - change (lit (c :: w)) with (Cat (One (Lit c)) (lit w)) in M.
    inversion M; subst; clear M.
    match goal with H : Matches _ (One _) _ _ _ _ |- _ =>
      inversion H; subst; clear H end.
    match goal with H : Matches _ (lit w) _ _ _ _ |- _ =>
      apply IH in H; destruct H as (Hr & Ha & ->) end.
    match goal with H : cset_mem _ (Lit _) _ = true |- _ =>
      simpl in H; apply N.eqb_eq in H; subst end.
    simpl in *. subst. rewrite Ha at 1. auto.
Qed.

Lemma rmatch_lit A w :
  forall p s g (k : cursor -> caps -> option A) x,
    rmatch ucd (lit w) {| prev := p; rest := s |} g k = Some x ->
    exists s', s = w ++ s' /\ k (after p w s') g = Some x.
Proof.
  intros p s g k x H. apply rmatch_some in H.
  destruct H as (cu' & g' & M & Hk). apply Matches_lit_inv in M.
  destruct M as (Hr & Ha & ->). simpl in Hr, Ha.
  exists (rest cu'). rewrite <- Ha. auto.
Qed.

Lemma rmatch_grp_lazy A n lo cs p s g (k : cursor -> caps -> option A) x :
  rmatch ucd (Grp n (Rep true lo None cs)) {| prev := p; rest := s |} g k
  = Some x ->
  exists w s', s = w ++ s' /\ forallb (cset_mem ucd cs) w = true /\
    lo <= List.length w /\ k (after p w s') ((n, w) :: g) = Some x /\
    forall w' s'', s = w' ++ s'' -> lo <= List.length w' ->
      List.length w' < List.length w ->
      k (after p w' s'') ((n, w') :: g) = None.
Proof.
  intros H. cbn [rmatch prev rest] in H. apply rep_match_lazy in H.
  destruct H as (w & s' & -> & Hw & Hlo & Hk & Hmin).
  rewrite consumed_after in Hk. exists w, s'. repeat split; auto.
  intros w' s'' Hs Hlo' Hl. specialize (Hmin w' s'' Hs Hlo' Hl).
  rewrite Hs in Hmin. rewrite consumed_after in Hmin. exact Hmin.
Qed.

Lemma rmatch_grp_greedy A n lo cs p s g (k : cursor -> caps -> option A) x :
  rmatch ucd (Grp n (Rep false lo None cs)) {| prev := p; rest := s |} g k
  = Some x ->
  exists w s', s = w ++ s' /\ forallb (cset_mem ucd cs) w = true /\
    lo <= List.length w /\ k (after p w s') ((n, w) :: g) = Some x /\
    forall w' s'', s = w' ++ s'' -> forallb (cset_mem ucd cs) w' = true ->
      List.length w < List.length w' ->
      k (after p w' s'') ((n, w') :: g) = None.
Proof.
  intros H. cbn [rmatch prev rest] in H. apply rep_match_greedy in H.
  destruct H as (w & s' & -> & Hw & Hlo & Hk & Hmax).
  rewrite consumed_after in Hk. exists w, s'. repeat split; auto.
  intros w' s'' Hs Hw' Hl. specialize (Hmax w' s'' Hs Hw' Hl).
  rewrite Hs in Hmax. rewrite consumed_after in Hmax. exact Hmax.
Qed.

Lemma rmatch_rep_greedy A lo cs p s g (k : cursor -> caps -> option A) x :
  rmatch ucd (Rep false lo None cs) {| prev := p; rest := s |} g k
  = Some x ->
  exists w s', s = w ++ s' /\ forallb (cset_mem ucd cs) w = true /\
    lo <= List.length w /\ k (after p w s') g = Some x /\
    forall w' s'', s = w' ++ s'' -> forallb (cset_mem ucd cs) w' = true ->
      List.length w < List.length w' -> k (after p w' s'') g = None.
Proof.
  intros H. cbn [rmatch prev rest] in H. apply rep_match_greedy in H.
  exact H.
Qed.

Lemma from_to_re_parts :
  from_to_re = Cat (Grp 1 (Rep true 1 None Dot)) from_to_rest.
Proof. reflexivity. Qed.

Lemma str_nonempty_length (w : str) : w <> [] -> 1 <= List.length w.
Proof. destruct w; [congruence|simpl; lia]. Qed.

Lemma str_length_nonempty (w : str) : 1 <= List.length w -> w <> [].
Proof. destruct w; [simpl; lia|discriminate]. Qed.

Lemma Matches_tail sep post q g :
  sep = kw_to \/ sep = kw_until ->
  Matches ucd from_to_tail {| prev := q; rest := sep ++ post |} g
          (after q sep post) g.
Proof.
  intros Hsep. unfold from_to_tail. eapply M_Cat; [|apply M_Eps].
  destruct Hsep as [-> | ->]; [apply M_AltL|apply M_AltR]; apply Matches_lit.
Qed.

Lemma Matches_alt_lit_inv w1 w2 cu g cu' g' :
  Matches ucd (Cat (Alt (lit w1) (lit w2)) Eps) cu g cu' g' ->
  exists sep, (sep = w1 \/ sep = w2) /\
    rest cu = sep ++ rest cu' /\ cu' = after (prev cu) sep (rest cu') /\
    g' = g.
Proof.
  intros M. inversion M as [| |r1 r2 cu0 g0 cu1 g1 cu2 g2 M1 M2| | | | | | |];
    subst; clear M.
  inversion M2; subst; clear M2.
  inversion M1 as [| | |r1 r2 cu0 g0 cu1 g1 ML|r1 r2 cu0 g0 cu1 g1 MR
                  | | | | |]; subst; clear M1.
  - apply Matches_lit_inv in ML. destruct ML as (Hr & Ha & ->).
    exists w1. auto.
  - apply Matches_lit_inv in MR. destruct MR as (Hr & Ha & ->).
    exists w2. auto.
Qed.

Lemma Matches_tail_inv cu g cu' g' :
  Matches ucd from_to_tail cu g cu' g' ->
  exists sep, (sep = kw_to \/ sep = kw_until) /\
    rest cu = sep ++ rest cu' /\ cu' = after (prev cu) sep (rest cu') /\
    g' = g.
Proof. apply Matches_alt_lit_inv. Qed.

Lemma Matches_dest b sep post q g :
  b <> [] -> one_line b = true -> sep = kw_to \/ sep = kw_until ->
  exists cu' g',
    Matches ucd from_to_dest {| prev := q; rest := b ++ sep ++ post |} g
            cu' g'.
Proof.
  intros Hb Hl Hsep. unfold from_to_dest. do 2 eexists.
  eapply M_Cat.
  - apply M_Grp. apply M_Rep; [exact Hl|apply str_nonempty_length; exact Hb|].
    intros h Hh. discriminate.
  - apply Matches_tail. exact Hsep.
Qed.

Lemma Matches_gap ws b sep post q g :
  forallb isspace ws = true ->
  b <> [] -> one_line b = true -> sep = kw_to \/ sep = kw_until ->
  exists cu' g',
    Matches ucd from_to_gap
            {| prev := q; rest := ws ++ b ++ sep ++ post |} g cu' g'.
Proof.
  intros Hws Hb Hl Hsep. unfold from_to_gap.
  destruct (Matches_dest b sep post
              (prev (after q ws (b ++ sep ++ post)))
              g Hb Hl Hsep) as (cu' & g' & M).
  exists cu', g'.
  apply M_Cat with (cu1 := after q ws (b ++ sep ++ post)) (g1 := g);
    [|exact M].
  apply M_Rep; [exact Hws|simpl; lia|intros h Hh; discriminate].
Qed.

Lemma Matches_rest ws b sep post q g :
  forallb isspace ws = true ->
  b <> [] -> one_line b = true -> sep = kw_to \/ sep = kw_until ->
  exists cu' g',
    Matches ucd from_to_rest
            {| prev := q; rest := kw_from ++ ws ++ b ++ sep ++ post |} g
            cu' g'.
Proof.
  intros Hws Hb Hl Hsep. unfold from_to_rest.
  destruct (Matches_gap ws b sep post
              (prev (after q kw_from (ws ++ b ++ sep ++ post)))
              g Hws Hb Hl Hsep) as (cu' & g' & M).
  exists cu', g'.
  apply M_Cat with (cu1 := after q kw_from (ws ++ b ++ sep ++ post))
                   (g1 := g); [apply Matches_lit|exact M].
Qed.

(** A text with a reading has a match at its start. *)
Lemma from_to_reading_Matches p s a ws b sep post :
  from_to_reading s a ws b sep post ->
  exists cu' g',
    Matches ucd from_to_re {| prev := p; rest := s |} [] cu' g'.
Proof.
  intros (-> & Ha & Hla & Hws & Hb & Hlb & Hsep).
  rewrite from_to_re_parts.
  destruct (Matches_rest ws b sep post
              (prev (after p a (kw_from ++ ws ++ b ++ sep ++ post)))
              [(1, consumed
                     {| prev := p;
                        rest := a ++ kw_from ++ ws ++ b ++ sep ++ post |}
                     (after p a (kw_from ++ ws ++ b ++ sep ++ post)))]
              Hws Hb Hlb Hsep)
    as (cu' & g' & M).
  exists cu', g'.
  apply M_Cat with (cu1 := after p a (kw_from ++ ws ++ b ++ sep ++ post))
                   (g1 := [(1, consumed
                     {| prev := p;
                        rest := a ++ kw_from ++ ws ++ b ++ sep ++ post |}
                     (after p a (kw_from ++ ws ++ b ++ sep ++ post)))]);
    [|exact M].
  apply M_Grp. apply M_Rep; [exact Hla|apply str_nonempty_length; exact Ha|].
  intros h Hh. discriminate.
Qed.

End RouteReadings.

Lemma from_to_preferred_has s a ws b sep post :
  from_to_preferred s a ws b sep post -> has_from_to s.
Proof. intros (R & _). exists a, ws, b, sep, post. exact R. Qed.

Section RouteMatch.

Variable ucd : UnicodeData.

Lemma from_to_match_none p s :
  match_here ucd from_to_re {| prev := p; rest := s |} = None ->
  ~ has_from_to s.
Proof.
  intros H (a & ws & b & sep & post & Hr).
  destruct (from_to_reading_Matches ucd p s a ws b sep post Hr)
    as (cu' & g' & M).
  exact (match_here_none ucd _ _ H cu' g' M).
Qed.

(** The match the matcher finds at a position is the preferred reading
    of the text ahead. *)
Lemma from_to_match_some p s m :
  match_here ucd from_to_re {| prev := p; rest := s |} = Some m ->
  exists a ws b sep post,
    from_to_preferred s a ws b sep post
    /\ m_groups m = [(2, b); (1, a)]
    /\ m_text m = a ++ kw_from ++ ws ++ b ++ sep
    /\ m_end m = after p (a ++ kw_from ++ ws ++ b ++ sep) post.
Proof.
  unfold match_here. rewrite from_to_re_parts, rmatch_cat. intros H.
  apply rmatch_grp_lazy in H.
  destruct H as (a & s1 & -> & Ha & Hloa & Hk & Hmina).
  unfold from_to_rest in Hk. rewrite rmatch_cat in Hk.
  apply rmatch_lit in Hk. destruct Hk as (s2 & -> & Hk).
  unfold from_to_gap in Hk. rewrite rmatch_cat in Hk.
  apply rmatch_rep_greedy in Hk.
  destruct Hk as (ws & s3 & -> & Hws & _ & Hk & Hmaxw).
  unfold from_to_dest in Hk. rewrite rmatch_cat in Hk.
  apply rmatch_grp_lazy in Hk.
  destruct Hk as (b & s4 & -> & Hb & Hlob & Hk & Hminb).
  apply rmatch_some in Hk. destruct Hk as (cu' & g' & M & Hk).
  apply Matches_tail_inv in M. destruct M as (sep & Hsep & Hr & Hcu & ->).
  unfold after in Hr. cbn [rest prev] in Hr. subst s4. injection Hk as <-.
  set (post := rest cu') in *.
  assert (Hread : from_to_reading (a ++ kw_from ++ ws ++ b ++ sep ++ post)
                                  a ws b sep post).
  { repeat split; auto using str_length_nonempty. }
  exists a, ws, b, sep, post. split; [|split; [|split]].
  - split; [exact Hread|]. split; [|split].
    + intros a' ws' b' sep' post' (E & Ha' & Hla' & Hws' & Hb' & Hlb' & Hs').
      destruct (le_lt_dec (List.length a) (List.length a')) as [|Hlt];
        [assumption|exfalso].
      specialize (Hmina a' _ E (str_nonempty_length _ Ha') Hlt).
      destruct (Matches_rest ucd ws' b' sep' post'
                  (prev (after p a' (kw_from ++ ws' ++ b' ++ sep' ++ post')))
                  [(1, a')] Hws' Hb' Hlb' Hs') as (cu1 & g1 & M).
      apply (rmatch_none ucd _ _ _ _ _ Hmina) in M. discriminate M.
    + intros ws' b' sep' post' (E & Ha' & Hla' & Hws' & Hb' & Hlb' & Hs').
      apply app_inv_head in E. apply app_inv_head in E.
      destruct (le_lt_dec (List.length ws') (List.length ws)) as [|Hlt];
        [assumption|exfalso].
      specialize (Hmaxw ws' _ E Hws' Hlt).
      destruct (Matches_dest ucd b' sep' post'
                  (prev (after
                     (prev (after
                        (prev (after p a
                           (kw_from ++ ws ++ b ++ sep ++ post)))
                        kw_from (ws ++ b ++ sep ++ post)))
                     ws' (b' ++ sep' ++ post')))
                  [(1, a)] Hb' Hlb' Hs') as (cu1 & g1 & M).
      apply (rmatch_none ucd _ _ _ _ _ Hmaxw) in M. discriminate M.
    + intros b' sep' post' (E & Ha' & Hla' & Hws' & Hb' & Hlb' & Hs').
      do 3 apply app_inv_head in E.
      destruct (le_lt_dec (List.length b) (List.length b')) as [|Hlt];
        [assumption|exfalso].
      specialize (Hminb b' _ E (str_nonempty_length _ Hb') Hlt).
      pose proof (Matches_tail ucd sep' post'
                    (prev (after
                       (prev (after
                          (prev (after
                             (prev (after p a
                                (kw_from ++ ws ++ b ++ sep ++ post)))
                             kw_from (ws ++ b ++ sep ++ post)))
                          ws (b ++ sep ++ post)))
                       b' (sep' ++ post')))
                    [(2, b'); (1, a)] Hs') as M.
      apply (rmatch_none ucd _ _ _ _ _ Hminb) in M. discriminate M.
  - reflexivity.
  - cbn [m_text]. destruct cu' as [q s']. cbn [rest] in post. subst post.
    rewrite (consumed_prefix p q (a ++ kw_from ++ ws ++ b ++ sep) _ s');
      [reflexivity|].
    rewrite <- !app_assoc. reflexivity.
  - cbn [m_end]. rewrite Hcu. cbn [prev].
    unfold after. cbn [prev rest]. rewrite !fold_left_app. reflexivity.
Qed.

(** The readings are the matches of the pattern, in the sense of
    [Matches]. *)
Lemma has_from_to_iff_Matches p s :
  has_from_to s <->
  exists cu' g', Matches ucd from_to_re {| prev := p; rest := s |} [] cu' g'.
Proof.
  split.
  - intros (a & ws & b & sep & post & Hr).
    exact (from_to_reading_Matches ucd p s a ws b sep post Hr).
  - intros (cu' & g' & M).
    destruct (match_here ucd from_to_re {| prev := p; rest := s |})
      as [m|] eqn:E.
    + apply from_to_match_some in E.
      destruct E as (a & ws & b & sep & post & Hpref & _).
      eapply from_to_preferred_has. exact Hpref.
    + exfalso. exact (match_here_none ucd _ _ E cu' g' M).
Qed.

End RouteMatch.

Section RouteScan.

Variable ucd : UnicodeData.

(** [findall] lists the matches of the pattern as [from_to_matches]
    describes them. *)
Lemma scan_from_to_matches n :
  forall s p, List.length s <= n ->
    from_to_matches s
      (map (fun m => (group_or_empty 1 m, group_or_empty 2 m))
           (scan ucd from_to_re p s 0)).
Proof.
  induction n as [|n IH]; intros s p Hn;
    rewrite findall_from_to_repeats_search;
    pose proof (search_from_leftmost ucd from_to_re s p) as Hs;
    destruct (search_from ucd from_to_re p s) as [m|].
  - destruct s; [|simpl in Hn; lia].
    destruct Hs as (pre & post & E & Hm & _).
    symmetry in E. apply app_eq_nil in E. destruct E as [-> ->].
    apply from_to_nonempty in Hm as Hne.
    apply match_here_reads in Hm. destruct Hm as [Hm _]. simpl in Hm.
    symmetry in Hm. apply app_eq_nil in Hm. destruct Hm as [Hm _].
    contradiction.
  - apply ftm_none. intros pre post E.
    eapply from_to_match_none. apply (Hs pre post E).
  - destruct Hs as (pre & post0 & -> & Hm & Hleft).
    apply from_to_match_some in Hm.
    destruct Hm as (a & ws & b & sep & post & Hpref & Hg & Ht & He).
    pose proof Hpref as ((E & Ha & _) & _). subst post0.
    cbn [map]. unfold group_or_empty at 1 2. unfold group.
    rewrite Hg. cbn [lookup Nat.eqb]. rewrite He. cbn [after prev rest].
    apply ftm_next.
    + intros pre' post' E' Hl. eapply from_to_match_none.
      apply (Hleft pre' post' E' Hl).
    + exact Hpref.
    + apply IH. rewrite !length_app in Hn.
      destruct a; [congruence|]. simpl in Hn. lia.
  - apply ftm_none. intros pre post E.
    eapply from_to_match_none. apply (Hs pre post E).
Qed.

Lemma findall2_from_to_matches s :
  from_to_matches s (findall2 ucd from_to_re s).
Proof. apply (scan_from_to_matches (List.length s)). apply Nat.le_refl. Qed.

End RouteScan.

Section ArrowMatch.

Variable ucd : UnicodeData.

Lemma arrow_re_parts :
  arrow_re = Cat (Grp 1 (Rep true 1 None Dot)) arrow_rest.
Proof. reflexivity. Qed.

Lemma rmatch_alt_lit A w1 w2 p s g (k : cursor -> caps -> option A) x :
  rmatch ucd (Alt (lit w1) (lit w2)) {| prev := p; rest := s |} g k
  = Some x ->
  exists arr s', (arr = w1 \/ arr = w2) /\ s = arr ++ s' /\
    k (after p arr s') g = Some x.
Proof.
  intros H. cbn [rmatch] in H.
  destruct (rmatch ucd (lit w1) {| prev := p; rest := s |} g k) as [y|] eqn:E.
  - injection H as ->. apply rmatch_lit in E.
    destruct E as (s' & -> & Hk). exists w1, s'. auto.
  - apply rmatch_lit in H. destruct H as (s' & -> & Hk).
    exists w2, s'. auto.
Qed.

Lemma Matches_arrow_dest b post q g :
  b <> [] -> one_line b = true ->
  exists cu' g',
    Matches ucd arrow_dest {| prev := q; rest := b ++ post |} g cu' g'.
Proof.
  intros Hb Hl. unfold arrow_dest. do 2 eexists.
  eapply M_Cat; [|apply M_Eps].
  apply M_Grp. apply M_Rep; [exact Hl|apply str_nonempty_length; exact Hb|].
  intros h Hh. discriminate.
Qed.

Lemma Matches_arrow_gap ws b post q g :
  forallb isspace ws = true -> b <> [] -> one_line b = true ->
  exists cu' g',
    Matches ucd arrow_gap {| prev := q; rest := ws ++ b ++ post |} g cu' g'.
Proof.
  intros Hws Hb Hl. unfold arrow_gap.
  destruct (Matches_arrow_dest b post (prev (after q ws (b ++ post))) g
              Hb Hl) as (cu' & g' & M).
  exists cu', g'.
  apply M_Cat with (cu1 := after q ws (b ++ post)) (g1 := g); [|exact M].
  apply M_Rep; [exact Hws|simpl; lia|intros h Hh; discriminate].
Qed.

Lemma Matches_arrow_sign arr ws b post q g :
  arr = kw_arrow_ascii \/ arr = kw_arrow ->
  forallb isspace ws = true -> b <> [] -> one_line b = true ->
  exists cu' g',
    Matches ucd arrow_sign {| prev := q; rest := arr ++ ws ++ b ++ post |}
            g cu' g'.
Proof.
  intros Harr Hws Hb Hl. unfold arrow_sign.
  destruct (Matches_arrow_gap ws b post
              (prev (after q arr (ws ++ b ++ post))) g Hws Hb Hl)
    as (cu' & g' & M).
  exists cu', g'.
  apply M_Cat with (cu1 := after q arr (ws ++ b ++ post)) (g1 := g);
    [|exact M].
  destruct Harr as [-> | ->]; [apply M_AltL|apply M_AltR];
    apply Matches_lit.
Qed.

Lemma Matches_arrow_rest ws1 arr ws2 b post q g :
  forallb isspace ws1 = true ->
  arr = kw_arrow_ascii \/ arr = kw_arrow ->
  forallb isspace ws2 = true -> b <> [] -> one_line b = true ->
  exists cu' g',
    Matches ucd arrow_rest
            {| prev := q; rest := ws1 ++ arr ++ ws2 ++ b ++ post |}
            g cu' g'.
Proof.
  intros Hws1 Harr Hws2 Hb Hl. unfold arrow_rest.
  destruct (Matches_arrow_sign arr ws2 b post
              (prev (after q ws1 (arr ++ ws2 ++ b ++ post))) g
              Harr Hws2 Hb Hl) as (cu' & g' & M).
  exists cu', g'.
  apply M_Cat with (cu1 := after q ws1 (arr ++ ws2 ++ b ++ post)) (g1 := g);
    [|exact M].
  apply M_Rep; [exact Hws1|simpl; lia|intros h Hh; discriminate].
Qed.

Lemma arrow_reading_Matches p s a ws1 arr ws2 b post :
  arrow_reading s a ws1 arr ws2 b post ->
  exists cu' g',
    Matches ucd arrow_re {| prev := p; rest := s |} [] cu' g'.
Proof.
  intros (-> & Ha & Hla & Hws1 & Harr & Hws2 & Hb & Hlb).
  rewrite arrow_re_parts.
  destruct (Matches_arrow_rest ws1 arr ws2 b post
              (prev (after p a (ws1 ++ arr ++ ws2 ++ b ++ post)))
              [(1, consumed
                     {| prev := p;
                        rest := a ++ ws1 ++ arr ++ ws2 ++ b ++ post |}
                     (after p a (ws1 ++ arr ++ ws2 ++ b ++ post)))]
              Hws1 Harr Hws2 Hb Hlb) as (cu' & g' & M).
  exists cu', g'.
  apply M_Cat with (cu1 := after p a (ws1 ++ arr ++ ws2 ++ b ++ post))
                   (g1 := [(1, consumed
                     {| prev := p;
                        rest := a ++ ws1 ++ arr ++ ws2 ++ b ++ post |}
                     (after p a (ws1 ++ arr ++ ws2 ++ b ++ post)))]);
    [|exact M].
  apply M_Grp. apply M_Rep; [exact Hla|apply str_nonempty_length; exact Ha|].
  intros h Hh. discriminate.
Qed.

Lemma arrow_match_none p s :
  match_here ucd arrow_re {| prev := p; rest := s |} = None ->
  ~ has_arrow s.
Proof.
  intros H (a & ws1 & arr & ws2 & b & post & Hr).
  destruct (arrow_reading_Matches p s a ws1 arr ws2 b post Hr)
    as (cu' & g' & M).
  exact (match_here_none ucd _ _ H cu' g' M).
Qed.

Lemma arrow_match_some p s m :
  match_here ucd arrow_re {| prev := p; rest := s |} = Some m ->
  exists a ws1 arr ws2 b post,
    arrow_preferred s a ws1 arr ws2 b post
    /\ m_groups m = [(2, b); (1, a)].
Proof.
  unfold match_here. rewrite arrow_re_parts, rmatch_cat. intros H.
  apply rmatch_grp_lazy in H.
  destruct H as (a & s1 & -> & Ha & Hloa & Hk & Hmina).
  unfold arrow_rest in Hk. rewrite rmatch_cat in Hk.
  apply rmatch_rep_greedy in Hk.
  destruct Hk as (ws1 & s2 & -> & Hws1 & _ & Hk & Hmax1).
  unfold arrow_sign in Hk. rewrite rmatch_cat in Hk.
  apply rmatch_alt_lit in Hk.
  destruct Hk as (arr & s3 & Harr & -> & Hk).
  unfold arrow_gap in Hk. rewrite rmatch_cat in Hk.
  apply rmatch_rep_greedy in Hk.
  destruct Hk as (ws2 & s4 & -> & Hws2 & _ & Hk & Hmax2).
  unfold arrow_dest in Hk. rewrite rmatch_cat in Hk.
  apply rmatch_grp_greedy in Hk.
  destruct Hk as (b & post & -> & Hb & Hlob & Hk & Hmaxb).
  cbn [rmatch] in Hk. injection Hk as <-.
  exists a, ws1, arr, ws2, b, post. split; [|reflexivity].
  split; [repeat split; auto using str_length_nonempty|].
  split; [|split; [|split]].
  - intros a' ws1' arr' ws2' b' post'
      (E & Ha' & Hla' & Hws1' & Harr' & Hws2' & Hb' & Hlb').
    destruct (le_lt_dec (List.length a) (List.length a')) as [|Hlt];
      [assumption|exfalso].
    specialize (Hmina a' _ E (str_nonempty_length _ Ha') Hlt).
    destruct (Matches_arrow_rest ws1' arr' ws2' b' post'
                (prev (after p a' (ws1' ++ arr' ++ ws2' ++ b' ++ post')))
                [(1, a')] Hws1' Harr' Hws2' Hb' Hlb') as (cu1 & g1 & M).
    apply (rmatch_none ucd _ _ _ _ _ Hmina) in M. discriminate M.
  - intros ws1' arr' ws2' b' post'
      (E & Ha' & Hla' & Hws1' & Harr' & Hws2' & Hb' & Hlb').
    apply app_inv_head in E.
    destruct (le_lt_dec (List.length ws1') (List.length ws1)) as [|Hlt];
      [assumption|exfalso].
    specialize (Hmax1 ws1' _ E Hws1' Hlt).
    destruct (Matches_arrow_sign arr' ws2' b' post'
                (prev (after
                   (prev (after p a (ws1 ++ arr ++ ws2 ++ b ++ post)))
                   ws1' (arr' ++ ws2' ++ b' ++ post')))
                [(1, a)] Harr' Hws2' Hb' Hlb') as (cu1 & g1 & M).
    apply (rmatch_none ucd _ _ _ _ _ Hmax1) in M. discriminate M.
  - intros ws2' b' post'
      (E & Ha' & Hla' & Hws1' & Harr' & Hws2' & Hb' & Hlb').
    do 3 apply app_inv_head in E.
    destruct (le_lt_dec (List.length ws2') (List.length ws2)) as [|Hlt];
      [assumption|exfalso].
    specialize (Hmax2 ws2' _ E Hws2' Hlt).
    destruct (Matches_arrow_dest b' post'
                (prev (after
                   (prev (after
                      (prev (after
                         (prev (after p a
                            (ws1 ++ arr ++ ws2 ++ b ++ post)))
                         ws1 (arr ++ ws2 ++ b ++ post)))
                      arr (ws2 ++ b ++ post)))
                   ws2' (b' ++ post')))
                [(1, a)] Hb' Hlb') as (cu1 & g1 & M).
    apply (rmatch_none ucd _ _ _ _ _ Hmax2) in M. discriminate M.
  - intros b' post'
      (E & Ha' & Hla' & Hws1' & Harr' & Hws2' & Hb' & Hlb').
    do 4 apply app_inv_head in E.
    destruct (le_lt_dec (List.length b') (List.length b)) as [|Hlt];
      [assumption|exfalso].
    specialize (Hmaxb b' _ E Hlb' Hlt). discriminate Hmaxb.
Qed.

Lemma has_arrow_iff_Matches p s :
  has_arrow s <->
  exists cu' g', Matches ucd arrow_re {| prev := p; rest := s |} [] cu' g'.
Proof.
  split.
  - intros (a & ws1 & arr & ws2 & b & post & Hr).
    exact (arrow_reading_Matches p s a ws1 arr ws2 b post Hr).
  - intros (cu' & g' & M).
    destruct (match_here ucd arrow_re {| prev := p; rest := s |})
      as [m|] eqn:E.
    + apply arrow_match_some in E.
      destruct E as (a & ws1 & arr & ws2 & b & post & (R & _) & _).
      exists a, ws1, arr, ws2, b, post. exact R.
    + exfalso. exact (match_here_none ucd _ _ E cu' g' M).
Qed.

End ArrowMatch.

Lemma app_same_length (a a' x x' : str) :
  a ++ x = a' ++ x' -> List.length a = List.length a' ->
  a = a' /\ x = x'.
Proof.
  revert a'. induction a as [|c a IH]; intros [|c' a'] E Hl;
    try discriminate Hl; [auto|].
  simpl in E. injection E as -> E. simpl in Hl.
  destruct (IH a' E) as [-> ->]; [lia|auto].
Qed.

Lemma from_to_preferred_unique s a ws b sep post a' ws' b' sep' post' :
  from_to_preferred s a ws b sep post ->
  from_to_preferred s a' ws' b' sep' post' ->
  a = a' /\ b = b' /\ post = post'.
Proof.
  intros (R & Pa & Pw & Pb) (R' & Pa' & Pw' & Pb').
  pose proof (Pa _ _ _ _ _ R') as L1. pose proof (Pa' _ _ _ _ _ R) as L2.
  pose proof R as (E & _). pose proof R' as (E' & _).
  destruct (app_same_length a a' _ _ (eq_trans (eq_sym E) E')) as [-> E1];
    [lia|].
  apply app_inv_head in E1.
  pose proof (Pw _ _ _ _ R') as L3. pose proof (Pw' _ _ _ _ R) as L4.
  destruct (app_same_length ws ws' _ _ E1) as [-> E2]; [lia|].
  pose proof (Pb _ _ _ R') as L5. pose proof (Pb' _ _ _ R) as L6.
  destruct (app_same_length b b' _ _ E2) as [-> E3]; [lia|].
  destruct R as (_ & _ & _ & _ & _ & _ & Hs).
  destruct R' as (_ & _ & _ & _ & _ & _ & Hs').
  destruct (app_same_length sep sep' _ _ E3) as [_ ->];
    [destruct Hs as [-> | ->], Hs' as [-> | ->]; reflexivity|].
  auto.
Qed.

(** A text has one list of matches. *)
Lemma from_to_matches_unique s l :
  from_to_matches s l -> forall l', from_to_matches s l' -> l = l'.
Proof.
  induction 1 as [s Hno|pre a ws b sep post l Hleft Hpref Hrest IH];
    intros l' H'.
  - inversion H' as [s0 Hno'|pre' a' ws' b' sep' post' l0 Hleft' Hpref'
                             Hrest' E]; subst; [reflexivity|].
    exfalso. apply (Hno pre' _ eq_refl).
    eapply from_to_preferred_has. exact Hpref'.
  - inversion H' as [s0 Hno'|pre' a' ws' b' sep' post' l0 Hleft' Hpref'
                             Hrest' E]; subst.
    + exfalso. apply (Hno' pre _ eq_refl).
      eapply from_to_preferred_has. exact Hpref.
    + assert (Hl : List.length pre = List.length pre').
      { destruct (lt_eq_lt_dec (List.length pre) (List.length pre'))
          as [[Hlt|Heq]|Hlt]; [exfalso|exact Heq|exfalso].
        - apply (Hleft' pre _ E Hlt).
          eapply from_to_preferred_has. exact Hpref.
        - apply (Hleft pre' _ (eq_sym E) Hlt).
          eapply from_to_preferred_has. exact Hpref'. }
      destruct (app_same_length pre' pre _ _ E (eq_sym Hl)) as [-> E1].
      change (a' ++ kw_from ++ ws' ++ b' ++ sep' ++ post'
              = a ++ kw_from ++ ws ++ b ++ sep ++ post) in E1.
      rewrite E1 in Hpref'.
      destruct (from_to_preferred_unique _ _ _ _ _ _ _ _ _ _ _ Hpref Hpref')
        as (-> & -> & ->).
      f_equal. apply IH. exact Hrest'.
Qed.

Lemma arrow_preferred_unique s a ws1 arr ws2 b post a' ws1' arr' ws2' b' post' :
  arrow_preferred s a ws1 arr ws2 b post ->
  arrow_preferred s a' ws1' arr' ws2' b' post' ->
  a = a' /\ b = b'.
Proof.
  intros (R & Pa & P1 & P2 & Pb) (R' & Pa' & P1' & P2' & Pb').
  pose proof (Pa _ _ _ _ _ _ R') as L1.
  pose proof (Pa' _ _ _ _ _ _ R) as L2.
  pose proof R as (E & _). pose proof R' as (E' & _).
  destruct (app_same_length a a' _ _ (eq_trans (eq_sym E) E')) as [-> E1];
    [lia|].
  pose proof (P1 _ _ _ _ _ R') as L3. pose proof (P1' _ _ _ _ _ R) as L4.
  destruct (app_same_length ws1 ws1' _ _ E1) as [-> E2]; [lia|].
  assert (arr = arr') as <-.
  { destruct R as (_ & _ & _ & _ & Hs & _).
    destruct R' as (_ & _ & _ & _ & Hs' & _).
    destruct Hs as [-> | ->], Hs' as [-> | ->]; try reflexivity;
      discriminate E2. }
  apply app_inv_head in E2.
  pose proof (P2 _ _ _ R') as L5. pose proof (P2' _ _ _ R) as L6.
  destruct (app_same_length ws2 ws2' _ _ E2) as [-> E3]; [lia|].
  pose proof (Pb _ _ R') as L7. pose proof (Pb' _ _ R) as L8.
  destruct (app_same_length b b' _ _ E3) as [-> _]; [lia|].
  auto.
Qed.

Lemma first_arrow_unique g a b a' b' :
  first_arrow g a b -> first_arrow g a' b' -> a = a' /\ b = b'.
Proof.
  intros (pre & ws1 & arr & ws2 & post & E & Hleft & Hpref)
         (pre' & ws1' & arr' & ws2' & post' & E' & Hleft' & Hpref').
  assert (Hl : List.length pre = List.length pre').
  { destruct (lt_eq_lt_dec (List.length pre) (List.length pre'))
      as [[Hlt|Heq]|Hlt]; [exfalso|exact Heq|exfalso].
    - apply (Hleft' pre _ E Hlt).
      destruct Hpref as (R & _). do 6 eexists. exact R.
    - apply (Hleft pre' _ E' Hlt).
      destruct Hpref' as (R & _). do 6 eexists. exact R. }
  destruct (app_same_length pre pre' _ _ (eq_trans (eq_sym E) E') Hl)
    as [-> E1].
  rewrite <- E1 in Hpref'.
  exact (arrow_preferred_unique _ _ _ _ _ _ _ _ _ _ _ _ _ Hpref Hpref').
Qed.

(** The claim's words name one route. *)
Lemma route_of_unique g r r' : route_of g r -> route_of g r' -> r' = r.
Proof.
  intros (l & Hl & Hr) (l' & Hl' & Hr').
  rewrite <- (from_to_matches_unique g l Hl l' Hl') in Hr'.
  destruct l as [|x l].
  - destruct Hr as [(a & b & Ha & ->) | (Hn & ->)],
             Hr' as [(a' & b' & Ha' & ->) | (Hn' & ->)].
    + destruct (first_arrow_unique _ _ _ _ _ Ha Ha') as [-> ->].
      reflexivity.
    + exfalso. destruct Ha as (pre & ws1 & arr & ws2 & post & E & _ & R & _).
      apply (Hn' pre _ E). do 6 eexists. exact R.
    + exfalso.
      destruct Ha' as (pre & ws1 & arr & ws2 & post & E & _ & R & _).
      apply (Hn pre _ E). do 6 eexists. exact R.
    + reflexivity.
  - congruence.
Qed.

Section RouteSpec.

Variable ucd : UnicodeData.

Lemma infer_route_route_of goal :
  exists r, _infer_route ucd goal = Ret r /\ route_of (strip goal) r.
Proof.
  pose proof (infer_route_cases ucd goal) as Hc.
  pose proof (findall2_from_to_matches ucd (strip goal)) as Hm.
  destruct (findall2 ucd from_to_re (strip goal)) as [|x l] eqn:El.
  - pose proof (search_from_leftmost ucd arrow_re (strip goal) None) as Hs.
    unfold search in Hc.
    destruct (search_from ucd arrow_re None (strip goal)) as [m|].
    + destruct Hc as (a0 & b0 & G1 & G2 & ->).
      destruct Hs as (pre & post0 & E & Hh & Hleft).
      apply arrow_match_some in Hh.
      destruct Hh as (a & ws1 & arr & ws2 & b & post & Hpref & Hg).
      unfold group in G1, G2. rewrite Hg in G1, G2.
      cbn [lookup Nat.eqb] in G1, G2.
      injection G1 as <-. injection G2 as <-.
      eexists. split; [reflexivity|]. exists []. split; [exact Hm|].
      left. exists a, b. split; [|reflexivity].
      pose proof Hpref as ((E0 & _) & _).
      exists pre, ws1, arr, ws2, post. rewrite <- E0.
      split; [exact E|]. split; [|exact Hpref].
      intros pre' post' E' Hl. eapply arrow_match_none.
      apply (Hleft pre' post' E' Hl).
    + eexists. split; [exact Hc|]. exists []. split; [exact Hm|].
      right. split; [|reflexivity]. intros pre post E.
      eapply arrow_match_none. apply (Hs pre post E).
  - eexists. split; [exact Hc|]. exists (x :: l). split; [exact Hm|].
    reflexivity.
Qed.

End RouteSpec.

(** C6, amended: the route extractor raises nothing, and what it returns
    is the route of the trimmed goal as [route_of] says it: when the
    pattern A에서 B(으로|까지) has matches, the two parts of the last of
    them, each trimmed; else, when the arrow pattern has a match, the two
    parts of the first, each trimmed; else neither field.  [route_of]
    names no other result.  Both fields are returned or neither; a field
    that is returned may be the empty string. *)
Theorem infer_route_last_match (ucd : UnicodeData) (goal : str) :
  exists r,
    _infer_route ucd goal = Ret r
    /\ route_of (strip goal) r
    /\ (forall r', route_of (strip goal) r' -> r' = r)
    /\ (r = (None, None) \/ exists a b, r = (Some a, Some b)).
Proof.
  destruct (infer_route_route_of ucd goal) as (r & Hr & Hspec).
  exists r. split; [exact Hr|]. split; [exact Hspec|].
  split; [intros r' Hr'; exact (route_of_unique _ _ _ Hspec Hr')|].
  destruct (infer_route_ok ucd goal) as [(a & b & E) | E];
    rewrite E in Hr; injection Hr as <-; eauto.
Qed.

(** C6 as stated fails: a route can be half returned.  A destination, or
    an origin, that is only white space is matched and trimmed to the
    empty string, which the test of the callers ([not frm or not to],
    here [truthy]) takes for a missing field. *)
Lemma infer_route_half_returned :
  (_infer_route ascii_hangul (u "a에서 으로") = Ret (Some (u "a"), Some [])
   /\ truthy (Some (u "a")) = true /\ truthy (Some []) = false)
  /\ (_infer_route ascii_hangul (u "x에서 y으로 에서 z까지")
      = Ret (Some [], Some (u "z"))
      /\ truthy (Some []) = false /\ truthy (Some (u "z")) = true).
Proof. vm_compute. repeat split. Qed.

(** ** The date extractor *)

Section DateFacts.

Variable ucd : UnicodeData.

Lemma rep_match_done A lazy cs p s (k : cursor -> option A) :
  rep_match ucd lazy cs 0 (Some 0) p s k = k {| prev := p; rest := s |}.
Proof.
  rewrite rep_match_eq. cbv zeta.
  destruct lazy, s, (k {| prev := p; rest := _ |}); reflexivity.
Qed.

(** At one position, the pattern [\b(20\d{2})-(\d{2})-(\d{2})\b] matches
    exactly a date window, and the match is its ten characters. *)
Lemma date_match_here p s :
  option_map m_text (match_here ucd date_re {| prev := p; rest := s |})
  = date_window ucd p s.
Proof.
  unfold match_here, date_re, date_window, is_digit.
  do 10 (destruct s as [|? s]; [cbn; repeat (match goal with
         | |- context [if ?b then _ else _] => destruct b; cbn
         | |- context [match decimal ucd ?c with _ => _ end] =>
             destruct (decimal ucd c); cbn
         end); reflexivity|]).
  cbn -[consumed isword N.eqb xorb at_boundary].
  unfold at_boundary. cbn [prev rest hd_error isword_opt].
  destruct (xorb (isword_opt ucd p) (isword ucd c));
    cbn -[consumed isword N.eqb xorb]; [|reflexivity].
  destruct (c =? 50)%N; cbn -[consumed isword N.eqb xorb]; [|reflexivity].
  destruct (c0 =? 48)%N; cbn -[consumed isword N.eqb xorb]; [|reflexivity].
  destruct (decimal ucd c1); cbn -[consumed isword N.eqb xorb];
    [|reflexivity].
  destruct (decimal ucd c2); cbn -[consumed isword N.eqb xorb];
    [|reflexivity].
  destruct (c3 =? 45)%N; cbn -[consumed isword N.eqb xorb]; [|reflexivity].
  destruct (decimal ucd c4); cbn -[consumed isword N.eqb xorb];
    [|reflexivity].
  destruct (decimal ucd c5); cbn -[consumed isword N.eqb xorb];
    [|reflexivity].
  destruct (c6 =? 45)%N; cbn -[consumed isword N.eqb xorb]; [|reflexivity].
  destruct (decimal ucd c7); cbn -[consumed isword N.eqb xorb];
    [|reflexivity].
  destruct (decimal ucd c8); cbn -[consumed isword N.eqb xorb];
    [|reflexivity].
  rewrite rep_match_done. cbn [prev rest isword_opt].
  destruct (xorb (isword ucd c8) (isword_opt ucd (hd_error s)));
    cbn -[consumed isword N.eqb xorb]; [|reflexivity].
  f_equal. apply consumed_prefix. reflexivity.
Qed.

Lemma search_first_date s :
  forall p, option_map m_text (search_from ucd date_re p s)
            = first_date ucd p s.
Proof.
  induction s as [|c s IH]; intros p; cbn [search_from first_date];
    rewrite <- date_match_here;
    destruct (match_here ucd date_re _) as [m|]; simpl; auto.
Qed.

(** What a date window is. *)
Lemma date_window_some p s d :
  date_window ucd p s = Some d ->
  exists tail, s = d ++ tail /\ date_20yy ucd d = true /\
    at_boundary ucd {| prev := p; rest := s |} = true /\
    at_boundary ucd (after p d tail) = true.
Proof.
  unfold date_window. intros H.
  do 10 (destruct s as [|? s]; [discriminate|]).
  match type of H with (if ?b then _ else _) = _ =>
    destruct b eqn:E; [|discriminate] end.
  injection H as <-. exists s.
  repeat (apply andb_prop in E; destruct E as [E ?]).
  unfold date_20yy, at_boundary, after. cbn [prev rest hd_error fold_left
    isword_opt app].
  repeat match goal with
         | H : (_ =? _)%N = true |- _ => apply N.eqb_eq in H; subst
         end.
  repeat match goal with H : _ = true |- _ => rewrite H; clear H end.
  repeat split; reflexivity.
Qed.

(** [first_date] is the leftmost window of the text, if there is one. *)
Lemma first_date_spec s :
  forall p,
    match first_date ucd p s with
    | Some d =>
        exists pre post, s = pre ++ post /\
          date_window ucd (prev (after p pre post)) post = Some d /\
          forall pre' post', s = pre' ++ post' ->
            List.length pre' < List.length pre ->
            date_window ucd (prev (after p pre' post')) post' = None
    | None =>
        forall pre post, s = pre ++ post ->
          date_window ucd (prev (after p pre post)) post = None
    end.
Proof.
  induction s as [|c s IH]; intros p.
  - simpl. intros pre post H. symmetry in H. apply app_eq_nil in H.
    destruct H as [-> ->]. reflexivity.
  - cbn [first_date]. destruct (date_window ucd p (c :: s)) as [d|] eqn:E.
    + exists [], (c :: s). repeat split; auto.
      intros pre' post' _ Hl. simpl in Hl. lia.
    + specialize (IH (Some c)). destruct (first_date ucd (Some c) s) as [d|].
      * destruct IH as (pre & post & -> & Hw & Hleft).
        exists (c :: pre), post. repeat split; auto.
        intros [|x pre'] post' Hs Hl.
        -- simpl in Hs. subst post'. exact E.
        -- simpl in Hs. injection Hs as -> Hs. apply Hleft; auto.
           simpl in Hl. lia.
      * intros [|x pre] post Hs.
        -- simpl in Hs. subst post. exact E.
        -- simpl in Hs. injection Hs as -> Hs. apply IH. assumption.
Qed.

End DateFacts.

(** C4, amended: the date extractor returns, verbatim, the leftmost
    substring 20YY-MM-DD (Y, M, D decimal digits) that stands between two
    word boundaries, before it looks at any keyword; for a goal with no such
    substring it returns "today" if the goal contains "오늘", else "tomorrow"
    if it contains "내일", else "unknown". *)
Theorem infer_date_token_leftmost_window (ucd : UnicodeData) (goal : str) :
  match first_date ucd None goal with
  | Some d =>
      _infer_date_token ucd goal = d
      /\ date_20yy ucd d = true
      /\ exists pre post,
           goal = pre ++ d ++ post
           /\ at_boundary ucd (after None pre (d ++ post)) = true
           /\ at_boundary ucd (after None (pre ++ d) post) = true
           /\ forall pre' post', goal = pre' ++ post' ->
                List.length pre' < List.length pre ->
                date_window ucd (prev (after None pre' post')) post' = None
  | None =>
      (forall pre post, goal = pre ++ post ->
         date_window ucd (prev (after None pre post)) post = None)
      /\ _infer_date_token ucd goal =
           if contains kw_today goal then u "today"
           else if contains kw_tomorrow goal then u "tomorrow"
           else u "unknown"
  end.
Proof.
  pose proof (search_first_date ucd goal None) as Hs.
  pose proof (first_date_spec ucd goal None) as Hf.
  unfold _infer_date_token, search.
  destruct (first_date ucd None goal) as [d|].
  - destruct (search_from ucd date_re None goal) as [m|]; [|discriminate].
    simpl in Hs. injection Hs as ->. split; [reflexivity|].
    destruct Hf as (pre & post & -> & Hw & Hleft).
    apply date_window_some in Hw.
    destruct Hw as (tail & -> & Hy & Hb1 & Hb2).
    split; [assumption|].
    exists pre, tail. split; [reflexivity|]. split; [exact Hb1|].
    split; [|exact Hleft].
    unfold after in *. rewrite fold_left_app. exact Hb2.
  - destruct (search_from ucd date_re None goal) as [m|]; [discriminate|].
    split; [exact Hf | reflexivity].
Qed.

(** C4 as stated fails: a goal may contain a substring of the form
    YYYY-MM-DD that is not returned.  The year must begin with 20; the date
    must end at a word boundary, which a Hangul particle written right
    after it removes; and of two dates only the first is returned. *)
Lemma infer_date_token_not_every_date :
  (yyyy_mm_dd ascii_hangul (u "1999-12-31") = true
   /\ contains (u "1999-12-31") (u "1999-12-31 오늘") = true
   /\ _infer_date_token ascii_hangul (u "1999-12-31 오늘") = u "today")
  /\ (yyyy_mm_dd ascii_hangul (u "2024-01-01") = true
      /\ contains (u "2024-01-01") (u "2024-01-01에 회의") = true
      /\ _infer_date_token ascii_hangul (u "2024-01-01에 회의") = u "unknown")
  /\ (yyyy_mm_dd ascii_hangul (u "2025-02-02") = true
      /\ contains (u "2025-02-02") (u "2024-01-01 2025-02-02") = true
      /\ _infer_date_token ascii_hangul (u "2024-01-01 2025-02-02")
         = u "2024-01-01").
Proof. vm_compute. repeat split. Qed.

(** ** The plan builder *)

Lemma confirmations_flat_map ss :
  confirmations ss =
  flat_map (fun s => if _is_write_like (tool_name s)
                     then [tool_name s ++ confirmation_suffix] else []) ss.
Proof.
  unfold confirmations.
  assert (G : forall acc,
    fold_left (fun acc s => if _is_write_like (tool_name s)
                            then acc ++ [tool_name s ++ confirmation_suffix]
                            else acc) ss acc
    = acc ++ flat_map (fun s => if _is_write_like (tool_name s)
                       then [tool_name s ++ confirmation_suffix] else []) ss).
  { induction ss as [|s ss IH]; intros acc; simpl.
    - symmetry. apply app_nil_r.
    - rewrite IH. destruct (_is_write_like (tool_name s)); simpl.
      + rewrite <- app_assoc. reflexivity.
      + reflexivity. }
  apply (G []).
Qed.

Lemma confirmations_write_like ss :
  confirmations ss =
  map (fun s => tool_name s ++ confirmation_suffix) (write_like_steps ss).
Proof.
  rewrite confirmations_flat_map. unfold write_like_steps.
  induction ss as [|s ss IH]; simpl; [reflexivity|].
  destruct (_is_write_like (tool_name s)); simpl; rewrite IH; reflexivity.
Qed.

Section PlanFacts.

Variable ucd : UnicodeData.

(** [create_plan] raises nothing, and this is the plan it returns: the
    identifier from the uuid, the goal as given, numbered steps, the
    policy notice first, the confirmations of the steps, the fixed
    hint. *)
Lemma create_plan_shape uuid_hex goal available_tools strict :
  exists ss aa,
    create_plan ucd uuid_hex goal available_tools strict =
    Ret {| plan_id := u "plan-" ++ firstn 8 uuid_hex;
           plan_intent := goal;
           steps := ss;
           assumptions := note_policy :: aa;
           required_confirmations := confirmations ss;
           execution_hint := hint_text |}
    /\ numbered ss.
Proof.
  unfold create_plan. cbv zeta.
  set (avail := match available_tools with Some l => l | None => [] end).
  set (ok := allow strict avail).
  assert (Ha : exists a0, (match avail with
                           | [] => [note_policy] ++ [note_no_tools]
                           | _ :: _ => [note_policy]
                           end) = note_policy :: a0).
  { destruct avail; simpl; eauto. }
  destruct Ha as (a0 & ->).
  destruct (_classify_intent goal).
  - (* route *)
    destruct (infer_hhmm_ok ucd goal) as (t & -> & _).
    destruct (infer_route_ok ucd goal) as [(a & b & ->)| ->]; simpl.
    + destruct a as [|x a], b as [|y b];
        try (do 2 eexists; split; [reflexivity|]; intros [|i] s H;
             discriminate).
      destruct (ok t_calendar_read), (ok t_map_route); simpl;
        (do 2 eexists; split; [reflexivity|]);
        intros [|[|[|i]]] s H; simpl in H; try discriminate;
        injection H as <-; reflexivity.
    + do 2 eexists; split; [reflexivity|]. intros [|i] s H; discriminate.
  - (* schedule_create *)
    destruct (infer_hhmm_ok ucd goal) as (t & -> & _).
    destruct (infer_title_ok ucd goal) as (ti & ->). simpl.
    destruct ti as [[|x ti]|], t as [[|y t]|]; simpl;
      try (do 2 eexists; split; [reflexivity|]; intros [|i] s H;
           discriminate).
    destruct (ok t_calendar_read), (ok t_calendar_create); simpl;
      (do 2 eexists; split; [reflexivity|]);
      intros [|[|[|i]]] s H; simpl in H; try discriminate;
      injection H as <-; reflexivity.
  - simpl. do 2 eexists; split; [reflexivity|].
    intros [|i] s H; discriminate.
  - simpl. do 2 eexists; split; [reflexivity|].
    intros [|i] s H; discriminate.
  - (* paper *)
    destruct (_infer_email ucd goal) as [[|x e]|]; simpl;
      try (do 2 eexists; split; [reflexivity|]; intros [|i] s H;
           discriminate).
    destruct (ok t_paper_search && ok t_paper_summarize && ok t_email_send);
      simpl; (do 2 eexists; split; [reflexivity|]);
      intros [|[|[|[|i]]]] s H; simpl in H; try discriminate;
      injection H as <-; reflexivity.
  - (* news *)
    destruct (ok t_news_search && ok t_news_summarize && ok t_kakao_send);
      simpl; (do 2 eexists; split; [reflexivity|]);
      intros [|[|[|[|i]]]] s H; simpl in H; try discriminate;
      injection H as <-; reflexivity.
  - simpl. do 2 eexists; split; [reflexivity|].
    intros [|i] s H; discriminate.
Qed.

End PlanFacts.

Section PlanRuns.

Variable ucd : UnicodeData.

(** The uuid reaches the plan identifier and nothing else. *)
Lemma create_plan_uuid uuid1 uuid2 goal available_tools strict p1 :
  create_plan ucd uuid1 goal available_tools strict = Ret p1 ->
  create_plan ucd uuid2 goal available_tools strict =
  Ret {| plan_id := u "plan-" ++ firstn 8 uuid2;
         plan_intent := plan_intent p1;
         steps := steps p1;
         assumptions := assumptions p1;
         required_confirmations := required_confirmations p1;
         execution_hint := execution_hint p1 |}.
Proof.
  unfold create_plan. cbv zeta.
  match goal with
  | |- bind ?m _ = _ -> _ => destruct m as [[ss aa]|e]
  end; simpl; intros H; [|discriminate].
  injection H as <-. reflexivity.
Qed.

(** With no list of available tools, or an empty one, the strict flag
    changes nothing. *)
Lemma create_plan_empty_permissive uuid_hex goal (omitted omitted' : bool) :
  create_plan ucd uuid_hex goal (if omitted then None else Some []) true =
  create_plan ucd uuid_hex goal (if omitted' then None else Some []) false.
Proof. destruct omitted, omitted'; reflexivity. Qed.

(** The steps depend on the goal and on which tools are admitted, not on
    how the admission came about, nor on the notes recorded. *)
Lemma create_plan_steps_ext uuid uuid' goal tools tools' strict strict' p p' :
  (forall t, allow strict (avail_of tools) t
             = allow strict' (avail_of tools') t) ->
  create_plan ucd uuid goal tools strict = Ret p ->
  create_plan ucd uuid' goal tools' strict' = Ret p' ->
  steps p = steps p' /\ required_confirmations p = required_confirmations p'
  /\ plan_intent p = plan_intent p' /\ execution_hint p = execution_hint p'.
Proof.
  intros Hext. unfold create_plan. cbv zeta.
  fold (avail_of tools). fold (avail_of tools').
  set (ok := allow strict (avail_of tools)).
  set (ok' := allow strict' (avail_of tools')).
  assert (Hok : forall t, ok' t = ok t) by (intros t; symmetry; apply Hext).
  clearbody ok ok'.
  set (a0 := match avail_of tools with [] => _ | _ :: _ => _ end).
  set (a0' := match avail_of tools' with [] => _ | _ :: _ => _ end).
  clearbody a0 a0'.
  rewrite !Hok.
  assert (Hfin : forall (ss : list PlanStep) (aa aa' : list str) pid pid',
    Ret {| plan_id := pid; plan_intent := goal; steps := ss;
           assumptions := aa; required_confirmations := confirmations ss;
           execution_hint := hint_text |} = Ret p ->
    Ret {| plan_id := pid'; plan_intent := goal; steps := ss;
           assumptions := aa'; required_confirmations := confirmations ss;
           execution_hint := hint_text |} = Ret p' ->
    steps p = steps p' /\ required_confirmations p = required_confirmations p'
    /\ plan_intent p = plan_intent p'
    /\ execution_hint p = execution_hint p').
  { intros ss aa aa' pid pid' H H'. injection H as <-. injection H' as <-.
    repeat split; reflexivity. }
  destruct (_classify_intent goal).
  - destruct (infer_hhmm_ok ucd goal) as (t & -> & _).
    destruct (infer_route_ok ucd goal) as [(a & b & ->)| ->];
      [destruct a as [|x a], b as [|y b]|]; cbn [bind]; apply Hfin.
  - destruct (infer_hhmm_ok ucd goal) as (t & -> & _).
    destruct (infer_title_ok ucd goal) as (ti & ->).
    destruct ti as [[|x ti]|], t as [[|y t]|]; cbn [bind truthy]; apply Hfin.
  - cbn [bind]. apply Hfin.
  - cbn [bind]. apply Hfin.
  - destruct (_infer_email ucd goal) as [[|x e]|]; cbn [bind truthy];
      try apply Hfin.
    destruct (ok t_paper_search && ok t_paper_summarize && ok t_email_send);
      cbn [bind]; apply Hfin.
  - destruct (ok t_news_search && ok t_news_summarize && ok t_kakao_send);
      cbn [bind]; apply Hfin.
  - cbn [bind]. apply Hfin.
Qed.

(** Without the strict flag any list of tools gives the steps of the strict
    run on an empty list; the assumptions differ by the notice of the
    missing list when the list is not empty. *)
Lemma create_plan_loose_any_list uuid uuid' goal (omitted : bool) l p p' :
  create_plan ucd uuid goal (if omitted then None else Some []) true = Ret p ->
  create_plan ucd uuid' goal (Some l) false = Ret p' ->
  steps p = steps p' /\ required_confirmations p = required_confirmations p'
  /\ plan_intent p = plan_intent p' /\ execution_hint p = execution_hint p'.
Proof.
  apply create_plan_steps_ext. intros t. destruct omitted; reflexivity.
Qed.

End PlanRuns.

(** C1: for every goal, [create_plan] with strict_available_tools=True and
    available_tools empty or omitted returns a plan with the same steps,
    assumptions, required_confirmations, intent and execution_hint as
    [create_plan] on the same goal with strict_available_tools=False (the
    list again empty or omitted); in both runs every tool is admitted. *)
Theorem create_plan_strict_empty_is_loose
    (ucd : UnicodeData) (uuid1 uuid2 goal : str) (omitted omitted' : bool) :
  exists p1 p2,
    create_plan ucd uuid1 goal (if omitted then None else Some []) true
      = Ret p1
    /\ create_plan ucd uuid2 goal (if omitted' then None else Some []) false
      = Ret p2
    /\ steps p1 = steps p2
    /\ assumptions p1 = assumptions p2
    /\ required_confirmations p1 = required_confirmations p2
    /\ plan_intent p1 = plan_intent p2
    /\ execution_hint p1 = execution_hint p2
    /\ forall tool_name,
         allow true [] tool_name = true /\ allow false [] tool_name = true.
Proof.
  destruct (create_plan_shape ucd uuid1 goal
              (if omitted then None else Some []) true) as (ss & aa & E & _).
  pose proof E as E2.
  rewrite (create_plan_empty_permissive ucd uuid1 goal omitted omitted') in E2.
  apply (create_plan_uuid ucd uuid1 uuid2) in E2.
  do 2 eexists. split; [exact E|]. split; [exact E2|].
  simpl. repeat split; reflexivity.
Qed.

(** C2: in the plan [create_plan] returns, a step whose tool_name ends in
    .create, .write, .update, .delete or .send contributes exactly one
    entry to required_confirmations and any other step none, in the order
    of the steps; so required_confirmations has as many entries as there
    are write-like steps. *)
Theorem create_plan_confirmations
    (ucd : UnicodeData) (uuid_hex goal : str)
    (available_tools : option (list str)) (strict : bool) :
  exists p,
    create_plan ucd uuid_hex goal available_tools strict = Ret p
    /\ required_confirmations p =
         flat_map (fun s => if _is_write_like (tool_name s)
                            then [tool_name s ++ u " requires user confirmation"]
                            else [])
                  (steps p)
    /\ List.length (required_confirmations p) =
         List.length (write_like_steps (steps p))
    /\ forall t, _is_write_like t =
         endswith (u ".create") t || endswith (u ".write") t
         || endswith (u ".update") t || endswith (u ".delete") t
         || endswith (u ".send") t.
Proof.
  destruct (create_plan_shape ucd uuid_hex goal available_tools strict)
    as (ss & aa & E & _).
  eexists. split; [exact E|]. simpl. split; [|split].
  - apply confirmations_flat_map.
  - rewrite confirmations_write_like. apply length_map.
  - intros t. unfold _is_write_like, write_suffixes. simpl existsb.
    rewrite orb_false_r, !orb_assoc. reflexivity.
Qed.

(** C7: for every goal classified schedule_update or schedule_cancel, and
    whatever the available tools, [create_plan] returns a plan with no
    steps whose assumptions hold a note that names the missing event
    identifier (event_ref). *)
Theorem create_plan_update_cancel_no_steps
    (ucd : UnicodeData) (uuid_hex goal : str)
    (available_tools : option (list str)) (strict : bool) :
  _classify_intent goal = schedule_update
  \/ _classify_intent goal = schedule_cancel ->
  exists p,
    create_plan ucd uuid_hex goal available_tools strict = Ret p
    /\ steps p = []
    /\ exists note, In note (assumptions p)
                    /\ contains (u "event_ref") note = true.
Proof.
  intros H. unfold create_plan. cbv zeta.
  destruct H as [-> | ->]; simpl; eexists; (split; [reflexivity|]);
    (split; [reflexivity|]); simpl.
  - exists note_update. split; [|reflexivity].
    apply in_or_app. right. left. reflexivity.
  - exists note_cancel. split; [|reflexivity].
    apply in_or_app. right. left. reflexivity.
Qed.

(** Scenario C: "미팅 취소해줘", no available tools. *)
Lemma create_plan_cancel_meeting :
  _classify_intent (u "미팅 취소해줘") = schedule_cancel
  /\ exists p,
       create_plan ascii_hangul (u "0f8fad5bd9cb469fa16570867728950e")
                   (u "미팅 취소해줘") None true = Ret p
       /\ steps p = []
       /\ exists note, In note (assumptions p)
                       /\ contains (u "event_ref") note = true.
Proof.
  split; [reflexivity|].
  apply (create_plan_update_cancel_no_steps ascii_hangul
           (u "0f8fad5bd9cb469fa16570867728950e") (u "미팅 취소해줘")
           None true).
  right. reflexivity.
Defined.

(** C8: the i-th step (from 1, in the order of emission) of the plan
    [create_plan] returns has step_id "step-i", whichever steps the
    admission of tools left out. *)
Theorem create_plan_step_ids
    (ucd : UnicodeData) (uuid_hex goal : str)
    (available_tools : option (list str)) (strict : bool) :
  exists p,
    create_plan ucd uuid_hex goal available_tools strict = Ret p
    /\ forall i s, nth_error (steps p) i = Some s ->
         step_id s = u "step-" ++ str_of_nat (i + 1).
Proof.
  destruct (create_plan_shape ucd uuid_hex goal available_tools strict)
    as (ss & aa & E & Hn).
  eexists. split; [exact E|]. simpl. intros i s H.
  rewrite Nat.add_1_r. apply (Hn i s H).
Qed.

(** C9: two calls of [create_plan] with the same goal, available tools and
    strict flag return plans with the same intent, steps, assumptions,
    required_confirmations and execution_hint; the uuid drawn by each call
    reaches the plan identifier only. *)
Theorem create_plan_deterministic
    (ucd : UnicodeData) (uuid1 uuid2 goal : str)
    (available_tools : option (list str)) (strict : bool) :
  exists p1 p2,
    create_plan ucd uuid1 goal available_tools strict = Ret p1
    /\ create_plan ucd uuid2 goal available_tools strict = Ret p2
    /\ plan_intent p1 = plan_intent p2
    /\ steps p1 = steps p2
    /\ assumptions p1 = assumptions p2
    /\ required_confirmations p1 = required_confirmations p2
    /\ execution_hint p1 = execution_hint p2
    /\ plan_id p1 = u "plan-" ++ firstn 8 uuid1
    /\ plan_id p2 = u "plan-" ++ firstn 8 uuid2.
Proof.
  destruct (create_plan_shape ucd uuid1 goal available_tools strict)
    as (ss & aa & E & _).
  pose proof (create_plan_uuid ucd uuid1 uuid2 _ _ _ _ E) as E2.
  do 2 eexists. split; [exact E|]. split; [exact E2|].
  simpl. repeat split; reflexivity.
Qed.

(** C10: the assumptions of the plan [create_plan] returns are never empty:
    the first is the fixed notice of the confirmation policy, and what else
    was recorded follows it. *)
Theorem create_plan_policy_first
    (ucd : UnicodeData) (uuid_hex goal : str)
    (available_tools : option (list str)) (strict : bool) :
  exists p others,
    create_plan ucd uuid_hex goal available_tools strict = Ret p
    /\ assumptions p =
         u "create/update/delete/send 류는 사용자 확인(required_confirmations) 후 실행합니다."
           :: others
    /\ assumptions p <> [].
Proof.
  destruct (create_plan_shape ucd uuid_hex goal available_tools strict)
    as (ss & aa & E & _).
  do 2 eexists. split; [exact E|]. simpl. split; [reflexivity|discriminate].
Qed.

(** ** The scenarios of the spec, run on the model *)

(** Scenario A: a route with a date and a time. *)
Example scenario_route :
  let goal := u "판교에서 강남으로 오늘 20:00 가는 길" in
  _classify_intent goal = route
  /\ _infer_route ascii_hangul goal = Ret (Some (u "판교"), Some (u "강남"))
  /\ _infer_date_token ascii_hangul goal = u "today"
  /\ _infer_hhmm ascii_hangul goal = Ret (Some (u "20:00"))
  /\ exists p,
       create_plan ascii_hangul (u "0f8fad5bd9cb469fa16570867728950e")
                   goal None true = Ret p
       /\ steps p =
            [mk_step (u "step-1") (u "calendar.read") [(u "date", u "today")];
             mk_step (u "step-2") (u "map.route")
                     [(u "from", u "판교"); (u "to", u "강남");
                      (u "depart_time", u "20:00")]]
       /\ required_confirmations p = [].
Proof.
  vm_compute. repeat split. eexists. repeat split.
Qed.

(** Scenario B: a schedule to create, the title in quotes. *)
Example scenario_schedule_create :
  let goal := u "내일 오후 8시에 '팀미팅' 일정 잡아줘" in
  _classify_intent goal = schedule_create
  /\ _infer_title ascii_hangul goal = Ret (Some (u "팀미팅"))
  /\ _infer_date_token ascii_hangul goal = u "tomorrow"
  /\ _infer_hhmm ascii_hangul goal = Ret (Some (u "20:00"))
  /\ exists p,
       create_plan ascii_hangul (u "0f8fad5bd9cb469fa16570867728950e")
                   goal None true = Ret p
       /\ steps p =
            [mk_step (u "step-1") (u "calendar.read")
                     [(u "date", u "tomorrow")];
             mk_step (u "step-2") (u "calendar.create")
                     [(u "title", u "팀미팅"); (u "date", u "tomorrow");
                      (u "time", u "20:00")]]
       /\ required_confirmations p =
            [u "calendar.create requires user confirmation"].
Proof.
  vm_compute. repeat split. eexists. repeat split.
Qed.

(** Scenario D: the route of scenario A with only [calendar.read]
    available, strict; and, the other way round, only [map.route], which
    is then step 1. *)
Example scenario_route_filtered :
  let goal := u "판교에서 강남으로 오늘 20:00 가는 길" in
  (exists p,
     create_plan ascii_hangul (u "0f8fad5bd9cb469fa16570867728950e")
                 goal (Some [u "calendar.read"]) true = Ret p
     /\ map tool_name (steps p) = [u "calendar.read"]
     /\ map step_id (steps p) = [u "step-1"])
  /\ (exists p,
        create_plan ascii_hangul (u "0f8fad5bd9cb469fa16570867728950e")
                    goal (Some [u "map.route"]) true = Ret p
        /\ map tool_name (steps p) = [u "map.route"]
        /\ map step_id (steps p) = [u "step-1"]).
Proof.
  vm_compute. split; eexists; repeat split.
Qed.

(** The route is that of the last match of the from-to pattern; the text
    between two matches goes into the origin of the later one. *)
Example route_of_last_match :
  _infer_route ascii_hangul (u "집에서 회사까지 말고 판교에서 강남으로")
  = Ret (Some (u "말고 판교"), Some (u "강남")).
Proof. vm_compute. reflexivity. Qed.

(** A clock time out of range is dropped, and the families after it are
    tried; a later clock time in the same goal is not. *)
Example time_out_of_range :
  _infer_hhmm ascii_hangul (u "25:00 오후 3시") = Ret (Some (u "15:00"))
  /\ _infer_hhmm ascii_hangul (u "25:00 10:30") = Ret None
  /\ _infer_hhmm ascii_hangul (u "오후 8시 75분") = Ret None
  /\ _infer_hhmm ascii_hangul (u "밤 11시 5분") = Ret (Some (u "23:05"))
  /\ _infer_hhmm ascii_hangul (u "오전 12시") = Ret (Some (u "00:00")).
Proof. vm_compute. repeat split. Qed.

(** * Further properties *)

(** ** More on strings *)

Lemma str_eqb_eq a b : str_eqb a b = true <-> a = b.
Proof.
  revert b. induction a as [|x a IH]; intros [|y b]; simpl;
    try (split; [discriminate|discriminate]); [tauto|].
  rewrite andb_true_iff, N.eqb_eq, IH. split.
  - intros [-> ->]. reflexivity.
  - intros H. injection H as -> ->. auto.
Qed.

Lemma str_eqb_refl a : str_eqb a a = true.
Proof. apply str_eqb_eq. reflexivity. Qed.

Lemma startswith_iff p s : startswith p s = true <-> exists b, s = p ++ b.
Proof.
  revert s. induction p as [|x p IH]; intros s.
  - simpl. split; eauto.
  - destruct s as [|y s]; simpl.
    + split; [discriminate|]. intros (b & H). discriminate.
    + rewrite andb_true_iff, N.eqb_eq, IH. split.
      * intros [-> (b & ->)]. eauto.
      * intros (b & H). injection H as -> ->. eauto.
Qed.

(** [k in s] says that [k] is a contiguous part of [s]. *)
Lemma contains_iff k s :
  contains k s = true <-> exists a b, s = a ++ k ++ b.
Proof.
  induction s as [|c s IH].
  - simpl. rewrite orb_false_r, startswith_iff. split.
    + intros (b & H). exists [], b. assumption.
    + intros (a & b & H). symmetry in H. apply app_eq_nil in H.
      destruct H as [-> H]. apply app_eq_nil in H. destruct H as [-> ->].
      exists []. reflexivity.
  - cbn [contains]. rewrite orb_true_iff, startswith_iff, IH. split.
    + intros [(b & H) | (a & b & ->)].
      * exists [], b. assumption.
      * exists (c :: a), b. reflexivity.
    + intros ([|x a] & b & H).
      * left. exists b. assumption.
      * right. injection H as -> ->. eauto.
Qed.

Lemma contains_refl s : contains s s = true.
Proof. apply contains_iff. exists [], []. rewrite app_nil_r. reflexivity. Qed.

Lemma contains_trans a b c :
  contains a b = true -> contains b c = true -> contains a c = true.
Proof.
  rewrite !contains_iff. intros (x & y & ->) (x' & y' & ->).
  exists (x' ++ x), (y ++ y'). rewrite <- !app_assoc. reflexivity.
Qed.

Lemma dropwhile_app_space f ws s :
  forallb f ws = true -> dropwhile f (ws ++ s) = dropwhile f s.
Proof.
  induction ws as [|w ws IH]; intros H; [reflexivity|].
  simpl in H. apply andb_prop in H. destruct H as [Hw H].
  simpl. rewrite Hw. auto.
Qed.

Lemma dropwhile_head f s :
  match dropwhile f s with
  | [] => True
  | c :: _ => f c = false
  end.
Proof.
  induction s as [|c s IH]; simpl; [exact I|].
  destruct (f c) eqn:E; [assumption|]. exact E.
Qed.

Lemma dropwhile_fixed f s :
  match s with [] => True | c :: _ => f c = false end ->
  dropwhile f s = s.
Proof. destruct s as [|c s]; [reflexivity|]. simpl. intros ->. reflexivity. Qed.

(** [strip] cuts white space off both ends and nothing else. *)
Lemma strip_split s :
  exists ws1 ws2, s = ws1 ++ strip s ++ ws2 /\
    forallb isspace ws1 = true /\ forallb isspace ws2 = true.
Proof.
  unfold strip, rstrip, lstrip.
  destruct (dropwhile_split isspace s) as (ws1 & H1 & Hws1).
  destruct (dropwhile_split isspace (rev (dropwhile isspace s)))
    as (ws2 & H2 & Hws2).
  exists ws1, (rev ws2). split; [|split; [assumption|]].
  - rewrite <- rev_app_distr, <- H2, rev_involutive. assumption.
  - rewrite forallb_forall in *. intros x Hx. apply Hws2.
    apply in_rev. assumption.
Qed.

Lemma contains_strip_part s : contains (strip s) s = true.
Proof.
  destruct (strip_split s) as (ws1 & ws2 & H & _).
  apply contains_iff. eauto.
Qed.

Lemma lstrip_rstrip_head s :
  match lstrip s with [] => True | c :: _ => isspace c = false end.
Proof. apply dropwhile_head. Qed.

(** The stripped text neither begins nor ends with white space. *)
Lemma strip_ends s :
  match strip s with [] => True | c :: _ => isspace c = false end /\
  match rev (strip s) with [] => True | c :: _ => isspace c = false end.
Proof.
  unfold strip, rstrip. rewrite rev_involutive. split.
  - pose proof (dropwhile_head isspace (rev (lstrip s))) as Hl.
    pose proof (lstrip_rstrip_head s) as Hh.
    destruct (dropwhile_split isspace (rev (lstrip s))) as (ws & E & Hws).
    remember (dropwhile isspace (rev (lstrip s))) as r eqn:Er.
    assert (El : lstrip s = rev r ++ rev ws).
    { rewrite <- rev_app_distr, <- E, rev_involutive. reflexivity. }
    destruct (rev r) as [|c t] eqn:Et; [exact I|].
    rewrite El in Hh. simpl in Hh. exact Hh.
  - apply dropwhile_head.
Qed.

Lemma strip_fixed s :
  match s with [] => True | c :: _ => isspace c = false end ->
  match rev s with [] => True | c :: _ => isspace c = false end ->
  strip s = s.
Proof.
  intros H1 H2. unfold strip, rstrip, lstrip.
  rewrite (dropwhile_fixed isspace s H1).
  rewrite (dropwhile_fixed isspace (rev s) H2). apply rev_involutive.
Qed.

Lemma strip_idem s : strip (strip s) = strip s.
Proof. destruct (strip_ends s). apply strip_fixed; assumption. Qed.

Lemma rstrip_app_space s ws :
  forallb isspace ws = true -> rstrip (s ++ ws) = rstrip s.
Proof.
  intros H. unfold rstrip. rewrite rev_app_distr, dropwhile_app_space;
    [reflexivity|].
  rewrite forallb_forall in *. intros x Hx. apply H. apply in_rev. assumption.
Qed.

Lemma lstrip_app_nonspace s t :
  lstrip s <> [] -> lstrip (s ++ t) = lstrip s ++ t.
Proof.
  unfold lstrip. induction s as [|c s IH]; simpl; [congruence|].
  destruct (isspace c); [assumption|reflexivity].
Qed.

Lemma lstrip_all_space s : lstrip s = [] -> forallb isspace s = true.
Proof.
  unfold lstrip. induction s as [|c s IH]; simpl; [reflexivity|].
  destruct (isspace c); [assumption|discriminate].
Qed.

Lemma rstrip_all_space ws : forallb isspace ws = true -> rstrip ws = [].
Proof.
  intros H. unfold rstrip.
  assert (E : dropwhile isspace (rev ws) = []).
  { rewrite <- (app_nil_r (rev ws)). rewrite dropwhile_app_space; auto.
    rewrite forallb_forall in *. intros x Hx. apply H. apply in_rev.
    assumption. }
  rewrite E. reflexivity.
Qed.

(** White space around a text does not reach what [strip] gives. *)
Lemma strip_padded ws s ws' :
  forallb isspace ws = true -> forallb isspace ws' = true ->
  strip (ws ++ s ++ ws') = strip s.
Proof.
  intros H H'. unfold strip.
  assert (E : lstrip (ws ++ s ++ ws') = lstrip (s ++ ws'))
    by (apply dropwhile_app_space; assumption).
  rewrite E. destruct (lstrip s) as [|c t] eqn:El.
  - pose proof (lstrip_all_space s El) as Hs.
    assert (Ea : lstrip (s ++ ws') = []).
    { unfold lstrip. rewrite dropwhile_app_space by assumption.
      rewrite <- (app_nil_r ws'). rewrite dropwhile_app_space by assumption.
      reflexivity. }
    rewrite Ea. reflexivity.
  - rewrite lstrip_app_nonspace by (rewrite El; discriminate).
    rewrite El. apply rstrip_app_space. assumption.
Qed.

(** ** The padding of a goal *)

(** X1: white space before and after the goal changes neither the intent
    [_classify_intent] returns, nor the time [_infer_hhmm] returns, nor
    the route [_infer_route] returns: the three strip the goal first. *)
Theorem padding_is_ignored (ucd : UnicodeData) (ws goal ws' : str) :
  forallb isspace ws = true -> forallb isspace ws' = true ->
  _classify_intent (ws ++ goal ++ ws') = _classify_intent goal
  /\ _infer_hhmm ucd (ws ++ goal ++ ws') = _infer_hhmm ucd goal
  /\ _infer_route ucd (ws ++ goal ++ ws') = _infer_route ucd goal.
Proof.
  intros H H'. unfold _classify_intent, _infer_hhmm, _infer_route.
  rewrite (strip_padded ws goal ws' H H'). repeat split.
Qed.

Lemma padding_is_ignored_at_route :
  _classify_intent (u "  " ++ u "판교에서 강남으로 오늘 20:00 가는 길" ++ u " ")
    = _classify_intent (u "판교에서 강남으로 오늘 20:00 가는 길")
  /\ _infer_hhmm ascii_hangul
       (u "  " ++ u "판교에서 강남으로 오늘 20:00 가는 길" ++ u " ")
     = _infer_hhmm ascii_hangul (u "판교에서 강남으로 오늘 20:00 가는 길")
  /\ _infer_route ascii_hangul
       (u "  " ++ u "판교에서 강남으로 오늘 20:00 가는 길" ++ u " ")
     = _infer_route ascii_hangul (u "판교에서 강남으로 오늘 20:00 가는 길").
Proof.
  apply (padding_is_ignored ascii_hangul (u "  ")
           (u "판교에서 강남으로 오늘 20:00 가는 길") (u " "));
    reflexivity.
Defined.

(** ** What the extractors return *)

Section Verbatim.

Variable ucd : UnicodeData.

Lemma lookup_In n g w : lookup n g = Some w -> In (n, w) g.
Proof.
  induction g as [|[m x] g IH]; simpl; [discriminate|].
  destruct (Nat.eqb_spec n m) as [->|].
  - intros H. injection H as ->. auto.
  - auto.
Qed.

(** What a group holds is a contiguous part of the text matched. *)
Lemma Matches_groups_part r cu g cu' g' :
  Matches ucd r cu g cu' g' ->
  forall n w, In (n, w) g' ->
    In (n, w) g \/ exists a b, rest cu = a ++ w ++ b.
Proof.
  induction 1 as [cu g|cs p c s' g Hc|r1 r2 cu g cu1 g1 cu2 g2 M1 IH1 M2 IH2
                 |r1 r2 cu g cu' g' _ IH|r1 r2 cu g cu' g' _ IH
                 |k r cu g cu' g' M IH|r cu g cu' g' _ IH|r cu g
                 |lz lo hi cs p w0 s' g Hw Hlo Hhi|cu g Hb];
    intros n w Hin; auto.
  - destruct (IH2 n w Hin) as [H | (a & b & H)]; [auto|].
    right. destruct (Matches_reads ucd _ _ _ _ _ M1) as (w1 & E & _).
    rewrite E, H. exists (w1 ++ a), b. rewrite <- app_assoc. reflexivity.
  - destruct Hin as [Hin | Hin]; [|auto].
    injection Hin as <- <-. right.
    destruct (Matches_reads ucd _ _ _ _ _ M) as (w1 & E & _).
    exists [], (rest cu'). simpl. rewrite E. f_equal.
    destruct cu as [p s], cu' as [q s']. simpl in E. subst s.
    symmetry. apply consumed_prefix. reflexivity.
Qed.

Lemma match_here_group_part r cu m n w :
  match_here ucd r cu = Some m -> group n m = Some w ->
  exists a b, rest cu = a ++ w ++ b.
Proof.
  intros Hm Hg. destruct n as [|n].
  - simpl in Hg. injection Hg as <-.
    destruct (match_here_reads ucd _ _ _ Hm) as (E & _).
    exists [], (rest (m_end m)). exact E.
  - pose proof Hm as Hm'. apply match_here_some in Hm'.
    destruct Hm' as (cu' & g & M & ->). simpl in Hg.
    apply lookup_In in Hg.
    destruct (Matches_groups_part _ _ _ _ _ M _ _ Hg) as [[] | H].
    exact H.
Qed.

(** A group of a [search] match is a part of the text searched. *)
Lemma search_group_part r s m n w :
  search ucd r s = Some m -> group n m = Some w -> contains w s = true.
Proof.
  intros Hs Hg. unfold search in Hs.
  pose proof (search_from_leftmost ucd r s None) as H. rewrite Hs in H.
  destruct H as (pre & post & -> & Hm & _).
  destruct (match_here_group_part _ _ _ _ _ Hm Hg) as (a & b & E).
  simpl in E. subst post. apply contains_iff. exists (pre ++ a), b.
  rewrite <- app_assoc. reflexivity.
Qed.

Lemma scan_In r s :
  forall p k m, In m (scan ucd r p s k) ->
    exists pre post p', s = pre ++ post /\
      match_here ucd r {| prev := p'; rest := post |} = Some m.
Proof.
  induction s as [|c s IH]; intros p k m Hin.
  - destruct k as [|k]; simpl in Hin; [|contradiction].
    destruct (match_here ucd r {| prev := p; rest := [] |}) as [m0|] eqn:E;
      [|contradiction].
    destruct Hin as [<- | []]. exists [], [], p. auto.
  - destruct k as [|k]; cbn [scan] in Hin.
    + destruct (match_here ucd r {| prev := p; rest := c :: s |})
        as [m0|] eqn:E.
      * destruct Hin as [<- | Hin]; [exists [], (c :: s), p; auto|].
        apply IH in Hin. destruct Hin as (pre & post & p' & -> & H).
        exists (c :: pre), post, p'. auto.
      * apply IH in Hin. destruct Hin as (pre & post & p' & -> & H).
        exists (c :: pre), post, p'. auto.
    + apply IH in Hin. destruct Hin as (pre & post & p' & -> & H).
      exists (c :: pre), post, p'. auto.
Qed.

Lemma scan_group_part r s m n :
  In m (scan ucd r None s 0) -> contains (group_or_empty n m) s = true.
Proof.
  intros Hin. apply scan_In in Hin.
  destruct Hin as (pre & post & p' & -> & Hm).
  unfold group_or_empty. destruct (group n m) as [w|] eqn:Hg.
  - destruct (match_here_group_part _ _ _ _ _ Hm Hg) as (a & b & E).
    simpl in E. subst post. apply contains_iff. exists (pre ++ a), b.
    rewrite <- app_assoc. reflexivity.
  - apply contains_iff. exists [], (pre ++ post). reflexivity.
Qed.

Lemma strip_part_of w s :
  contains w s = true -> contains (strip w) s = true.
Proof. intros H. eapply contains_trans; [apply contains_strip_part|exact H]. Qed.

Lemma last_In {A : Type} (l : list A) d : l <> [] -> In (last l d) l.
Proof.
  induction l as [|x [|y l] IH]; intros H; [congruence|left; reflexivity|].
  right. apply IH. discriminate.
Qed.

(** X2: the extractors invent no text.  The origin and the destination
    [_infer_route] returns, the title [_infer_title] returns and the
    address [_infer_email] returns are each a contiguous part of the
    goal; the route is both places or neither, and none of the three
    raises. *)
Theorem extracted_slots_are_verbatim (goal : str) :
  match _infer_route ucd goal with
  | Ret (Some frm, Some to) =>
      contains frm goal = true /\ contains to goal = true
  | Ret (None, None) => True
  | _ => False
  end
  /\ match _infer_title ucd goal with
     | Ret (Some t) => contains t goal = true
     | Ret None => True
     | Raise _ => False
     end
  /\ match _infer_email ucd goal with
     | Some e => contains e goal = true
     | None => True
     end.
Proof.
  split; [|split].
  - pose proof (infer_route_cases ucd goal) as H.
    destruct (findall2 ucd from_to_re (strip goal)) as [|x l] eqn:E.
    + destruct (search ucd arrow_re (strip goal)) as [m|] eqn:Em.
      * destruct H as (a & b & Ha & Hb & ->).
        split; apply strip_part_of;
          (eapply contains_trans; [|apply contains_strip_part]);
          eapply search_group_part; eassumption.
      * rewrite H. exact I.
    + rewrite H. unfold findall2 in E.
      assert (Hin : In (last (x :: l) ([], []))
                       (map (fun m => (group_or_empty 1 m, group_or_empty 2 m))
                            (scan ucd from_to_re None (strip goal) 0)))
        by (rewrite E; apply last_In; discriminate).
      apply in_map_iff in Hin.
      destruct Hin as (m & Hm & Hin). rewrite <- Hm. cbn [fst snd].
      split; apply strip_part_of;
        (eapply contains_trans; [|apply contains_strip_part]);
        apply (scan_group_part from_to_re); assumption.
  - unfold _infer_title.
    destruct (search ucd title_re goal) as [m|] eqn:E.
    + destruct (title_groups ucd _ _ E) as (t & Ht). rewrite Ht. cbn.
      apply strip_part_of. eapply search_group_part; eassumption.
    + destruct (search ucd quoted_re goal) as [m|] eqn:E'; [|exact I].
      destruct (quoted_groups ucd _ _ E') as (t & Ht). rewrite Ht. cbn.
      apply strip_part_of. eapply search_group_part; eassumption.
  - unfold _infer_email.
    destruct (search ucd email_re goal) as [m|] eqn:E; [|exact I].
    apply (search_group_part _ _ _ 0 _ E). reflexivity.
Qed.

Lemma forallb_part (f : char -> bool) a b :
  contains a b = true -> forallb f b = true -> forallb f a = true.
Proof.
  rewrite contains_iff. intros (x & y & ->). rewrite !forallb_app.
  intros H. apply andb_prop in H. destruct H as [_ H].
  apply andb_prop in H. tauto.
Qed.

Lemma forallb_impl (f g : char -> bool) w :
  (forall c, f c = true -> g c = true) ->
  forallb f w = true -> forallb g w = true.
Proof.
  intros H. rewrite !forallb_forall. auto.
Qed.

(** X3: an address [_infer_email] returns is local@domain.tld: a non-empty
    local part of ASCII letters, digits and [._%+-], a non-empty domain of
    ASCII letters, digits and [.-], and a last label of at least two ASCII
    letters. *)
Theorem infer_email_shape (goal : str) :
  match _infer_email ucd goal with
  | Some e =>
      exists local domain tld,
        e = local ++ [64%N] ++ domain ++ [46%N] ++ tld
        /\ local <> [] /\ forallb email_local_char local = true
        /\ domain <> [] /\ forallb email_domain_char domain = true
        /\ 2 <= List.length tld /\ forallb ascii_letter tld = true
  | None => True
  end.
Proof.
  unfold _infer_email.
  destruct (search ucd email_re goal) as [m|] eqn:E; [|exact I].
  apply search_some in E. destruct E as (cu & cu' & g & M & ->).
  unfold email_re in M. inv_matches. cbn [m_text].
  repeat match goal with
         | H : cset_mem _ (Lit _) _ = true |- _ =>
             cbn [cset_mem] in H; apply N.eqb_eq in H; subst
         end.
  match goal with
  | |- context [consumed {| prev := ?p; rest := ?w1 ++ _ :: ?w2 ++ _ :: ?w3
                                                ++ ?s |}
                         (after ?q ?w3 ?s)] =>
      exists w1, w2, w3;
      rewrite (consumed_prefix p (prev (after q w3 s))
                 (w1 ++ [64%N] ++ w2 ++ [46%N] ++ w3) _ s)
        by (repeat (rewrite <- ?app_assoc; cbn [app]); reflexivity)
  end.
  split; [reflexivity|].
  repeat match goal with
         | H : 1 <= List.length ?w |- _ =>
             assert (w <> []) by (intros ->; simpl in H; lia); clear H
         end.
  repeat split; assumption.
Qed.

(** X4: [_infer_title] raises nothing, and a title it returns has no white
    space at either end (stripping it again changes nothing) and holds no
    line feed. *)
Theorem infer_title_shape (goal : str) :
  match _infer_title ucd goal with
  | Ret (Some t) =>
      strip t = t /\ forallb (fun c => negb (c =? ch_nl)%N) t = true
  | Ret None => True
  | Raise _ => False
  end.
Proof.
  assert (Hs : forall w,
            forallb (fun c => negb (c =? ch_nl)%N) w = true ->
            strip (strip w) = strip w
            /\ forallb (fun c => negb (c =? ch_nl)%N) (strip w) = true).
  { intros w Hw. split; [apply strip_idem|].
    eapply forallb_part; [apply contains_strip_part|exact Hw]. }
  unfold _infer_title.
  destruct (search ucd title_re goal) as [m|] eqn:E.
  - apply search_some in E. destruct E as (cu & cu' & g & M & ->).
    unfold title_re in M. inv_matches.
    unfold group, m_groups, lookup. simpl Nat.eqb. cbv iota.
    cbn [strip_group bind]. rewrite consumed_after. apply Hs.
    eapply forallb_impl; [|eassumption].
    intros ch. cbn [cset_mem existsb]. unfold ch_nl.
    destruct (ch =? 10)%N; [discriminate|reflexivity].
  - destruct (search ucd quoted_re goal) as [m|] eqn:E'; [|exact I].
    apply search_some in E'. destruct E' as (cu & cu' & g & M & ->).
    unfold quoted_re in M. inv_matches.
    unfold group, m_groups, lookup. simpl Nat.eqb. cbv iota.
    cbn [strip_group bind].
    match goal with
    | |- context [consumed {| prev := ?p; rest := ?w ++ ?t |}
                           {| prev := ?q; rest := ?t |}] =>
        rewrite (consumed_prefix p q w (w ++ t) t eq_refl)
    end.
    apply Hs. eapply forallb_impl; [|eassumption].
    intros ch. cbn [cset_mem existsb]. unfold ch_nl.
    destruct (ch =? 10)%N; [discriminate|reflexivity].
Qed.

End Verbatim.

(** ** Plans *)

Section PlanSafety.

Variable ucd : UnicodeData.

Lemma create_plan_steps_facts uuid_hex goal available_tools strict :
  exists p,
    create_plan ucd uuid_hex goal available_tools strict = Ret p
    /\ (forall s, In s (steps p) ->
          allow strict (avail_of available_tools) (tool_name s) = true)
    /\ (forall s, In s (steps p) -> In (tool_name s) plan_tools)
    /\ (forall s, In s (steps p) -> args_present s)
    /\ NoDup (map tool_name (steps p))
    /\ List.length (steps p) <= 3
    /\ List.length (required_confirmations p) <= 1
    /\ (required_confirmations p <> [] ->
        _classify_intent goal = schedule_create
        \/ _classify_intent goal = paper_search_summarize_email
        \/ _classify_intent goal = news_analyze_kakao_send).
Proof.
  unfold create_plan. cbv zeta. fold (avail_of available_tools).
  set (ok := allow strict (avail_of available_tools)).
  destruct (_classify_intent goal).
  - destruct (infer_hhmm_ok ucd goal) as (t & -> & _).
    destruct (infer_route_ok ucd goal) as [(a & b & ->)| ->];
      [destruct a as [|x a], b as [|y b]|]; cbn [bind]; try no_steps.
    destruct (ok t_calendar_read) eqn:E1, (ok t_map_route) eqn:E2;
      destruct t as [[|z t]|]; cbn [app List.length Nat.add]; some_steps.
  - destruct (infer_hhmm_ok ucd goal) as (t & -> & _).
    destruct (infer_title_ok ucd goal) as (ti & ->).
    destruct ti as [[|x ti]|], t as [[|y t]|]; cbn [bind truthy];
      try no_steps.
    destruct (ok t_calendar_read) eqn:E1, (ok t_calendar_create) eqn:E2;
      some_steps.
  - cbn [bind]. no_steps.
  - cbn [bind]. no_steps.
  - destruct (_infer_email ucd goal) as [[|x e]|]; cbn [bind truthy];
      try no_steps.
    destruct (ok t_paper_search) eqn:E1, (ok t_paper_summarize) eqn:E2,
      (ok t_email_send) eqn:E3; cbn [andb bind]; some_steps.
  - destruct (ok t_news_search) eqn:E1, (ok t_news_summarize) eqn:E2,
      (ok t_kakao_send) eqn:E3; cbn [andb bind]; some_steps.
  - cbn [bind]. no_steps.
Qed.

(** X5: the assumptions of a plan depend on the goal and on whether the
    tool list is empty, and on nothing else: two calls of [create_plan]
    on the same goal, with tool lists that are both empty (or omitted) or
    both non-empty, give the same assumptions, whatever the lists hold and
    whatever the strict flags are. *)
Theorem create_plan_assumptions_ignore_tools
    uuid uuid' goal tools tools' strict strict' :
  nonempty (avail_of tools) = nonempty (avail_of tools') ->
  exists p p',
    create_plan ucd uuid goal tools strict = Ret p
    /\ create_plan ucd uuid' goal tools' strict' = Ret p'
    /\ assumptions p = assumptions p'.
Proof.
  intros Hne. unfold create_plan. cbv zeta.
  fold (avail_of tools). fold (avail_of tools').
  set (ok := allow strict (avail_of tools)).
  set (ok' := allow strict' (avail_of tools')).
  clearbody ok ok'.
  assert (Ea : match avail_of tools' with
               | [] => [note_policy] ++ [note_no_tools]
               | _ :: _ => [note_policy]
               end
               = match avail_of tools with
                 | [] => [note_policy] ++ [note_no_tools]
                 | _ :: _ => [note_policy]
                 end).
  { destruct (avail_of tools), (avail_of tools'); try reflexivity;
      discriminate Hne. }
  rewrite Ea. clear Ea Hne.
  set (a0 := match avail_of tools with [] => _ | _ :: _ => _ end).
  clearbody a0.
  destruct (_classify_intent goal).
  - destruct (infer_hhmm_ok ucd goal) as (t & -> & _).
    destruct (infer_route_ok ucd goal) as [(a & b & ->)| ->];
      [destruct a as [|x a], b as [|y b]|]; cbn [bind];
      do 2 eexists; repeat split.
  - destruct (infer_hhmm_ok ucd goal) as (t & -> & _).
    destruct (infer_title_ok ucd goal) as (ti & ->).
    destruct ti as [[|x ti]|], t as [[|y t]|]; cbn [bind truthy];
      do 2 eexists; repeat split.
  - cbn [bind]. do 2 eexists; repeat split.
  - cbn [bind]. do 2 eexists; repeat split.
  - destruct (_infer_email ucd goal) as [[|x e]|]; cbn [bind truthy];
      try solve [do 2 eexists; repeat split].
    destruct (ok t_paper_search && ok t_paper_summarize && ok t_email_send),
      (ok' t_paper_search && ok' t_paper_summarize && ok' t_email_send);
      cbn [bind]; do 2 eexists; repeat split.
  - destruct (ok t_news_search && ok t_news_summarize && ok t_kakao_send),
      (ok' t_news_search && ok' t_news_summarize && ok' t_kakao_send);
      cbn [bind]; do 2 eexists; repeat split.
  - cbn [bind]. do 2 eexists; repeat split.
Qed.

(** X6: admitting more tools never loses a step.  If every tool the first
    call of [create_plan] admits is admitted by the second, then on the
    same goal every tool of a step of the first plan is the tool of a step
    of the second, which has at least as many steps. *)
Theorem create_plan_more_tools_more_steps
    uuid uuid' goal tools tools' strict strict' :
  (forall t, allow strict (avail_of tools) t = true ->
             allow strict' (avail_of tools') t = true) ->
  exists p p',
    create_plan ucd uuid goal tools strict = Ret p
    /\ create_plan ucd uuid' goal tools' strict' = Ret p'
    /\ incl (map tool_name (steps p)) (map tool_name (steps p'))
    /\ List.length (steps p) <= List.length (steps p').
Proof.
  intros Hmono. unfold create_plan. cbv zeta.
  fold (avail_of tools). fold (avail_of tools').
  set (ok := allow strict (avail_of tools)) in *.
  set (ok' := allow strict' (avail_of tools')) in *.
  clearbody ok ok'.
  set (a0 := match avail_of tools with [] => _ | _ :: _ => _ end).
  set (a0' := match avail_of tools' with [] => _ | _ :: _ => _ end).
  clearbody a0 a0'.
  assert (Hno : forall t, ok t = true -> ok' t = false -> False).
  { intros t H H'. apply Hmono in H. congruence. }
  destruct (_classify_intent goal).
  - destruct (infer_hhmm_ok ucd goal) as (t & -> & _).
    destruct (infer_route_ok ucd goal) as [(a & b & ->)| ->];
      [destruct a as [|x a], b as [|y b]|]; cbn [bind];
      try solve [do 2 eexists; split; [reflexivity|]; split; [reflexivity|];
                 split; [apply incl_refl|apply Nat.le_refl]].
    destruct (ok t_calendar_read) eqn:E1, (ok' t_calendar_read) eqn:E1',
      (ok t_map_route) eqn:E2, (ok' t_map_route) eqn:E2';
      try (exfalso; eauto; fail);
      (do 2 eexists; split; [reflexivity|]; split; [reflexivity|]);
      cbn [steps app map tool_name mk_step List.length];
      (split; [intros z Hz; cbn [In] in *; tauto|lia]).
  - destruct (infer_hhmm_ok ucd goal) as (t & -> & _).
    destruct (infer_title_ok ucd goal) as (ti & ->).
    destruct ti as [[|x ti]|], t as [[|y t]|]; cbn [bind truthy];
      try solve [do 2 eexists; split; [reflexivity|]; split; [reflexivity|];
                 split; [apply incl_refl|apply Nat.le_refl]].
    destruct (ok t_calendar_read) eqn:E1, (ok' t_calendar_read) eqn:E1',
      (ok t_calendar_create) eqn:E2, (ok' t_calendar_create) eqn:E2';
      try (exfalso; eauto; fail);
      (do 2 eexists; split; [reflexivity|]; split; [reflexivity|]);
      cbn [steps app map tool_name mk_step List.length];
      (split; [intros z Hz; cbn [In] in *; tauto|lia]).
  - cbn [bind]. do 2 eexists; split; [reflexivity|]; split; [reflexivity|];
      split; [apply incl_refl|apply Nat.le_refl].
  - cbn [bind]. do 2 eexists; split; [reflexivity|]; split; [reflexivity|];
      split; [apply incl_refl|apply Nat.le_refl].
  - destruct (_infer_email ucd goal) as [[|x e]|]; cbn [bind truthy];
      try solve [do 2 eexists; split; [reflexivity|]; split; [reflexivity|];
                 split; [apply incl_refl|apply Nat.le_refl]].
    assert (Hc : ok t_paper_search && ok t_paper_summarize && ok t_email_send
                 = true ->
                 ok' t_paper_search && ok' t_paper_summarize
                 && ok' t_email_send = true).
    { rewrite !andb_true_iff. intros [[H1 H2] H3]. auto. }
    destruct (ok t_paper_search && ok t_paper_summarize && ok t_email_send),
      (ok' t_paper_search && ok' t_paper_summarize && ok' t_email_send);
      try (discriminate (Hc eq_refl)); cbn [bind];
      (do 2 eexists; split; [reflexivity|]; split; [reflexivity|]);
      cbn [steps app map tool_name mk_step List.length];
      (split; [intros z Hz; cbn [In] in *; tauto|lia]).
  - assert (Hc : ok t_news_search && ok t_news_summarize && ok t_kakao_send
                 = true ->
                 ok' t_news_search && ok' t_news_summarize
                 && ok' t_kakao_send = true).
    { rewrite !andb_true_iff. intros [[H1 H2] H3]. auto. }
    destruct (ok t_news_search && ok t_news_summarize && ok t_kakao_send),
      (ok' t_news_search && ok' t_news_summarize && ok' t_kakao_send);
      try (discriminate (Hc eq_refl)); cbn [bind];
      (do 2 eexists; split; [reflexivity|]; split; [reflexivity|]);
      cbn [steps app map tool_name mk_step List.length];
      (split; [intros z Hz; cbn [In] in *; tauto|lia]).
  - cbn [bind]. do 2 eexists; split; [reflexivity|]; split; [reflexivity|];
      split; [apply incl_refl|apply Nat.le_refl].
Qed.

End PlanSafety.

(** Two tool lists, both non-empty, one strict and one not: the same
    assumptions. *)
Lemma create_plan_assumptions_ignore_tools_at_route :
  exists p p',
    create_plan ascii_hangul (u "0f8fad5bd9cb469fa16570867728950e")
                (u "판교에서 강남으로 오늘 20:00 가는 길")
                (Some [u "calendar.read"]) true = Ret p
    /\ create_plan ascii_hangul (u "9a1b2c3d4e5f60718293a4b5c6d7e8f9")
                   (u "판교에서 강남으로 오늘 20:00 가는 길")
                   (Some [u "map.route"; u "email.send"]) false = Ret p'
    /\ assumptions p = assumptions p'.
Proof.
  apply (create_plan_assumptions_ignore_tools ascii_hangul
           (u "0f8fad5bd9cb469fa16570867728950e")
           (u "9a1b2c3d4e5f60718293a4b5c6d7e8f9")
           (u "판교에서 강남으로 오늘 20:00 가는 길")
           (Some [u "calendar.read"]) (Some [u "map.route"; u "email.send"])
           true false).
  reflexivity.
Defined.

(** From a strict list with one tool to no list at all. *)
Lemma create_plan_more_tools_more_steps_at_route :
  exists p p',
    create_plan ascii_hangul (u "0f8fad5bd9cb469fa16570867728950e")
                (u "판교에서 강남으로 오늘 20:00 가는 길")
                (Some [u "map.route"]) true = Ret p
    /\ create_plan ascii_hangul (u "9a1b2c3d4e5f60718293a4b5c6d7e8f9")
                   (u "판교에서 강남으로 오늘 20:00 가는 길")
                   None true = Ret p'
    /\ incl (map tool_name (steps p)) (map tool_name (steps p'))
    /\ List.length (steps p) <= List.length (steps p').
Proof.
  apply (create_plan_more_tools_more_steps ascii_hangul
           (u "0f8fad5bd9cb469fa16570867728950e")
           (u "9a1b2c3d4e5f60718293a4b5c6d7e8f9")
           (u "판교에서 강남으로 오늘 20:00 가는 길")
           (Some [u "map.route"]) None true true).
  intros t _. reflexivity.
Defined.

(** ** [parse_goal] *)

Lemma startswith_schedule i :
  startswith (u "schedule_") (intent_tag i) = is_schedule i.
Proof. destruct i; reflexivity. Qed.

Section ParseFacts.

Variable ucd : UnicodeData.

(** X7: [parse_goal] raises nothing.  Its intent is that of
    [_classify_intent], its time is absent or HH:MM in range, origin and
    destination are both there or both absent, and it notes at most one
    thing: only for a route (exactly when a place is missing or empty) or
    for a schedule intent (exactly when no time was found). *)
Theorem parse_goal_notes (goal : str) :
  exists pg,
    parse_goal ucd goal = Ret pg
    /\ intent_type pg = _classify_intent goal
    /\ time_slot (time_hhmm pg)
    /\ (origin pg = None <-> destination pg = None)
    /\ List.length (notes pg) <= 1
    /\ (notes pg <> [] ->
        intent_type pg = route \/ is_schedule (intent_type pg) = true)
    /\ (intent_type pg = route ->
        (notes pg = [] <->
         truthy (origin pg) && truthy (destination pg) = true))
    /\ (is_schedule (intent_type pg) = true ->
        (notes pg = [] <-> truthy (time_hhmm pg) = true)).
Proof.
  unfold parse_goal. cbv zeta. rewrite startswith_schedule.
  destruct (infer_hhmm_ok ucd goal) as (t & -> & Ht).
  destruct (infer_title_ok ucd goal) as (ti & ->).
  destruct (infer_route_ok ucd goal) as [(a & b & ->)| ->]; cbn [bind];
    (eexists; split; [reflexivity|]);
    cbn [intent_type time_hhmm origin destination notes];
    (split; [reflexivity|]); (split; [exact Ht|]);
    (split; [split; intros; congruence|]);
    destruct (_classify_intent goal); cbn [is_schedule andb app];
    try destruct (truthy (Some a)); try destruct (truthy (Some b));
    destruct (truthy t); cbn [negb orb andb app List.length truthy];
    repeat split; intros; try lia; try congruence; try discriminate; auto.
Qed.

(** X8: [parse_goal] foretells the plan of a route goal.  With no tool
    list, a parse without notes goes with the plan of two steps,
    calendar.read on the parsed date and map.route from the parsed origin
    to the parsed destination (departing at the parsed time, if any); a
    parse with a note goes with a plan without steps whose assumptions
    hold the same note. *)
Theorem parse_goal_route_plan (uuid_hex goal : str) (strict : bool) :
  _classify_intent goal = route ->
  exists pg p,
    parse_goal ucd goal = Ret pg
    /\ create_plan ucd uuid_hex goal None strict = Ret p
    /\ match notes pg with
       | [] =>
           exists f t,
             origin pg = Some f /\ destination pg = Some t
             /\ steps p =
                  [mk_step (u "step-1") t_calendar_read
                           [(u "date", date_token pg)];
                   mk_step (u "step-2") t_map_route
                           ([(u "from", f); (u "to", t)]
                            ++ match time_hhmm pg with
                               | Some ((_ :: _) as h) =>
                                   [(u "depart_time", h)]
                               | _ => []
                               end)]
       | _ :: _ =>
           steps p = [] /\ notes pg = [note_no_route]
           /\ In note_no_route (assumptions p)
       end.
Proof.
  intros Hi. unfold parse_goal, create_plan. cbv zeta.
  rewrite startswith_schedule, Hi.
  destruct (infer_hhmm_ok ucd goal) as (t & -> & Ht).
  destruct (infer_title_ok ucd goal) as (ti & ->).
  assert (Hallow : forall x, allow strict [] x = true)
    by (intros x; destruct strict; reflexivity).
  destruct (infer_route_ok ucd goal) as [(a & b & ->)| ->]; cbn [bind].
  - destruct a as [|x a], b as [|y b];
      cbn [truthy negb orb andb is_schedule app];
      try solve [do 2 eexists; split; [reflexivity|]; split; [reflexivity|];
                 cbn [notes steps assumptions];
                 repeat split; try reflexivity;
                 rewrite ?in_app_iff; cbn [In]; auto 6].
    rewrite !Hallow. do 2 eexists. split; [reflexivity|].
    split; [reflexivity|]. cbn [notes steps origin destination time_hhmm
                                 date_token].
    exists (x :: a), (y :: b). repeat split.
    destruct t as [[|z t]|]; reflexivity.
  - cbn [truthy negb orb andb is_schedule app].
    do 2 eexists. split; [reflexivity|]. split; [reflexivity|].
    cbn [notes steps assumptions]. repeat split.
    rewrite ?in_app_iff; cbn [In]; auto 6.
Qed.

(** X9: for a goal classified route or schedule_create, every note of
    [parse_goal] stands among the assumptions of the plan [create_plan]
    returns, whatever the tool list and the strict flag. *)
Theorem parse_goal_notes_are_assumptions
    (uuid_hex goal : str) (tools : option (list str)) (strict : bool) :
  _classify_intent goal = route \/ _classify_intent goal = schedule_create ->
  exists pg p,
    parse_goal ucd goal = Ret pg
    /\ create_plan ucd uuid_hex goal tools strict = Ret p
    /\ incl (notes pg) (assumptions p).
Proof.
  intros Hi. unfold parse_goal, create_plan. cbv zeta.
  rewrite startswith_schedule.
  destruct (infer_hhmm_ok ucd goal) as (t & -> & Ht).
  destruct (infer_title_ok ucd goal) as (ti & ->).
  set (a0 := match match tools with Some l => l | None => [] end with
             | [] => _ | _ :: _ => _ end).
  clearbody a0.
  destruct Hi as [-> | ->].
  - destruct (infer_route_ok ucd goal) as [(a & b & ->)| ->]; cbn [bind];
      [destruct a as [|x a], b as [|y b]|];
      cbn [truthy negb orb andb is_schedule app];
      (do 2 eexists; split; [reflexivity|]; split; [reflexivity|]);
      cbn [notes assumptions]; intros n Hn; cbn [In] in Hn;
      try contradiction; destruct Hn as [<- | []];
      rewrite ?in_app_iff; cbn [In]; auto.
  - destruct (infer_route_ok ucd goal) as [(a & b & ->)| ->]; cbn [bind];
      destruct ti as [[|x ti]|], t as [[|y t]|];
      cbn [truthy negb orb andb is_schedule app];
      (do 2 eexists; split; [reflexivity|]; split; [reflexivity|]);
      cbn [notes assumptions]; intros n Hn; cbn [In] in Hn;
      try contradiction; destruct Hn as [<- | []];
      rewrite ?in_app_iff; cbn [In]; auto.
Qed.

End ParseFacts.

(** A route goal with both places. *)
Lemma parse_goal_route_plan_at_route :
  exists pg p,
    parse_goal ascii_hangul (u "판교에서 강남으로 오늘 20:00 가는 길")
      = Ret pg
    /\ create_plan ascii_hangul (u "0f8fad5bd9cb469fa16570867728950e")
                   (u "판교에서 강남으로 오늘 20:00 가는 길") None true
       = Ret p
    /\ match notes pg with
       | [] =>
           exists f t,
             origin pg = Some f /\ destination pg = Some t
             /\ steps p =
                  [mk_step (u "step-1") t_calendar_read
                           [(u "date", date_token pg)];
                   mk_step (u "step-2") t_map_route
                           ([(u "from", f); (u "to", t)]
                            ++ match time_hhmm pg with
                               | Some ((_ :: _) as h) =>
                                   [(u "depart_time", h)]
                               | _ => []
                               end)]
       | _ :: _ =>
           steps p = [] /\ notes pg = [note_no_route]
           /\ In note_no_route (assumptions p)
       end.
Proof.
  apply (parse_goal_route_plan ascii_hangul
           (u "0f8fad5bd9cb469fa16570867728950e")
           (u "판교에서 강남으로 오늘 20:00 가는 길") true).
  reflexivity.
Defined.

(** A schedule to create without a time: the note is an assumption. *)
Lemma parse_goal_notes_are_assumptions_at_schedule :
  exists pg p,
    parse_goal ascii_hangul (u "제목: 주간 회의 일정 잡아줘") = Ret pg
    /\ create_plan ascii_hangul (u "0f8fad5bd9cb469fa16570867728950e")
                   (u "제목: 주간 회의 일정 잡아줘")
                   (Some [u "calendar.create"]) true = Ret p
    /\ incl (notes pg) (assumptions p).
Proof.
  apply (parse_goal_notes_are_assumptions ascii_hangul
           (u "0f8fad5bd9cb469fa16570867728950e")
           (u "제목: 주간 회의 일정 잡아줘")
           (Some [u "calendar.create"]) true).
  right. reflexivity.
Defined.

(** ** What the plans hold *)

Section PlanContents.

Variable ucd : UnicodeData.

(** X10: [parse_goal] foretells the plan of a schedule to create.  With no
    tool list, when the parse has a title and a time the plan is
    calendar.read on the parsed date, then calendar.create with the
    parsed title, date and time, and the one confirmation asked is that
    of calendar.create; otherwise the plan has no step and asks for no
    confirmation. *)
Theorem parse_goal_schedule_plan (uuid_hex goal : str) (strict : bool) :
  _classify_intent goal = schedule_create ->
  exists pg p,
    parse_goal ucd goal = Ret pg
    /\ create_plan ucd uuid_hex goal None strict = Ret p
    /\ if truthy (title pg) && truthy (time_hhmm pg)
       then exists ti h,
              title pg = Some ti /\ time_hhmm pg = Some h
              /\ steps p =
                   [mk_step (u "step-1") t_calendar_read
                            [(u "date", date_token pg)];
                    mk_step (u "step-2") t_calendar_create
                            [(u "title", ti); (u "date", date_token pg);
                             (u "time", h)]]
              /\ required_confirmations p
                 = [u "calendar.create requires user confirmation"]
       else steps p = [] /\ required_confirmations p = [].
Proof.
  intros Hi. unfold parse_goal, create_plan. cbv zeta.
  rewrite startswith_schedule, Hi.
  destruct (infer_hhmm_ok ucd goal) as (t & -> & Ht).
  destruct (infer_title_ok ucd goal) as (ti & ->).
  assert (Hallow : forall x, allow strict [] x = true)
    by (intros x; destruct strict; reflexivity).
  destruct (infer_route_ok ucd goal) as [(a & b & ->)| ->]; cbn [bind];
    destruct ti as [[|x ti]|], t as [[|y t]|];
    cbn [truthy negb orb andb is_schedule app bind];
    rewrite ?Hallow;
    (do 2 eexists; split; [reflexivity|]; split; [reflexivity|]);
    cbn [title time_hhmm truthy andb steps required_confirmations
         date_token];
    try (split; reflexivity);
    (do 2 eexists; repeat split).
Qed.

(** X11: the paper and the news plans are whole or empty.  For a goal
    classified as the paper intent the steps are paper.search,
    paper.summarize and email.send, in this order, when an address was
    found and the three tools are admitted, and none otherwise; for the
    news intent they are news.search, news.summarize and kakao.send when
    the three tools are admitted, and none otherwise. *)
Theorem create_plan_pipeline_whole_or_empty
    (uuid_hex goal : str) (available_tools : option (list str))
    (strict : bool) :
  let ok := allow strict (avail_of available_tools) in
  exists p,
    create_plan ucd uuid_hex goal available_tools strict = Ret p
    /\ match _classify_intent goal with
       | paper_search_summarize_email =>
           map tool_name (steps p)
           = if truthy (_infer_email ucd goal)
                && ok (u "paper.search") && ok (u "paper.summarize")
                && ok (u "email.send")
             then [u "paper.search"; u "paper.summarize"; u "email.send"]
             else []
       | news_analyze_kakao_send =>
           map tool_name (steps p)
           = if ok (u "news.search") && ok (u "news.summarize")
                && ok (u "kakao.send")
             then [u "news.search"; u "news.summarize"; u "kakao.send"]
             else []
       | _ => True
       end.
Proof.
  cbv zeta. unfold create_plan. cbv zeta. fold (avail_of available_tools).
  set (ok := allow strict (avail_of available_tools)).
  change (u "paper.search") with t_paper_search.
  change (u "paper.summarize") with t_paper_summarize.
  change (u "email.send") with t_email_send.
  change (u "news.search") with t_news_search.
  change (u "news.summarize") with t_news_summarize.
  change (u "kakao.send") with t_kakao_send.
  destruct (_classify_intent goal).
  - destruct (infer_hhmm_ok ucd goal) as (t & -> & _).
    destruct (infer_route_ok ucd goal) as [(a & b & ->)| ->];
      [destruct a as [|x a], b as [|y b]|]; cbn [bind];
      eexists; split; reflexivity || exact I.
  - destruct (infer_hhmm_ok ucd goal) as (t & -> & _).
    destruct (infer_title_ok ucd goal) as (ti & ->).
    destruct ti as [[|x ti]|], t as [[|y t]|]; cbn [bind truthy];
      eexists; split; reflexivity || exact I.
  - cbn [bind]. eexists; split; reflexivity || exact I.
  - cbn [bind]. eexists; split; reflexivity || exact I.
  - destruct (_infer_email ucd goal) as [[|x e]|]; cbn [bind truthy andb];
      try (eexists; split; reflexivity).
    destruct (ok t_paper_search && ok t_paper_summarize && ok t_email_send);
      cbn [bind]; eexists; split; reflexivity.
  - destruct (ok t_news_search && ok t_news_summarize && ok t_kakao_send);
      cbn [bind]; eexists; split; reflexivity.
  - cbn [bind]. eexists; split; reflexivity || exact I.
Qed.

End PlanContents.

(** A schedule to create with its title and time. *)
Lemma parse_goal_schedule_plan_at_meeting :
  exists pg p,
    parse_goal ascii_hangul (u "제목: 주간 회의 내일 오후 3시 일정 잡아줘")
      = Ret pg
    /\ create_plan ascii_hangul (u "0f8fad5bd9cb469fa16570867728950e")
                   (u "제목: 주간 회의 내일 오후 3시 일정 잡아줘") None true
       = Ret p
    /\ if truthy (title pg) && truthy (time_hhmm pg)
       then exists ti h,
              title pg = Some ti /\ time_hhmm pg = Some h
              /\ steps p =
                   [mk_step (u "step-1") t_calendar_read
                            [(u "date", date_token pg)];
                    mk_step (u "step-2") t_calendar_create
                            [(u "title", ti); (u "date", date_token pg);
                             (u "time", h)]]
              /\ required_confirmations p
                 = [u "calendar.create requires user confirmation"]
       else steps p = [] /\ required_confirmations p = [].
Proof.
  apply (parse_goal_schedule_plan ascii_hangul
           (u "0f8fad5bd9cb469fa16570867728950e")
           (u "제목: 주간 회의 내일 오후 3시 일정 잡아줘") true).
  reflexivity.
Defined.

(** ** Validation, prompt and explanation *)

Lemma str_ltb_irrefl a : str_ltb a a = false.
Proof.
  induction a as [|x a IH]; simpl; [reflexivity|].
  rewrite N.ltb_irrefl. assumption.
Qed.

Lemma str_ltb_trans a b c :
  str_ltb a b = true -> str_ltb b c = true -> str_ltb a c = true.
Proof.
  revert b c. induction a as [|x a IH]; intros [|y b] [|z c]; simpl;
    try discriminate; auto.
  destruct (N.ltb_spec x y), (N.ltb_spec y x), (N.ltb_spec y z),
    (N.ltb_spec z y), (N.ltb_spec x z), (N.ltb_spec z x);
    try discriminate; try lia; auto.
  apply IH.
Qed.

Lemma str_ltb_total a b :
  str_ltb a b = false -> str_eqb a b = false -> str_ltb b a = true.
Proof.
  revert b. induction a as [|x a IH]; intros [|y b]; simpl;
    try discriminate; auto.
  destruct (N.ltb_spec x y), (N.ltb_spec y x), (N.eqb_spec x y);
    try discriminate; try lia; auto.
Qed.

Lemma insert_sorted_In x l y :
  In y (insert_sorted x l) <-> y = x \/ In y l.
Proof.
  induction l as [|z l IH]; simpl.
  - intuition.
  - destruct (str_ltb x z); [simpl; intuition|].
    destruct (str_eqb x z) eqn:E.
    + apply str_eqb_eq in E. subst z. simpl. intuition.
    + simpl. rewrite IH. intuition.
Qed.

Lemma increasing_cons x l :
  increasing (x :: l) = true <->
  (forall y, In y l -> str_ltb x y = true) /\ increasing l = true.
Proof.
  revert x. induction l as [|z l IH]; intros x.
  - simpl. intuition.
  - change (increasing (x :: z :: l))
      with (str_ltb x z && increasing (z :: l)).
    rewrite andb_true_iff. split.
    + intros [Hxz Hz]. split; [|assumption].
      intros y [<- | Hy]; [assumption|].
      apply IH in Hz. destruct Hz as [Hz _].
      eapply str_ltb_trans; eauto.
    + intros [H Hz]. split; [apply H; left; reflexivity|assumption].
Qed.

Lemma insert_sorted_increasing x l :
  increasing l = true -> increasing (insert_sorted x l) = true.
Proof.
  induction l as [|z l IH]; intros H; [reflexivity|].
  cbn [insert_sorted]. destruct (str_ltb x z) eqn:Hxz.
  - apply increasing_cons. split; [|assumption].
    intros y [<- | Hy]; [assumption|].
    apply increasing_cons in H. destruct H as [H _].
    eapply str_ltb_trans; eauto.
  - destruct (str_eqb x z) eqn:E; [assumption|].
    apply increasing_cons in H. destruct H as [Hz Hl].
    apply increasing_cons. split; [|auto].
    intros y Hy. apply insert_sorted_In in Hy. destruct Hy as [-> | Hy].
    + apply str_ltb_total; assumption.
    + auto.
Qed.

Lemma sorted_set_In l y : In y (sorted_set l) <-> In y l.
Proof.
  induction l as [|x l IH]; simpl; [tauto|].
  rewrite insert_sorted_In, IH. intuition.
Qed.

Lemma sorted_set_increasing l : increasing (sorted_set l) = true.
Proof.
  induction l as [|x l IH]; [reflexivity|].
  apply insert_sorted_increasing. assumption.
Qed.

(** A set has one increasing list. *)
Lemma increasing_unique l1 :
  forall l2, increasing l1 = true -> increasing l2 = true ->
    (forall x, In x l1 <-> In x l2) -> l1 = l2.
Proof.
  induction l1 as [|a l1 IH]; intros [|b l2] H1 H2 Hin.
  - reflexivity.
  - exfalso. apply (Hin b). left. reflexivity.
  - exfalso. apply (Hin a). left. reflexivity.
  - apply increasing_cons in H1, H2.
    destruct H1 as [Ha H1], H2 as [Hb H2].
    assert (a = b).
    { destruct (proj1 (Hin a) (or_introl eq_refl)) as [E | Hab]; [auto|].
      destruct (proj2 (Hin b) (or_introl eq_refl)) as [E | Hba]; [auto|].
      apply Hb in Hab. apply Ha in Hba.
      pose proof (str_ltb_trans _ _ _ Hab Hba) as F.
      rewrite str_ltb_irrefl in F. discriminate. }
    subst b. f_equal. apply IH; auto.
    intros x. split; intros Hx.
    + destruct (proj1 (Hin x) (or_intror Hx)) as [<- | H]; [|assumption].
      apply Ha in Hx. rewrite str_ltb_irrefl in Hx. discriminate.
    + destruct (proj2 (Hin x) (or_intror Hx)) as [<- | H]; [|assumption].
      apply Hb in Hx. rewrite str_ltb_irrefl in Hx. discriminate.
Qed.

Lemma sorted_set_fixed l : increasing l = true -> sorted_set l = l.
Proof.
  intros H. apply increasing_unique; auto using sorted_set_increasing.
  apply sorted_set_In.
Qed.

Lemma in_set_In t l : in_set t l = true <-> In t l.
Proof.
  unfold in_set. rewrite existsb_exists. split.
  - intros (x & Hx & E). apply str_eqb_eq in E. subst x. assumption.
  - intros H. exists t. split; [assumption|apply str_eqb_refl].
Qed.

Lemma nonempty_length {A : Type} (l : list A) :
  (List.length l =? 0) = negb (nonempty l).
Proof. destruct l; reflexivity. Qed.

(** X12: [tb_plan_validate] says ok exactly when it reports no issue, and
    then the plan has steps and every tool of a step is available. *)
Theorem validate_ok_iff_no_issue
    (plan : Plan) (available_tools : option (list str)) :
  let out := tb_plan_validate plan available_tools in
  (ok out = true <-> issues out = [])
  /\ (ok out = true ->
      missing_tools out = [] /\ steps plan <> []
      /\ forall s, In s (steps plan) ->
           In (tool_name s) (avail_of available_tools)).
Proof.
  cbv zeta. unfold tb_plan_validate. cbv zeta. cbn [ok issues missing_tools].
  set (missing := sorted_set _).
  assert (Hm : forall t, In t missing <->
            In t (map tool_name (steps plan)) /\
            (negb (nonempty (avail_of available_tools))
             || negb (in_set t (avail_of available_tools)) = true)).
  { intros t. unfold missing. rewrite sorted_set_In, filter_In. tauto. }
  rewrite nonempty_length. split.
  - destruct (nonempty (avail_of available_tools)), missing,
      (steps plan); cbn; split; intros H; try discriminate; try reflexivity;
      try (destruct (_ ++ _); discriminate).
  - intros H. apply andb_prop in H. destruct H as [H Ha].
    apply andb_prop in H. destruct H as [Hmiss Hs].
    destruct missing as [|m0 ms] eqn:Em; [|discriminate].
    split; [reflexivity|]. split; [destruct (steps plan); [discriminate|
                                    discriminate]|].
    intros s Hs'. apply in_set_In.
    destruct (in_set (tool_name s) (avail_of available_tools)) eqn:E;
      [reflexivity|]. exfalso. apply (proj2 (Hm (tool_name s))).
    split; [apply in_map; assumption|]. rewrite E. apply orb_true_r.
Qed.

(** X13: the missing tools are the tools of the steps that are not
    available (all of them when nothing is), each once, in increasing
    order. *)
Theorem validate_missing_tools
    (plan : Plan) (available_tools : option (list str)) :
  let missing := missing_tools (tb_plan_validate plan available_tools) in
  increasing missing = true
  /\ NoDup missing
  /\ forall t, In t missing <->
       (exists s, In s (steps plan) /\ tool_name s = t)
       /\ (avail_of available_tools = []
           \/ ~ In t (avail_of available_tools)).
Proof.
  cbv zeta. unfold tb_plan_validate. cbv zeta. cbn [missing_tools].
  set (missing := sorted_set _).
  assert (Hinc : increasing missing = true) by apply sorted_set_increasing.
  split; [assumption|]. split.
  - clear -Hinc. induction missing as [|x l IH]; [constructor|].
    apply increasing_cons in Hinc. destruct Hinc as [Hx Hl].
    constructor; [|auto]. intros Hin. apply Hx in Hin.
    rewrite str_ltb_irrefl in Hin. discriminate.
  - intros t. unfold missing. rewrite sorted_set_In, filter_In, in_map_iff.
    rewrite orb_true_iff, !negb_true_iff.
    assert (Hn : nonempty (avail_of available_tools) = false <->
                 avail_of available_tools = [])
      by (destruct (avail_of available_tools); simpl; split; congruence).
    assert (Hi : in_set t (avail_of available_tools) = false <->
                 ~ In t (avail_of available_tools)).
    { rewrite <- in_set_In.
      destruct (in_set t (avail_of available_tools)); split; congruence. }
    rewrite Hn, Hi. split.
    + intros [(s & E & Hs) H]. eauto.
    + intros [(s & Hs & E) H]. eauto.
Qed.

Lemma contains_app_l k a b : contains k a = true -> contains k (a ++ b) = true.
Proof.
  rewrite !contains_iff. intros (x & y & ->). exists x, (y ++ b).
  rewrite <- !app_assoc. reflexivity.
Qed.

Lemma contains_app_r k a b : contains k b = true -> contains k (a ++ b) = true.
Proof.
  rewrite !contains_iff. intros (x & y & ->). exists (a ++ x), y.
  rewrite <- !app_assoc. reflexivity.
Qed.

Lemma contains_join sep l x : In x l -> contains x (join sep l) = true.
Proof.
  induction l as [|y l IH]; [contradiction|].
  intros [-> | H].
  - destruct l as [|z l]; [apply contains_refl|].
    cbn [join]. apply contains_app_l. apply contains_refl.
  - destruct l as [|z l]; [contradiction|].
    cbn [join]. apply contains_app_r, contains_app_r. auto.
Qed.

Section RenderFacts.

Variable repr_dict : list (str * str) -> str.

(** X14: the prompt is rendered with the verdict of the validation. *)
Theorem render_prompt_agrees_with_validate
    (plan : Plan) (available_tools : option (list str)) :
  prompt_ok (tb_plan_render_prompt repr_dict plan available_tools)
    = ok (tb_plan_validate plan available_tools)
  /\ prompt_missing_tools
       (tb_plan_render_prompt repr_dict plan available_tools)
     = missing_tools (tb_plan_validate plan available_tools).
Proof.
  unfold tb_plan_render_prompt, tb_plan_validate. cbv zeta.
  cbn [prompt_ok prompt_missing_tools ok missing_tools].
  assert (E : (if nonempty (avail_of available_tools)
               then sorted_set
                      (filter (fun t => negb (in_set t
                                                (avail_of available_tools)))
                              (sorted_set (map tool_name (steps plan))))
               else sorted_set (map tool_name (steps plan)))
              = sorted_set
                  (filter (fun t => negb (nonempty (avail_of available_tools))
                                    || negb (in_set t
                                               (avail_of available_tools)))
                          (map tool_name (steps plan)))).
  { destruct (nonempty (avail_of available_tools)); cbn [negb orb].
    - apply increasing_unique; try apply sorted_set_increasing.
      intros x. rewrite !sorted_set_In, !filter_In, sorted_set_In.
      tauto.
    - f_equal. symmetry. apply forallb_filter_id.
      apply forallb_forall. reflexivity. }
  rewrite E. split; reflexivity.
Qed.

(** X15: the prompt shows the goal, every required confirmation and every
    missing tool. *)
Theorem render_prompt_shows
    (plan : Plan) (available_tools : option (list str)) :
  let out := tb_plan_render_prompt repr_dict plan available_tools in
  contains (plan_intent plan) (prompt out) = true
  /\ (forall c, In c (required_confirmations plan) ->
        contains (u "- " ++ c) (prompt out) = true)
  /\ (forall t, In t (prompt_missing_tools out) ->
        contains t (prompt out) = true).
Proof.
  cbv zeta. unfold tb_plan_render_prompt. cbv zeta.
  cbn [prompt prompt_missing_tools].
  split; [|split].
  - do 1 (apply contains_app_r). apply contains_app_l. apply contains_refl.
  - intros c Hc. do 7 (apply contains_app_r). apply contains_app_l.
    set (cs := if nonempty (filter _is_write_tool _) then _ else _).
    assert (Hin : In c cs).
    { unfold cs. destruct (nonempty _); [apply in_or_app; left|]; exact Hc. }
    destruct cs as [|c0 cs']; [contradiction|]. cbn [nonempty].
    apply contains_join. apply in_map. apply sorted_set_In. exact Hin.
  - intros t Ht. do 9 (apply contains_app_r). apply contains_app_l.
    set (missing := if nonempty (avail_of available_tools) then _ else _) in *.
    destruct missing as [|m ms]; [contradiction|]. cbn [nonempty].
    apply contains_join. exact Ht.
Qed.

(** X16: the explanation opens with the goal and lists every step's tool,
    every required confirmation and every assumption. *)
Theorem explain_lists_everything (plan : Plan) :
  let summary := tb_plan_explain repr_dict plan in
  startswith (u "목표: " ++ plan_intent plan) summary = true
  /\ (forall s, In s (steps plan) ->
        contains (tool_name s) summary = true)
  /\ (forall c, In c (required_confirmations plan) ->
        contains (u "- " ++ c) summary = true)
  /\ (forall a, In a (assumptions plan) ->
        contains (u "- " ++ a) summary = true).
Proof.
  cbv zeta. unfold tb_plan_explain.
  assert (Hline : forall k l, In l (explain_lines repr_dict plan) ->
            contains k l = true ->
            contains k (join (u "
") (explain_lines repr_dict plan)) = true).
  { intros k l Hl Hk. eapply contains_trans; [exact Hk|].
    apply contains_join. exact Hl. }
  split; [|split; [|split]].
  - assert (Hd : exists rest, explain_lines repr_dict plan
                    = (explain_goal ++ plan_intent plan) :: rest).
    { unfold explain_lines. cbv zeta.
      destruct (nonempty (steps plan)),
        (nonempty (required_confirmations plan)),
        (nonempty (assumptions plan)); cbn [app]; eauto. }
    destruct Hd as (rest & ->). apply startswith_iff.
    destruct rest as [|r0 rest]; cbn [join]; [exists []|eexists];
      [rewrite app_nil_r|]; reflexivity.
  - intros s Hs.
    assert (Hex : exists i, In (i, s) (enumerate 1 (steps plan))).
    { clear -Hs. generalize 1. induction (steps plan) as [|x l IH];
        [contradiction|]. intros n. destruct Hs as [-> | Hs].
      - exists n. left. reflexivity.
      - destruct (IH Hs (S n)) as (i & Hi). exists i. right. exact Hi. }
    destruct Hex as (i & Hi).
    apply (Hline _ (str_of_nat i ++ u ") " ++ tool_name s ++ u " — "
                    ++ _rationale (tool_name s))).
    + unfold explain_lines. cbv zeta.
      destruct (steps plan) as [|s0 ss] eqn:Es; [contradiction|].
      cbn [nonempty]. rewrite <- Es in *.
      assert (Hfm : In (str_of_nat i ++ u ") " ++ tool_name s ++ u " — "
                        ++ _rationale (tool_name s))
                       (flat_map
                          (fun '(i, s) =>
                             [str_of_nat i ++ u ") " ++ tool_name s
                              ++ u " — " ++ _rationale (tool_name s);
                              _step_to_text repr_dict (tool_name s) (args s)])
                          (enumerate 1 (steps plan)))).
      { apply in_flat_map. exists (i, s). split; [exact Hi|].
        left. reflexivity. }
      destruct (nonempty (required_confirmations plan)),
        (nonempty (assumptions plan));
        repeat (rewrite in_app_iff); cbn [In]; tauto.
    + apply contains_app_r, contains_app_r, contains_app_l, contains_refl.
  - intros c Hc. apply (Hline _ (u "- " ++ c)); [|apply contains_refl].
    unfold explain_lines. cbv zeta.
    destruct (required_confirmations plan) as [|c0 cs] eqn:Ec;
      [contradiction|]. cbn [nonempty]. rewrite <- Ec in *.
    assert (Hm : In (u "- " ++ c)
                    (map (fun c => u "- " ++ c) (required_confirmations plan)))
      by (apply (in_map (fun c => u "- " ++ c)); exact Hc).
    destruct (nonempty (steps plan)), (nonempty (assumptions plan));
      repeat (rewrite in_app_iff); cbn [In]; tauto.
  - intros a Ha. apply (Hline _ (u "- " ++ a)); [|apply contains_refl].
    unfold explain_lines. cbv zeta.
    destruct (assumptions plan) as [|a0 aa] eqn:Ea; [contradiction|].
    cbn [nonempty]. rewrite <- Ea in *.
    assert (Hm : In (u "- " ++ a)
                    (map (fun a => u "- " ++ a) (assumptions plan)))
      by (apply (in_map (fun a => u "- " ++ a)); exact Ha).
    destruct (nonempty (steps plan)),
      (nonempty (required_confirmations plan));
      repeat (rewrite in_app_iff); cbn [In]; tauto.
Qed.

End RenderFacts.

(** ** From a goal to a validated plan *)

Lemma filter_none {A} (f : A -> bool) (l : list A) :
  (forall x, In x l -> f x = false) -> filter f l = [].
Proof.
  induction l as [|x l IH]; [reflexivity|]. intros H. cbn [filter].
  rewrite (H x (or_introl eq_refl)). apply IH. intros y Hy. apply H.
  right. exact Hy.
Qed.

Lemma allow_strict_In x l t : allow true (x :: l) t = true -> In t (x :: l).
Proof.
  unfold allow. intros H. apply in_set_In. exact H.
Qed.

Section PlanUse.

Variable ucd : UnicodeData.

(** X17: in strict mode with a non-empty list, every step of the plan
    calls a tool of the list. *)
Theorem create_plan_strict_only_listed uuid goal x l :
  exists p,
    create_plan ucd uuid goal (Some (x :: l)) true = Ret p
    /\ forall s, In s (steps p) -> In (tool_name s) (x :: l).
Proof.
  destruct (create_plan_steps_facts ucd uuid goal (Some (x :: l)) true)
    as (p & Hp & Hallow & _).
  exists p. split; [exact Hp|]. intros s Hs.
  apply allow_strict_In. exact (Hallow s Hs).
Qed.

(** X18: a plan has at most three steps, each on a different tool, all
    from the nine tools the planner knows, and at most one required
    confirmation. *)
Theorem create_plan_bounds uuid goal available_tools strict :
  exists p,
    create_plan ucd uuid goal available_tools strict = Ret p
    /\ List.length (steps p) <= 3
    /\ NoDup (map tool_name (steps p))
    /\ (forall s, In s (steps p) -> In (tool_name s) plan_tools)
    /\ List.length (required_confirmations p) <= 1.
Proof.
  destruct (create_plan_steps_facts ucd uuid goal available_tools strict)
    as (p & Hp & _ & Htools & _ & Hnd & Hlen & Hconf & _).
  exists p. auto.
Qed.

(** X19: a plan created for a non-empty tool list validates against that
    list with no missing tool; it is ok exactly when it has a step. *)
Theorem created_plan_validates uuid goal x l :
  exists p,
    tb_plan_create ucd uuid goal (Some (x :: l)) = Ret p
    /\ missing_tools (tb_plan_validate p (Some (x :: l))) = []
    /\ ok (tb_plan_validate p (Some (x :: l))) = nonempty (steps p).
Proof.
  unfold tb_plan_create. cbn [avail_of nonempty].
  destruct (create_plan_steps_facts ucd uuid goal (Some (x :: l)) true)
    as (p & Hp & Hallow & _).
  exists p. split; [exact Hp|].
  unfold tb_plan_validate. cbv zeta. cbn [avail_of missing_tools ok].
  assert (E : filter (fun t => negb (nonempty (x :: l))
                               || negb (in_set t (x :: l)))
                     (map tool_name (steps p)) = []).
  { apply filter_none. intros t Ht. apply in_map_iff in Ht.
    destruct Ht as (s & <- & Hs). cbn [nonempty negb orb].
    apply negb_false_iff. exact (Hallow s Hs). }
  rewrite E. cbn [sorted_set fold_right List.length Nat.eqb andb nonempty].
  split; [reflexivity|]. apply andb_true_r.
Qed.

(** X20: for every step of a created plan the explanation has a specific
    rationale, and the arguments its text reads are there. *)
Theorem created_plan_explains uuid goal available_tools strict :
  exists p,
    create_plan ucd uuid goal available_tools strict = Ret p
    /\ forall s, In s (steps p) ->
         _rationale (tool_name s) <> rationale_default
         /\ (tool_name s = u "calendar.read" ->
             exists d, dict_get (u "date") (args s) = Some d)
         /\ (tool_name s = u "map.route" ->
             exists f t, dict_get (u "from") (args s) = Some f
                         /\ dict_get (u "to") (args s) = Some t
                         /\ f <> [] /\ t <> []).
Proof.
  destruct (create_plan_steps_facts ucd uuid goal available_tools strict)
    as (p & Hp & _ & Htools & Hargs & _).
  exists p. split; [exact Hp|]. intros s Hs. split.
  - specialize (Htools s Hs). unfold plan_tools in Htools.
    cbn [In] in Htools.
    repeat (destruct Htools as [<- | Htools]; [vm_compute; discriminate|]).
    contradiction.
  - exact (Hargs s Hs).
Qed.

End PlanUse.

(** ** Rationales *)

(** X21: the generic rationale is given exactly to the tools whose name
    starts with none of the six known prefixes. *)
Theorem rationale_default_iff (tool : str) :
  _rationale tool = rationale_default
  <-> forall pfx msg, In (pfx, msg) _TOOL_RATIONALE_PREFIX ->
        startswith pfx tool = false.
Proof.
  assert (Hex : forall k msg, In (k, msg) _TOOL_RATIONALE_EXACT ->
            str_eqb tool k = true ->
            exists pfx m, In (pfx, m) _TOOL_RATIONALE_PREFIX
                          /\ startswith pfx tool = true).
  { intros k msg Hin E. apply str_eqb_eq in E. subst tool.
    unfold _TOOL_RATIONALE_EXACT in Hin. cbn [In] in Hin.
    destruct Hin as [Hin | [Hin | []]]; injection Hin as <- <-.
    - exists (u "calendar."), rationale_calendar. split; [|reflexivity].
      unfold _TOOL_RATIONALE_PREFIX. cbn [In]. auto.
    - exists (u "map."), rationale_map. split; [|reflexivity].
      unfold _TOOL_RATIONALE_PREFIX. cbn [In]. auto 7. }
  unfold _rationale.
  destruct (dict_get tool _TOOL_RATIONALE_EXACT) as [msg|] eqn:Eg.
  { assert (Hk : exists k, In (k, msg) _TOOL_RATIONALE_EXACT
                           /\ str_eqb tool k = true).
    { revert Eg. generalize _TOOL_RATIONALE_EXACT.
      induction l as [|[k v] l IH]; cbn [dict_get]; [discriminate|].
      destruct (str_eqb tool k) eqn:Ek.
      - intros H. injection H as ->. exists k. split; [left|]; auto.
      - intros H. destruct (IH H) as (k' & Hin & Hk').
        exists k'. split; [right|]; auto. }
    destruct Hk as (k & Hin & Hk).
    destruct (Hex _ _ Hin Hk) as (pfx & m & Hin' & Hs).
    split.
    - intros Hd. exfalso. subst msg. unfold _TOOL_RATIONALE_EXACT in Hin.
      cbn [In] in Hin.
      destruct Hin as [Hin | [Hin | []]]; vm_compute in Hin;
        discriminate Hin.
    - intros H. rewrite (H _ _ Hin') in Hs. discriminate. }
  clear Hex Eg.
  unfold _TOOL_RATIONALE_PREFIX. cbn [first_prefix].
  repeat match goal with
         | |- context [startswith ?p tool] =>
             let E := fresh "E" in
             destruct (startswith p tool) eqn:E;
             [split; [intros Hd; vm_compute in Hd; discriminate Hd|];
              intros H; erewrite H in E;
              [discriminate|cbn [In]; eauto 8]|]
         end.
  split; [|reflexivity]. intros _ pfx msg Hin. cbn [In] in Hin.
  repeat (destruct Hin as [Hin | Hin];
          [injection Hin as <- <-; assumption|]).
  contradiction.
Qed.
